(** * Post-processing layer of a phrase-indexed QA pipeline (post.py)

    A shallow embedding of the functions of [post.py] and the properties
    its specification states about them.

    Conventions of the embedding:
    - Python [int] is [Z] where the code computes with it or compares it
      with a negative sentinel, and [nat] where it is a position produced
      by [range], [enumerate] or [np.where];
    - Python and numpy floats are exact rationals [Q] where the code
      compares, selects and sums scores; the comparison operators are the
      rationals' ([nan] and the infinities are not modelled there);
      [_check_is_max_context], which computes with the literal [0.01],
      is given in binary64 arithmetic, and the two quantization functions
      in the floating-point arithmetic of their arrays (binary64 and
      binary32);
    - [str] is [string], a list is a [list], a [dict] is a [gmap];
    - an operation that can raise returns [res A]: [Ok a] or [Raise e];
    - the external tokenizer module is a parameter of the functions
      that call it. *)

From Stdlib Require Import ZArith QArith Qround Qabs String Ascii List Lia Lqa.
From Stdlib Require Import Floats.
From stdpp Require Import base option list gmap strings fin_maps.

Local Open Scope string_scope.
Local Open Scope list_scope.
Local Open Scope Z_scope.

(** ** Exceptions *)

Inductive exn : Type :=
  | TypeError | IndexError | KeyError | ValueError
  | ZeroDivisionError | AssertionError | AttributeError | UnboundLocalError.

Inductive res (A : Type) : Type :=
  | Ok (a : A)
  | Raise (e : exn).
Arguments Ok {A} a.
Arguments Raise {A} e.

#[global] Instance res_ret : MRet res := fun A a => Ok a.
#[global] Instance res_bind : MBind res := fun A B f m =>
  match m with Ok a => f a | Raise e => Raise e end.
#[global] Instance res_fmap : FMap res := fun A B f m =>
  match m with Ok a => Ok (f a) | Raise e => Raise e end.

(** [o] or raise [e] when it is [None]. *)
Definition or_raise {A} (e : exn) (o : option A) : res A :=
  match o with Some a => Ok a | None => Raise e end.

(** A [for] loop whose body can raise. *)
Fixpoint foldM {A S} (body : S -> A -> res S) (s : S) (l : list A) : res S :=
  match l with
  | [] => Ok s
  | x :: l' => s' ← body s x; foldM body s' l'
  end.

Fixpoint mapM_res {A B} (f : A -> res B) (l : list A) : res (list B) :=
  match l with
  | [] => Ok []
  | x :: l' => y ← f x; ys ← mapM_res f l'; Ok (y :: ys)
  end.

(** ** Python built-ins *)

(** [enumerate(l)], counting from [n]. *)
Fixpoint enumerate_from {A} (n : nat) (l : list A) : list (nat * A) :=
  match l with
  | [] => []
  | x :: l' => (n, x) :: enumerate_from (S n) l'
  end.
Definition enumerate {A} (l : list A) : list (nat * A) := enumerate_from 0 l.

(** [range(a, b)] for integers. *)
Definition range (a b : Z) : list Z :=
  map (fun k => a + Z.of_nat k) (seq 0 (Z.to_nat (b - a))).

(** [range(a, b, -1)]. *)
Definition range_down (a b : Z) : list Z :=
  map (fun k => a - Z.of_nat k) (seq 0 (Z.to_nat (a - b))).

(** The bound of a slice, [i] clamped to a sequence of length [n]. *)
Definition slice_bound (n : nat) (i : Z) : nat :=
  if i <? 0 then Z.to_nat (Z.max (i + Z.of_nat n) 0)
  else Nat.min (Z.to_nat i) n.

(** [l[a:b]]. *)
Definition py_slice {A} (l : list A) (a b : Z) : list A :=
  let a' := slice_bound (length l) a in
  let b' := slice_bound (length l) b in
  take (b' - a') (drop a' l).

(** [sep.join(l)]. *)
Fixpoint join (sep : string) (l : list string) : string :=
  match l with
  | [] => EmptyString
  | [x] => x
  | x :: l' => (x ++ sep ++ join sep l')%string
  end.

(** [a > b] on floats. *)
Definition Qgtb (a b : Q) : bool :=
  match (a ?= b)%Q with Gt => true | _ => false end.

(** [a < b] on floats. *)
Definition Qltb (a b : Q) : bool :=
  match (a ?= b)%Q with Lt => true | _ => false end.

(** ** Floating-point numbers

    A Python [float] and a [numpy.float64] are binary64 numbers and a
    [numpy.float32] is a binary32 number. They are the [spec_float] of the
    Standard Library; its operations take the format [(prec, emax)] that
    they round to: [(53, 1024)] for binary64 and [(24, 128)] for
    binary32. *)

(** The number of the format nearest to an integer, a tie going to the
    even neighbour, as [float(n)] and [astype] convert an [int]; an
    integer beyond the largest number of the format gives an infinity. *)
Definition SF_of_Z (prec emax : Z) (z : Z) : spec_float :=
  binary_normalize prec emax z 0 false.

(** The conversion of a number to the format [(prec, emax)], as numpy
    converts a Python [float] that meets an array of that format. *)
Definition SF_convert (prec emax : Z) (x : spec_float) : spec_float :=
  match x with
  | S754_finite s m e => binary_normalize prec emax (cond_Zopp s (Zpos m)) e s
  | _ => x
  end.

(** The value of a finite number; 0 for the others. *)
Definition SF2Q (x : spec_float) : Q :=
  match x with
  | S754_finite s m e => (inject_Z (cond_Zopp s (Zpos m)) * 2 ^ e)%Q
  | _ => 0%Q
  end.

(** A number that is neither [nan] nor below zero. *)
Definition SF_nonneg (x : spec_float) : bool :=
  match x with
  | S754_zero _ => true
  | S754_infinity s => negb s
  | S754_nan => false
  | S754_finite s _ _ => negb s
  end.

(** ** [_check_is_max_context]

    The score of a span is computed with Python floats: the literal
    [0.01], a product and a sum whose other operands are integers. The
    function is written over an arithmetic [PyFloat F]; the arithmetic of
    the code is [binary64_float]. *)

Class PyFloat (F : Type) : Type := {
  of_int : Z -> F;          (* the conversion of an [int] operand *)
  fadd : F -> F -> F;       (* [a + b] *)
  fmul : F -> F -> F;       (* [a * b] *)
  fgt : F -> F -> bool;     (* [a > b] *)
  f_0_01 : F                (* the literal [0.01] *)
}.

(** Binary64 arithmetic. The literal [0.01] denotes the binary64 number
    5764607523034235 * 2^-59. Python raises [OverflowError] when it
    converts an integer [n] with [2^1024 - 2^970 <= |n|], where [of_int]
    gives an infinity: the model is that of the code for the integers
    below this bound. *)
#[global] Instance binary64_float : PyFloat spec_float := {
  of_int := SF_of_Z 53 1024;
  fadd := SFadd 53 1024;
  fmul := SFmul 53 1024;
  fgt := fun a b => SFltb b a;
  f_0_01 := S754_finite false 5764607523034235 (-59)
}.

(** The integers that Python converts to a [float]. *)
Definition float_of_int_defined (z : Z) : Prop := Z.abs z < 2 ^ 1024 - 2 ^ 970.

(** [collections.namedtuple("DocSpan", ["start", "length"])] of the caller. *)
Record DocSpan : Type := { ds_start : Z; ds_length : Z }.

Section MaxContext.
Context {F : Type} `{PyFloat F}.

(** The score the loop body computes for a span that contains [position]. *)
Definition span_score (doc_span : DocSpan) (position : Z) : F :=
  let end_ := ds_start doc_span + ds_length doc_span - 1 in
  let num_left_context := position - ds_start doc_span in
  let num_right_context := end_ - position in
  fadd (of_int (Z.min num_left_context num_right_context))
       (fmul f_0_01 (of_int (ds_length doc_span))).

(** The two tests of the loop that [continue]. *)
Definition span_contains (doc_span : DocSpan) (position : Z) : bool :=
  let end_ := ds_start doc_span + ds_length doc_span - 1 in
  negb (position <? ds_start doc_span) && negb (position >? end_).

(** One iteration; the state is [(best_score, best_span_index)]. *)
Definition max_context_body (position : Z)
    (st : option F * option nat) (it : nat * DocSpan) : option F * option nat :=
  let '(span_index, doc_span) := it in
  let end_ := ds_start doc_span + ds_length doc_span - 1 in
  if position <? ds_start doc_span then st
  else if position >? end_ then st
  else
    let num_left_context := position - ds_start doc_span in
    let num_right_context := end_ - position in
    let score := fadd (of_int (Z.min num_left_context num_right_context))
                      (fmul f_0_01 (of_int (ds_length doc_span))) in
    match fst st with
    | None => (Some score, Some span_index)
    | Some best_score =>
        if fgt score best_score then (Some score, Some span_index) else st
    end.

Definition _check_is_max_context
    (doc_spans : list DocSpan) (cur_span_index : nat) (position : Z) : bool :=
  let '(best_score, best_span_index) :=
    fold_left (max_context_body position) (enumerate doc_spans) (None, None) in
  bool_decide (Some cur_span_index = best_span_index).

(** [cur] is the arg-max: it contains [position], no span that contains
    [position] has a higher score, and its score is higher than that of
    every earlier span that contains [position]. *)
Definition is_argmax_span (doc_spans : list DocSpan) (cur : nat) (position : Z) : Prop :=
  exists sp, doc_spans !! cur = Some sp /\ span_contains sp position = true /\
    (forall j sp', doc_spans !! j = Some sp' -> span_contains sp' position = true ->
       fgt (span_score sp' position) (span_score sp position) = false) /\
    (forall j sp', (j < cur)%nat -> doc_spans !! j = Some sp' ->
       span_contains sp' position = true ->
       fgt (span_score sp position) (span_score sp' position) = true).

(** The state of the loop after the spans of [pre]. *)
Definition max_context_inv (pre : list DocSpan) (position : Z)
    (st : option F * option nat) : Prop :=
  match st with
  | (None, None) =>
      forall j sp', pre !! j = Some sp' -> span_contains sp' position = false
  | (Some s, Some k) =>
      is_argmax_span pre k position /\
      exists sp, pre !! k = Some sp /\ s = span_score sp position
  | _ => False
  end.
End MaxContext.

(** The three windows of the example: A = [0, 6), B = [4, 9), C = [7, 12). *)
Definition sample_doc_spans : list DocSpan :=
  [ {| ds_start := 0; ds_length := 6 |};
    {| ds_start := 4; ds_length := 5 |};
    {| ds_start := 7; ds_length := 5 |} ].

(** ** Strings *)

(** [len(s)]. *)
Definition len (s : string) : Z := Z.of_nat (String.length s).

(** The first position at or after [i] where [sub] starts in [s]; [s] is
    the text left to scan and [i] the number of characters before it. *)
Fixpoint find_at (i : nat) (s sub : string) : option nat :=
  if String.prefix sub s then Some i
  else match s with
       | EmptyString => None
       | String _ s' => find_at (S i) s' sub
       end.

(** [s.find(sub)]. *)
Definition find (s sub : string) : Z :=
  match find_at 0 s sub with
  | Some i => Z.of_nat i
  | None => -1
  end.

(** [s[a:b]]. *)
Definition str_slice (s : string) (a b : Z) : string :=
  string_of_list_ascii (py_slice (list_ascii_of_string s) a b).

(** [c.isspace()] for the characters of a byte string. *)
Definition isspace (c : ascii) : bool :=
  let n := nat_of_ascii c in
  ((9 <=? n) && (n <=? 13) || (28 <=? n) && (n <=? 32))%nat.

(** [s.lstrip()]. *)
Fixpoint lstrip (s : string) : string :=
  match s with
  | String c s' => if isspace c then lstrip s' else s
  | EmptyString => EmptyString
  end.

(** [s.rstrip()]. *)
Fixpoint rstrip (s : string) : string :=
  match s with
  | String c s' =>
      match rstrip s' with
      | EmptyString => if isspace c then EmptyString else String c EmptyString
      | r => String c r
      end
  | EmptyString => EmptyString
  end.

(** [s.strip()]. *)
Definition strip (s : string) : string := rstrip (lstrip s).

(** [s.split()]: [cur] is the word read so far, in reverse. *)
Fixpoint split_ws_aux (cur : list ascii) (s : string) : list string :=
  match s with
  | EmptyString =>
      match cur with
      | [] => []
      | _ => [string_of_list_ascii (rev cur)]
      end
  | String c s' =>
      if isspace c then
        match cur with
        | [] => split_ws_aux [] s'
        | _ => string_of_list_ascii (rev cur) :: split_ws_aux [] s'
        end
      else split_ws_aux (c :: cur) s'
  end.
Definition split_ws (s : string) : list string := split_ws_aux [] s.

(** [s.replace(old, new)] for a non-empty [old]; [skip] characters of
    [s] belong to an occurrence that was just replaced. *)
Fixpoint replace_aux (old new : string) (skip : nat) (s : string) : string :=
  match s with
  | EmptyString => EmptyString
  | String c s' =>
      match skip with
      | S k => replace_aux old new k s'
      | O =>
          if String.prefix old s
          then (new ++ replace_aux old new (String.length old - 1) s')%string
          else String c (replace_aux old new 0 s')
      end
  end.
Definition replace (s old new : string) : string := replace_aux old new 0 s.

(** ** Loops that return from inside *)

(** The value of the first iteration that returns, if one does. *)
Fixpoint first_some {A B} (body : A -> option B) (l : list A) : option B :=
  match l with
  | [] => None
  | x :: l' =>
      match body x with
      | Some r => Some r
      | None => first_some body l'
      end
  end.

(** ** [_improve_answer_span] *)

Section ImproveAnswerSpan.
(** [tokenizer.tokenize], the WordPiece tokenizer of the caller. *)
Variable tokenize : string -> list string.

(** The body of the inner loop: it returns when the tokens
    [new_start..new_end] spell [tok_answer_text]. *)
Definition match_span (doc_tokens : list string) (tok_answer_text : string)
    (new_start new_end : Z) : option (Z * Z) :=
  let text_span := join " " (py_slice doc_tokens new_start (new_end + 1)) in
  if String.eqb text_span tok_answer_text
  then Some (new_start, new_end) else None.

Definition _improve_answer_span (doc_tokens : list string)
    (input_start input_end : Z) (orig_answer_text : string) : Z * Z :=
  let tok_answer_text := join " " (tokenize orig_answer_text) in
  match
    first_some (fun new_start =>
                  first_some (match_span doc_tokens tok_answer_text new_start)
                    (range_down input_end (new_start - 1)))
               (range input_start (input_end + 1))
  with
  | Some r => r
  | None => (input_start, input_end)
  end.

(** The tokens [new_start..new_end] spell the tokenized answer. *)
Definition span_matches (doc_tokens : list string) (orig_answer_text : string)
    (new_start new_end : Z) : Prop :=
  join " " (py_slice doc_tokens new_start (new_end + 1))
  = join " " (tokenize orig_answer_text).
End ImproveAnswerSpan.

(** ** [get_final_text] and [nq_get_final_text] *)

(** [d[k] = v] on an [OrderedDict], kept as its items in insertion order. *)
Fixpoint od_set (d : list (Z * Z)) (k v : Z) : list (Z * Z) :=
  match d with
  | [] => [(k, v)]
  | (k', v') :: d' => if k' =? k then (k', v) :: d' else (k', v') :: od_set d' k v
  end.

(** [d.get(k)] on an [OrderedDict]. *)
Fixpoint od_get (d : list (Z * Z)) (k : Z) : option Z :=
  match d with
  | [] => None
  | (k', v') :: d' => if k' =? k then Some v' else od_get d' k
  end.

(** One iteration of the loop of [_strip_spaces]; the state is
    [(ns_chars, ns_to_s_map)]. *)
Definition strip_spaces_body (st : list ascii * list (Z * Z)) (it : nat * ascii)
    : list ascii * list (Z * Z) :=
  let '(ns_chars, ns_to_s_map) := st in
  let '(i, c) := it in
  if Ascii.eqb c " " then st
  else (ns_chars ++ [c], od_set ns_to_s_map (Z.of_nat (length ns_chars)) (Z.of_nat i)).

Definition _strip_spaces (text : string) : string * list (Z * Z) :=
  let '(ns_chars, ns_to_s_map) :=
    fold_left strip_spaces_body (enumerate (list_ascii_of_string text)) ([], []) in
  (string_of_list_ascii ns_chars, ns_to_s_map).

(** The loop that inverts [tok_ns_to_s_map]. *)
Definition invert_map (tok_ns_to_s_map : list (Z * Z)) : gmap Z Z :=
  fold_left (fun (tok_s_to_ns_map : gmap Z Z) (it : Z * Z) =>
               let '(i, tok_index) := it in <[tok_index := i]> tok_s_to_ns_map)
            tok_ns_to_s_map ∅.

(** The two nested tests that map a position of the tokenized text to
    one of the original text: [None] when it stays unmapped. *)
Definition project_position (tok_s_to_ns_map : gmap Z Z)
    (orig_ns_to_s_map : list (Z * Z)) (position : Z) : option Z :=
  match tok_s_to_ns_map !! position with
  | Some ns_position => od_get orig_ns_to_s_map ns_position
  | None => None
  end.

Section FinalText.
(** [tokenization.BasicTokenizer(do_lower_case=b).tokenize]. *)
Variable basic_tokenize : bool -> string -> list string.

Definition get_final_text (pred_text orig_text : string)
    (do_lower_case verbose_logging : bool) : Z * Z :=
  let default_out := (0, len orig_text) in
  let tok_text := join " " (basic_tokenize do_lower_case orig_text) in
  let start_position := find tok_text pred_text in
  if start_position =? -1 then default_out
  else
    let end_position := start_position + len pred_text - 1 in
    let '(orig_ns_text, orig_ns_to_s_map) := _strip_spaces orig_text in
    let '(tok_ns_text, tok_ns_to_s_map) := _strip_spaces tok_text in
    if negb (len orig_ns_text =? len tok_ns_text) then default_out
    else
      let tok_s_to_ns_map := invert_map tok_ns_to_s_map in
      match project_position tok_s_to_ns_map orig_ns_to_s_map start_position with
      | None => default_out
      | Some orig_start_position =>
          match project_position tok_s_to_ns_map orig_ns_to_s_map end_position with
          | None => default_out
          | Some orig_end_position =>
              (orig_start_position, orig_end_position + 1)
          end
      end.

Definition nq_get_final_text (pred_text orig_text : string)
    (do_lower_case verbose_logging : bool) : string :=
  let tok_text := join " " (basic_tokenize do_lower_case orig_text) in
  let start_position := find tok_text pred_text in
  if start_position =? -1 then orig_text
  else
    let end_position := start_position + len pred_text - 1 in
    let '(orig_ns_text, orig_ns_to_s_map) := _strip_spaces orig_text in
    let '(tok_ns_text, tok_ns_to_s_map) := _strip_spaces tok_text in
    if negb (len orig_ns_text =? len tok_ns_text) then orig_text
    else
      let tok_s_to_ns_map := invert_map tok_ns_to_s_map in
      match project_position tok_s_to_ns_map orig_ns_to_s_map start_position with
      | None => orig_text
      | Some orig_start_position =>
          match project_position tok_s_to_ns_map orig_ns_to_s_map end_position with
          | None => orig_text
          | Some orig_end_position =>
              str_slice orig_text orig_start_position (orig_end_position + 1)
          end
      end.

(** The values both functions compute before they test them. *)
Definition retokenized (orig_text : string) (do_lower_case : bool) : string :=
  join " " (basic_tokenize do_lower_case orig_text).

Definition start_of (pred_text orig_text : string) (do_lower_case : bool) : Z :=
  find (retokenized orig_text do_lower_case) pred_text.

Definition end_of (pred_text orig_text : string) (do_lower_case : bool) : Z :=
  start_of pred_text orig_text do_lower_case + len pred_text - 1.

Definition projected (position : Z) (orig_text : string) (do_lower_case : bool)
    : option Z :=
  project_position
    (invert_map (snd (_strip_spaces (retokenized orig_text do_lower_case))))
    (snd (_strip_spaces orig_text)) position.

(** Both functions give their fallback. *)
Definition falls_back (pred_text orig_text : string)
    (do_lower_case verbose_logging : bool) : Prop :=
  get_final_text pred_text orig_text do_lower_case verbose_logging
    = (0, len orig_text) /\
  nq_get_final_text pred_text orig_text do_lower_case verbose_logging
    = orig_text.
End FinalText.

(** [sub] occurs in [s]. *)
Definition occurs_in (sub s : string) : Prop :=
  exists pre post : string, s = (pre ++ sub ++ post)%string.

(** *** A tokenizer for the examples

    It works as [BasicTokenizer] does on ASCII text: control characters
    are dropped, white space separates tokens, every punctuation
    character is a token of its own, and the text is lower-cased on
    request. *)

Definition is_control (c : ascii) : bool :=
  let n := nat_of_ascii c in
  ((n <? 32) && negb (isspace c) || (n =? 127))%nat.

Definition is_alnum (c : ascii) : bool :=
  let n := nat_of_ascii c in
  ((48 <=? n) && (n <=? 57) || (65 <=? n) && (n <=? 90)
   || (97 <=? n) && (n <=? 122))%nat.

Definition lower_char (c : ascii) : ascii :=
  let n := nat_of_ascii c in
  if ((65 <=? n) && (n <=? 90))%nat then ascii_of_nat (n + 32) else c.

Fixpoint lower (s : string) : string :=
  match s with
  | EmptyString => EmptyString
  | String c s' => String (lower_char c) (lower s')
  end.

Fixpoint space_punctuation (s : string) : string :=
  match s with
  | EmptyString => EmptyString
  | String c s' =>
      if is_control c then space_punctuation s'
      else if is_alnum c || isspace c then String c (space_punctuation s')
      else String " " (String c (String " " (space_punctuation s')))
  end.

Definition punctuation_tokenize (do_lower_case : bool) (text : string) : list string :=
  split_ws (space_punctuation (if do_lower_case then lower text else text)).

(** ** Quantization: [float_to_int8] and [int8_to_float]

    Both work element by element on an array; these are the functions
    of one element. *)

(** [np.round]: the nearest integer, a half goes to the even neighbour. *)
Definition np_round (x : Q) : Z :=
  let f := Qfloor x in
  match (x - inject_Z f ?= 1 # 2)%Q with
  | Lt => f
  | Gt => f + 1
  | Eq => if Z.even f then f else f + 1
  end.

(** [x.clip(lo, hi)]. *)
Definition clip (x lo hi : Q) : Q :=
  if Qltb x lo then lo else if Qgtb x hi then hi else x.

(** [.astype(np.int8)] of an integral value: it wraps around. *)
Definition astype_int8 (z : Z) : Z := (z + 128) mod 256 - 128.

Definition float_to_int8 (num offset factor : Q) (keep_zeros : bool) : Z :=
  let out := ((num - offset) * factor)%Q in
  let out := clip out (-128 # 1) (127 # 1) in
  let out :=
    if keep_zeros then (out * (if Qeq_bool num 0 then 0 else 1))%Q else out in
  astype_int8 (np_round out).

(** *** The two functions in floating-point arithmetic

    [float_to_int8] above computes with the exact values of the numbers.
    The code computes [(num - offset) * factor] in the format of the
    array [num], and [int8_to_float] computes in binary32, the format it
    converts the codes to; numpy converts the two Python floats [offset]
    and [factor] to the format of the array they meet. *)

(** [(num - offset) * factor] for an element [num] of an array of the
    format [(prec, emax)]. *)
Definition scaled_fp (prec emax : Z) (num offset factor : spec_float) : spec_float :=
  SFmul prec emax (SFsub prec emax num (SF_convert prec emax offset))
        (SF_convert prec emax factor).

(** [out.clip(-128, 127)] as an exact value; [nan] stays [nan]. *)
Definition clip_fp (out : spec_float) : option Q :=
  match out with
  | S754_nan => None
  | S754_infinity s => Some (if s then -128 # 1 else 127 # 1)%Q
  | S754_zero _ => Some 0%Q
  | S754_finite _ _ _ => Some (clip (SF2Q out) (-128 # 1) (127 # 1))
  end.

(** [num != 0.0]. *)
Definition nonzero_fp (num : spec_float) : bool :=
  match num with
  | S754_zero _ => false
  | _ => true
  end.

(** [float_to_int8] on an element of an array of the format
    [(prec, emax)]. The clipped value lies in [-128, 127], where the
    product with the mask and [np.round] are exact; the conversion of
    [nan] to [int8] is not defined, which is [None]. *)
Definition float_to_int8_fp (prec emax : Z) (num offset factor : spec_float)
    (keep_zeros : bool) : option Z :=
  out ← clip_fp (scaled_fp prec emax num offset factor);
  let out :=
    if keep_zeros then (out * (if nonzero_fp num then 1 else 0))%Q else out in
  Some (astype_int8 (np_round out)).

(** [int8_to_float] on a code: [num.astype(np.float32) / factor + offset]
    in binary32, and with [keep_zeros] its product with
    [(num != 0.0).astype(np.float32)]. *)
Definition int8_to_float (num : Z) (offset factor : spec_float) (keep_zeros : bool)
    : spec_float :=
  let out :=
    SFadd 24 128
      (SFdiv 24 128 (SF_of_Z 24 128 num) (SF_convert 24 128 factor))
      (SF_convert 24 128 offset) in
  if negb keep_zeros then out
  else SFmul 24 128 out (if num =? 0 then S754_zero false else SF_of_Z 24 128 1).

(** A number that is finite and not zero, and one that is finite. *)
Definition SF_finite_nonzero (x : spec_float) : bool :=
  match x with
  | S754_finite _ _ _ => true
  | _ => false
  end.

Definition SF_finite (x : spec_float) : bool :=
  match x with
  | S754_finite _ _ _ | S754_zero _ => true
  | _ => false
  end.

(** The numbers of the example that refutes the bound of one step: the
    binary64 numbers nearest to 1000000.017, 1000000 and 30. *)
Definition sample_fp_value : spec_float := S754_finite false 8589934738028888 (-33).
Definition sample_fp_offset : spec_float := S754_finite false 8589934592000000 (-33).
Definition sample_fp_factor : spec_float := S754_finite false 8444249301319680 (-48).

(** ** The data model

    The classes of the examples, the features and the model's results
    are defined by the caller; these records hold the attributes that
    [post.py] reads. A two-dimensional array is the list of its rows. *)

Record Example : Type := {
  ex_qas_id : string;
  ex_doc_words : list string;
  ex_doc_idx : Z;
  ex_title : string;
  ex_par_idx : Z;
  ex_all_answers : list string
}.

Record Feature : Type := {
  f_unique_id : Z;
  f_example_index : nat;
  f_doc_span_index : Z;
  f_paragraph_index : Z;
  f_tokens : list string;
  f_doc_tokens : list string;
  f_input_ids : list Z;
  f_token_to_word_map : gmap Z Z;
  f_token_is_max_context : gmap Z bool
}.

Record Result : Type := {
  r_unique_id : Z;
  r_start : list (list Q);
  r_end : list (list Q);
  r_start_sp : option (gmap string (list (list Q)));
  r_filter_start_logits : list Q;
  r_filter_end_logits : list Q;
  r_span_logits : list (list Q);
  r_all_logits : list (list Q);
  r_start_logits : list Q;
  r_end_logits : list Q;
  r_switch : list Q;
  r_loss : Q
}.

(** The [metadata] dictionary of [get_metadata]; the keys [f2o_start] and
    [f2o_end] are absent until [filter_metadata] adds them. *)
Record Metadata : Type := {
  md_did : Z;
  md_context : string;
  md_title : string;
  md_start : list (list Q);
  md_end : list (list Q);
  md_span_logits : list (list Q);
  md_start2end : list (list Z);
  md_word2char_start : list Z;
  md_word2char_end : list Z;
  md_filter_start : list Q;
  md_filter_end : list Q;
  md_input_ids : option (list Z);
  md_sparse : option (list (list Q));
  md_sparse_bi : option (list (list Q));
  md_sparse_tri : option (list (list Q));
  md_len_per_para : list nat;
  md_f2o_start : option (list nat);
  md_f2o_end : option (list nat)
}.

(** [len(feature.tokens)]. *)
Definition ntokens (feature : Feature) : Z := Z.of_nat (length (f_tokens feature)).

(** ** numpy arrays *)

(** [a[i]] for a position [i] that is not negative. *)
Definition getitem {A} (a : list A) (i : Z) : res A :=
  if i <? 0 then Raise IndexError else or_raise IndexError (a !! Z.to_nat i).

(** [a[i, j]]. *)
Definition getitem2 {A} (a : list (list A)) (i j : Z) : res A :=
  row ← getitem a i; getitem row j.

(** [a[i] = v]. *)
Definition setitem {A} (a : list A) (i : Z) (v : A) : res (list A) :=
  if (i <? 0) || (Z.of_nat (length a) <=? i) then Raise IndexError
  else Ok (<[Z.to_nat i := v]> a).

(** [a[i, j] = v]. *)
Definition setitem2 {A} (a : list (list A)) (i j : Z) (v : A) : res (list (list A)) :=
  row ← getitem a i; row' ← setitem row j v; setitem a i row'.

(** [np.concatenate(arrays, axis=0)]; the rows of two-dimensional arrays
    are taken to have one length. *)
Definition np_concatenate {A} (arrays : list (list A)) : res (list A) :=
  match arrays with
  | [] => Raise ValueError
  | _ => Ok (concat arrays)
  end.

(** [np.where(a > threshold)] for a one-dimensional [a]. *)
Definition np_where_gt (a : list Q) (threshold : Q) : list nat :=
  map fst (List.filter (fun it : nat * Q => Qgtb (snd it) threshold) (enumerate a)).

(** [a[idxs]]: the rows of [a] at the positions [idxs]. *)
Definition take_rows {A} (a : list A) (idxs : list nat) : res (list A) :=
  mapM_res (fun i => or_raise IndexError (a !! i)) idxs.

(** [a[r0:r1, c0:c1]]. *)
Definition slice2 {A} (a : list (list A)) (r0 r1 c0 c1 : Z) : list (list A) :=
  map (fun row => py_slice row c0 c1) (py_slice a r0 r1).

(** [a.shape[0]] and [a.shape[1]]; an array without rows counts as
    having no columns. *)
Definition shape0 {A} (a : list (list A)) : nat := length a.
Definition shape1 {A} (a : list (list A)) : nat :=
  match a with [] => 0%nat | row :: _ => length row end.

(** [np.zeros((n, m))]. *)
Definition np_zeros2 (n m : nat) : list (list Q) := replicate n (replicate m 0%Q).

(** [target[r0:r0 + h, :w] += src] where [(h, w)] is the shape of [src]
    and [target] has [cols] columns: [src] is broadcast to the shape of
    the slice, which fails unless each axis of [src] has the length of
    the slice or length one. *)
Definition add_block (target : list (list Q)) (cols r0 : nat) (src : list (list Q))
    : res (list (list Q)) :=
  let h := shape0 src in
  let w := shape1 src in
  let a := Nat.min r0 (length target) in
  let b := Nat.min (r0 + h) (length target) in
  let th := (b - a)%nat in
  let tw := Nat.min w cols in
  if negb (((h =? th) || (h =? 1)) && ((w =? tw) || (w =? 1)))%nat
  then Raise ValueError
  else
    Ok (map (fun it : nat * list Q =>
               let '(i, row) := it in
               if ((a <=? i) && (i <? b))%nat then
                 map (fun jt : nat * Q =>
                        let '(j, x) := jt in
                        if (j <? tw)%nat then
                          let si := if (h =? 1)%nat then 0%nat else (i - a)%nat in
                          let sj := if (w =? 1)%nat then 0%nat else j in
                          (x + nth sj (nth si src []) 0)%Q
                        else x)
                     (enumerate row)
               else row)
            (enumerate target)).

(** ** [get_final_text_] *)

Section FinalTextOfSpan.
Variable basic_tokenize : bool -> string -> list string.

Definition get_final_text_ (example : Example) (feature : Feature)
    (start_index end_index : Z) (do_lower_case verbose_logging : bool)
    : res (string * Z * Z) :=
  let tok_tokens := py_slice (f_tokens feature) start_index (end_index + 1) in
  orig_doc_start ← or_raise KeyError (f_token_to_word_map feature !! start_index);
  orig_doc_end ← or_raise KeyError (f_token_to_word_map feature !! end_index);
  let orig_words := py_slice (ex_doc_words example) orig_doc_start (orig_doc_end + 1) in
  let tok_text := join " " tok_tokens in
  let tok_text := replace tok_text " ##" EmptyString in
  let tok_text := replace tok_text "##" EmptyString in
  let tok_text := strip tok_text in
  let tok_text := join " " (split_ws tok_text) in
  let orig_text := join " " orig_words in
  let full_text := join " " (ex_doc_words example) in
  let '(start_pos, end_pos) :=
    get_final_text basic_tokenize tok_text orig_text do_lower_case verbose_logging in
  let offset :=
    fold_left Z.add
      (map (fun word => len word + 1) (py_slice (ex_doc_words example) 0 orig_doc_start))
      0 in
  Ok (full_text, offset + start_pos, offset + end_pos).
End FinalTextOfSpan.

(** ** [get_metadata] *)

(** [a[1:len(feature.tokens) - 1]]: the entries of the tokens between
    the two boundary tokens. *)
Definition interior {A} (a : list A) (feature : Feature) : list A :=
  py_slice a 1 (ntokens feature - 1).

(** [[result.start_sp[key][1:n-1, 1:n-1] for feature, result in zip(features, results)]]. *)
Definition sparse_features_of (key : string) (pairs : list (Feature * Result))
    : res (list (list (list Q))) :=
  mapM_res (fun it : Feature * Result =>
              let '(feature, result) := it in
              start_sp ← or_raise TypeError (r_start_sp result);
              m ← or_raise KeyError (start_sp !! key);
              Ok (slice2 m 1 (ntokens feature - 1) 1 (ntokens feature - 1)))
           pairs.

(** The list of one n-gram order when [results[0].start_sp] has its key,
    [None] otherwise. *)
Definition sparse_features_if (key : string) (start_sp0 : gmap string (list (list Q)))
    (pairs : list (Feature * Result)) : res (option (list (list (list Q)))) :=
  match start_sp0 !! key with
  | Some _ => Some <$> sparse_features_of key pairs
  | None => Ok None
  end.

(** [max(l)]. *)
Definition py_max (l : list nat) : res nat :=
  match l with
  | [] => Raise ValueError
  | x :: l' => Ok (fold_left Nat.max l' x)
  end.

(** The part of the body of the loop over [sparse_features] for the
    bigram or the trigram map, when there is one. *)
Definition add_ngram_block (ngram_features : option (list (list (list Q))))
    (ngram_map : option (list (list Q))) (cols curr_size sidx : nat)
    (sparse_feature : list (list Q)) : res (option (list (list Q))) :=
  match ngram_features with
  | None => Ok ngram_map
  | Some feats =>
      block ← or_raise IndexError (feats !! sidx);
      if negb (((shape0 block =? shape0 sparse_feature)
                && (shape1 block =? shape1 sparse_feature))%nat)
      then Raise AssertionError
      else
        target ← or_raise TypeError ngram_map;
        Some <$> add_block target cols curr_size block
  end.

(** The sparse maps of the record:
    [(input_ids, sparse_map, sparse_bi_map, sparse_tri_map, len_per_para)]. *)
Definition sparse_maps (features : list Feature) (results : list Result)
    (start_rows : nat)
    : res (option (list Z) * option (list (list Q)) * option (list (list Q))
           * option (list (list Q)) * list nat) :=
  let pairs := zip features results in
  result0 ← or_raise IndexError (results !! 0%nat);
  match r_start_sp result0 with
  | None => Ok (None, None, None, None, [])
  | Some start_sp0 =>
      input_ids ← np_concatenate (map (fun f => interior (f_input_ids f) f) features);
      sparse_features ← sparse_features_if "1" start_sp0 pairs;
      sparse_bi_features ← sparse_features_if "2" start_sp0 pairs;
      sparse_tri_features ← sparse_features_if "3" start_sp0 pairs;
      unigrams ← or_raise TypeError sparse_features;
      map_size ← py_max (map shape0 unigrams);
      let sparse_map := np_zeros2 (length input_ids) map_size in
      let sparse_bi_map :=
        match sparse_bi_features with
        | Some _ => Some (np_zeros2 (length input_ids) map_size)
        | None => None
        end in
      let sparse_tri_map :=
        match sparse_tri_features with
        | Some _ => Some (np_zeros2 (length input_ids) map_size)
        | None => None
        end in
      '(sparse_map, sparse_bi_map, sparse_tri_map, curr_size, len_per_para) ←
        foldM (fun st (it : nat * list (list Q)) =>
                 let '(sparse_map, sparse_bi_map, sparse_tri_map, curr_size, len_per_para) := st in
                 let '(sidx, sparse_feature) := it in
                 sparse_map ← add_block sparse_map map_size curr_size sparse_feature;
                 sparse_bi_map ←
                   add_ngram_block sparse_bi_features sparse_bi_map map_size
                     curr_size sidx sparse_feature;
                 sparse_tri_map ←
                   add_ngram_block sparse_tri_features sparse_tri_map map_size
                     curr_size sidx sparse_feature;
                 Ok (sparse_map, sparse_bi_map, sparse_tri_map,
                     (curr_size + shape0 sparse_feature)%nat,
                     len_per_para ++ [shape0 sparse_feature]))
              (sparse_map, sparse_bi_map, sparse_tri_map, 0%nat, [])
              (enumerate unigrams);
      if negb ((length input_ids =? start_rows)%nat
               && (curr_size =? length sparse_map)%nat)
      then Raise AssertionError
      else Ok (Some input_ids, Some sparse_map, sparse_bi_map, sparse_tri_map,
               len_per_para)
  end.

(** The loops that fill [span_logits] and [start2end]. *)
Definition span_tables (pairs : list (Feature * Result)) (max_answer_length : Z)
    (span_logits : list (list Q)) (start2end : list (list Z))
    : res (list (list Q) * list (list Z) * Z) :=
  foldM (fun st (it : Feature * Result) =>
           let '(feature, result) := it in
           foldM (fun st i =>
                    '(span_logits, start2end, idx) ←
                      foldM (fun st j =>
                               let '(span_logits, start2end, idx) := st in
                               v ← getitem2 (r_span_logits result) i j;
                               span_logits ← setitem2 span_logits idx (j - i) v;
                               start2end ← setitem2 start2end idx (j - i) (idx + j - i);
                               Ok (span_logits, start2end, idx))
                            st
                            (range i (Z.min (i + max_answer_length)
                                            (ntokens feature - 1)));
                    Ok (span_logits, start2end, idx + 1))
                 st (range 1 (ntokens feature - 1)))
        (span_logits, start2end, 0) pairs.

Section GetMetadata.
Variable basic_tokenize : bool -> string -> list string.

(** The loop over the features that computes the character offsets;
    the state is [(full_text, prev_example, word_pos, word2char_start,
    word2char_end)]. *)
Definition word_offsets (id2example : gmap Z Example) (features : list Feature)
    (do_lower_case verbose_logging : bool)
    (word2char_start word2char_end : list Z)
    : res (string * option Example * Z * list Z * list Z) :=
  foldM (fun st feature =>
           let '(full_text, prev_example, word_pos, word2char_start, word2char_end) := st in
           example ← or_raise KeyError (id2example !! f_unique_id feature);
           let full_text :=
             match prev_example with
             | Some prev =>
                 if f_doc_span_index feature =? 0
                 then (full_text ++ join " " (ex_doc_words prev) ++ " [PAR] ")%string
                 else full_text
             | None => full_text
             end in
           '(word_pos, word2char_start, word2char_end) ←
             foldM (fun st i =>
                      let '(word_pos, word2char_start, word2char_end) := st in
                      '(_, start_pos, _) ←
                        get_final_text_ basic_tokenize example feature i
                          (Z.min (ntokens feature - 2) (i + 1))
                          do_lower_case verbose_logging;
                      '(_, _, end_pos) ←
                        get_final_text_ basic_tokenize example feature
                          (Z.max 1 (i - 1)) i do_lower_case verbose_logging;
                      let start_pos := start_pos + len full_text in
                      let end_pos := end_pos + len full_text in
                      word2char_start ← setitem word2char_start word_pos start_pos;
                      word2char_end ← setitem word2char_end word_pos end_pos;
                      Ok (word_pos + 1, word2char_start, word2char_end))
                   (word_pos, word2char_start, word2char_end)
                   (range 1 (ntokens feature - 1));
           Ok (full_text, Some example, word_pos, word2char_start, word2char_end))
        (EmptyString, None, 0, word2char_start, word2char_end) features.

Definition get_metadata (id2example : gmap Z Example) (features : list Feature)
    (results : list Result) (max_answer_length : Z)
    (do_lower_case verbose_logging : bool) : res Metadata :=
  let pairs := zip features results in
  start ← np_concatenate
    (map (fun it : Feature * Result => interior (r_start (snd it)) (fst it)) pairs);
  end_ ← np_concatenate
    (map (fun it : Feature * Result => interior (r_end (snd it)) (fst it)) pairs);
  '(input_ids, sparse_map, sparse_bi_map, sparse_tri_map, len_per_para) ←
    sparse_maps features results (length start);
  fs ← np_concatenate
    (map (fun it : Feature * Result =>
            interior (r_filter_start_logits (snd it)) (fst it)) pairs);
  fe ← np_concatenate
    (map (fun it : Feature * Result =>
            interior (r_filter_end_logits (snd it)) (fst it)) pairs);
  if max_answer_length <? 0 then Raise ValueError
  else
    let span_logits :=
      replicate (length start) (replicate (Z.to_nat max_answer_length) 0%Q) in
    let start2end :=
      replicate (length start) (replicate (Z.to_nat max_answer_length) (-1)) in
    '(span_logits, start2end, _) ←
      span_tables pairs max_answer_length span_logits start2end;
    let word2char_start := replicate (length start) 0 in
    let word2char_end := replicate (length start) 0 in
    '(full_text, prev_example, _, word2char_start, word2char_end) ←
      word_offsets id2example features do_lower_case verbose_logging
        word2char_start word2char_end;
    prev_example ← or_raise AttributeError prev_example;
    let full_text := (full_text ++ join " " (ex_doc_words prev_example))%string in
    Ok {| md_did := ex_doc_idx prev_example;
          md_context := full_text;
          md_title := ex_title prev_example;
          md_start := start;
          md_end := end_;
          md_span_logits := span_logits;
          md_start2end := start2end;
          md_word2char_start := word2char_start;
          md_word2char_end := word2char_end;
          md_filter_start := fs;
          md_filter_end := fe;
          md_input_ids := input_ids;
          md_sparse := sparse_map;
          md_sparse_bi := sparse_bi_map;
          md_sparse_tri := sparse_tri_map;
          md_len_per_para := len_per_para;
          md_f2o_start := None;
          md_f2o_end := None |}.
End GetMetadata.

(** ** [filter_metadata] *)

(** [{long: short for short, long in enumerate(end_idxs)}]. *)
Definition end_long2short_of (end_idxs : list nat) : gmap Z Z :=
  fold_left (fun (d : gmap Z Z) (it : nat * nat) =>
               let '(short, long) := it in <[Z.of_nat long := Z.of_nat short]> d)
            (enumerate end_idxs) ∅.

(** [end_long2short[long] if long in end_long2short else -1]. *)
Definition remap_value (end_long2short : gmap Z Z) (long : Z) : Z :=
  match end_long2short !! long with
  | Some short => short
  | None => -1
  end.

(** The two loops that rewrite [metadata['start2end']] cell by cell. The
    outer loop reads row [i] of the table as it is when it gets there, the
    inner loop runs over a copy of that row ([each.tolist()]). *)
Definition remap_start2end (end_long2short : gmap Z Z) (start2end : list (list Z))
    : list (list Z) :=
  fold_left (fun (table : list (list Z)) (i : nat) =>
               match table !! i with
               | None => table
               | Some each =>
                   fold_left (fun (table : list (list Z)) (jt : nat * Z) =>
                                let '(j, long) := jt in
                                match table !! i with
                                | Some row =>
                                    <[i := <[j := remap_value end_long2short long]> row]> table
                                | None => table
                                end)
                             (enumerate each) table
               end)
            (seq 0 (length start2end)) start2end.

(** The positions of [filter_end] that pass the threshold. *)
Definition retained (filter_logits : list Q) (threshold : Q) (v : Z) : Prop :=
  0 <= v /\
  exists x, filter_logits !! Z.to_nat v = Some x /\ (threshold < x)%Q.

(** The position of [v] among the retained positions: the number of
    retained positions before it. *)
Definition compact_position (filter_logits : list Q) (threshold : Q) (v : Z) : Z :=
  Z.of_nat (length (np_where_gt (take (Z.to_nat v) filter_logits) threshold)).

(** [a[idxs] if a is not None else a]. *)
Definition take_rows_opt {A} (a : option (list A)) (idxs : list nat)
    : res (option (list A)) :=
  match a with
  | None => Ok None
  | Some rows => Some <$> take_rows rows idxs
  end.

(** A record with a unigram sparse map whose arrays are indexed alike:
    the arrays selected by start position have one row for each entry of
    [filter_start], and [end] has one row for each entry of [filter_end]. *)
Definition consistent_rows (metadata : Metadata) : Prop :=
  let n := length (md_filter_start metadata) in
  length (md_start metadata) = n /\
  length (md_span_logits metadata) = n /\
  length (md_start2end metadata) = n /\
  (exists sparse, md_sparse metadata = Some sparse /\ length sparse = n) /\
  (forall sparse_bi, md_sparse_bi metadata = Some sparse_bi -> length sparse_bi = n) /\
  (forall sparse_tri, md_sparse_tri metadata = Some sparse_tri ->
     length sparse_tri = n) /\
  length (md_end metadata) = length (md_filter_end metadata).

Definition filter_metadata (metadata : Metadata) (threshold : Q) : res Metadata :=
  let start_idxs := np_where_gt (md_filter_start metadata) threshold in
  let end_idxs := np_where_gt (md_filter_end metadata) threshold in
  let end_long2short := end_long2short_of end_idxs in
  start ← take_rows (md_start metadata) start_idxs;
  end_ ← take_rows (md_end metadata) end_idxs;
  sparse_rows ← or_raise TypeError (md_sparse metadata);
  sparse ← take_rows sparse_rows start_idxs;
  sparse_bi ← take_rows_opt (md_sparse_bi metadata) start_idxs;
  sparse_tri ← take_rows_opt (md_sparse_tri metadata) start_idxs;
  span_logits ← take_rows (md_span_logits metadata) start_idxs;
  start2end ← take_rows (md_start2end metadata) start_idxs;
  Ok {| md_did := md_did metadata;
        md_context := md_context metadata;
        md_title := md_title metadata;
        md_start := start;
        md_end := end_;
        md_span_logits := span_logits;
        md_start2end := remap_start2end end_long2short start2end;
        md_word2char_start := md_word2char_start metadata;
        md_word2char_end := md_word2char_end metadata;
        md_filter_start := md_filter_start metadata;
        md_filter_end := md_filter_end metadata;
        md_input_ids := md_input_ids metadata;
        md_sparse := Some sparse;
        md_sparse_bi := sparse_bi;
        md_sparse_tri := sparse_tri;
        md_len_per_para := md_len_per_para metadata;
        md_f2o_start := Some start_idxs;
        md_f2o_end := Some end_idxs |}.

(** ** [pool_func] *)

Section PoolFunc.
Variable basic_tokenize : bool -> string -> list string.

(** [item] is [(id2example, features, results, max_answer_length,
    do_lower_case, verbose_logging, filter_threshold)]. *)
Definition pool_func (id2example : gmap Z Example) (features : list Feature)
    (results : list Result) (max_answer_length : Z)
    (do_lower_case verbose_logging : bool) (filter_threshold : Q)
    : res Metadata :=
  metadata_ ← get_metadata basic_tokenize id2example features results
                max_answer_length do_lower_case verbose_logging;
  filter_metadata metadata_ filter_threshold.
End PoolFunc.

(** ** [write_predictions] *)

(** [{feature.unique_id: feature for feature in all_features}]. *)
Definition id2feature_of (all_features : list Feature) : gmap Z Feature :=
  fold_left (fun (d : gmap Z Feature) feature => <[f_unique_id feature := feature]> d)
    all_features ∅.

(** [{id_: all_examples[id2feature[id_].example_index] for id_ in id2feature}]. *)
Definition id2example_of (all_examples : list Example) (id2feature : gmap Z Feature)
    : res (gmap Z Example) :=
  if bool_decide (map_Forall (fun _ feature =>
                                is_Some (all_examples !! f_example_index feature))
                             id2feature)
  then Ok (omap (fun feature => all_examples !! f_example_index feature) id2feature)
  else Raise IndexError.

Section WritePredictions.
Variable basic_tokenize : bool -> string -> list string.

(** The body of the loop over [end_index]; the state is
    [(predictions, scores, vec_count)]. *)
Definition wp_span (example : Example) (feature : Feature) (result : Result)
    (id_ : string) (do_lower_case verbose_logging : bool) (threshold : Q)
    (start_index : Z) (st : gmap string string * gmap string Q * Z)
    (end_index : Z) : res (gmap string string * gmap string Q * Z) :=
  let '(predictions, scores, vec_count) := st in
  if negb (bool_decide (is_Some (f_token_to_word_map feature !! start_index)))
  then Ok st
  else if negb (bool_decide (is_Some (f_token_to_word_map feature !! end_index)))
  then Ok st
  else if negb (default false (f_token_is_max_context feature !! start_index))
  then Ok st
  else
    filter_start_logit ← getitem (r_filter_start_logits result) start_index;
    filter_end_logit ← getitem (r_filter_end_logits result) end_index;
    if Qltb filter_start_logit threshold || Qltb filter_end_logit threshold
    then Ok st
    else
      let vec_count := vec_count + 1 in
      score ← getitem2 (r_all_logits result) start_index end_index;
      if match scores !! id_ with
         | None => true
         | Some best => Qgtb score best
         end
      then
        '(orig_text, start_pos, end_pos) ←
          get_final_text_ basic_tokenize example feature start_index end_index
            do_lower_case verbose_logging;
        let phrase := str_slice orig_text start_pos end_pos in
        Ok (<[id_ := phrase]> predictions, <[id_ := score]> scores, vec_count)
      else Ok (predictions, scores, vec_count).

(** The two loops over the token pairs of a feature. *)
Definition wp_spans (example : Example) (feature : Feature) (result : Result)
    (id_ : string) (max_answer_length : Z) (do_lower_case verbose_logging : bool)
    (threshold : Q) (st : gmap string string * gmap string Q * Z)
    : res (gmap string string * gmap string Q * Z) :=
  foldM (fun st start_index =>
           foldM (wp_span example feature result id_ do_lower_case
                    verbose_logging threshold start_index)
                 st
                 (range start_index
                    (Z.min (ntokens feature) (start_index + max_answer_length - 1))))
        st (range 0 (ntokens feature)).

(** The body of the loop over [all_results]; the state is
    [((predictions, scores, vec_count), token_count, loss)]. *)
Definition wp_result (id2feature : gmap Z Feature) (id2example : gmap Z Example)
    (max_answer_length : Z) (do_lower_case verbose_logging : bool) (threshold : Q)
    (st : gmap string string * gmap string Q * Z * Z * list Q) (result : Result)
    : res (gmap string string * gmap string Q * Z * Z * list Q) :=
  let '(spans_state, token_count, loss) := st in
  let loss := loss ++ [r_loss result] in
  feature ← or_raise KeyError (id2feature !! r_unique_id result);
  example ← or_raise KeyError (id2example !! r_unique_id result);
  let id_ := ex_qas_id example in
  let token_count := token_count + ntokens feature in
  '(predictions, scores, vec_count) ←
    wp_spans example feature result id_ max_answer_length do_lower_case
      verbose_logging threshold spans_state;
  if negb (bool_decide (is_Some (predictions !! id_)))
     && bool_decide (is_Some (scores !! id_))
  then Raise AssertionError
  else Ok (predictions, scores, vec_count, token_count, loss).

(** [write_predictions]: the dictionaries it writes to the prediction
    file and to the score file, and the mean loss it returns. *)
Definition write_predictions (all_examples : list Example)
    (all_features : list Feature) (all_results : list Result)
    (max_answer_length : Z) (do_lower_case verbose_logging : bool) (threshold : Q)
    : res (gmap string string * gmap string Q * Q) :=
  let id2feature := id2feature_of all_features in
  id2example ← id2example_of all_examples id2feature;
  '(predictions, scores, vec_count, token_count, loss) ←
    foldM (wp_result id2feature id2example max_answer_length do_lower_case
             verbose_logging threshold)
          ((∅, ∅, 0, 0, []) : gmap string string * gmap string Q * Z * Z * list Q)
          all_results;
  if token_count =? 0 then Raise ZeroDivisionError
  else if Z.of_nat (length loss) =? 0 then Raise ZeroDivisionError
  else
    Ok (predictions, fmap (M := gmap string) Qopp scores,
        (fold_left Qplus loss 0 / inject_Z (Z.of_nat (length loss)))%Q).

(** *** The candidates of a question *)

(** The pair [(start_index, end_index)] of the [k]-th result is an
    admissible candidate for the question [q]. *)
Definition admissible (all_examples : list Example) (all_features : list Feature)
    (all_results : list Result) (max_answer_length : Z) (threshold : Q)
    (q : string) (k : nat) (start_index end_index : Z) : Prop :=
  exists result feature example,
    all_results !! k = Some result /\
    id2feature_of all_features !! r_unique_id result = Some feature /\
    all_examples !! f_example_index feature = Some example /\
    ex_qas_id example = q /\
    start_index <= end_index /\
    end_index < start_index + max_answer_length - 1 /\
    is_Some (f_token_to_word_map feature !! start_index) /\
    is_Some (f_token_to_word_map feature !! end_index) /\
    default false (f_token_is_max_context feature !! start_index) = true /\
    exists filter_start_logit filter_end_logit,
      getitem (r_filter_start_logits result) start_index = Ok filter_start_logit /\
      getitem (r_filter_end_logits result) end_index = Ok filter_end_logit /\
      ~ (filter_start_logit < threshold)%Q /\
      ~ (filter_end_logit < threshold)%Q.

(** Its score [all_logits[start_index, end_index]] and its text. *)
Definition candidate_score (all_results : list Result)
    (k : nat) (start_index end_index : Z) (score : Q) : Prop :=
  exists result,
    all_results !! k = Some result /\
    getitem2 (r_all_logits result) start_index end_index = Ok score.

Definition candidate_text (all_examples : list Example) (all_features : list Feature)
    (all_results : list Result) (do_lower_case verbose_logging : bool)
    (k : nat) (start_index end_index : Z) (text : string) : Prop :=
  exists result feature example orig_text start_pos end_pos,
    all_results !! k = Some result /\
    id2feature_of all_features !! r_unique_id result = Some feature /\
    all_examples !! f_example_index feature = Some example /\
    get_final_text_ basic_tokenize example feature start_index end_index
      do_lower_case verbose_logging = Ok (orig_text, start_pos, end_pos) /\
    text = str_slice orig_text start_pos end_pos.
End WritePredictions.

(** The inputs are well formed: every feature belongs to an example and
    maps token positions only, every result has a feature, and its score
    arrays cover the tokens of the feature. *)
Definition well_formed (all_examples : list Example) (all_features : list Feature)
    (all_results : list Result) : Prop :=
  (forall feature, feature ∈ all_features ->
     is_Some (all_examples !! f_example_index feature) /\
     forall i, is_Some (f_token_to_word_map feature !! i) ->
       0 <= i < ntokens feature) /\
  (forall result, result ∈ all_results ->
     exists feature,
       id2feature_of all_features !! r_unique_id result = Some feature /\
       ntokens feature <= Z.of_nat (length (r_filter_start_logits result)) /\
       ntokens feature <= Z.of_nat (length (r_filter_end_logits result)) /\
       forall i j, 0 <= i < ntokens feature -> 0 <= j < ntokens feature ->
         exists score, getitem2 (r_all_logits result) i j = Ok score).

(** *** The invariant of the loops of [write_predictions] *)

(** The pairs visited before the pair [(s, e)] of the [k]-th result. *)
Definition before (k : nat) (s e : Z) (k' : nat) (s' e' : Z) : Prop :=
  (k' < k)%nat \/ (k' = k /\ (s' < s \/ (s' = s /\ e' < e))).

(** [P k s e] says that the pair [(s, e)] of the [k]-th result has been
    visited. For every question, either no visited pair is admissible and
    the question has no entry yet, or its entries are the text and the
    score of a visited admissible pair whose score no visited admissible
    pair exceeds and no earlier one reaches. *)
Definition wp_inv (basic_tokenize : bool -> string -> list string)
    (all_examples : list Example) (all_features : list Feature)
    (all_results : list Result) (max_answer_length : Z)
    (do_lower_case verbose_logging : bool) (threshold : Q)
    (P : nat -> Z -> Z -> Prop)
    (predictions : gmap string string) (scores : gmap string Q) : Prop :=
  forall q,
    (predictions !! q = None /\ scores !! q = None /\
     forall k s e, P k s e ->
       ~ admissible all_examples all_features all_results max_answer_length
           threshold q k s e)
    \/
    (exists k s e score text,
       P k s e /\
       admissible all_examples all_features all_results max_answer_length
         threshold q k s e /\
       candidate_score all_results k s e score /\
       candidate_text basic_tokenize all_examples all_features all_results
         do_lower_case verbose_logging k s e text /\
       predictions !! q = Some text /\
       scores !! q = Some score /\
       (forall k' s' e' score',
          P k' s' e' ->
          admissible all_examples all_features all_results max_answer_length
            threshold q k' s' e' ->
          candidate_score all_results k' s' e' score' ->
          (score' <= score)%Q) /\
       (forall k' s' e' score',
          P k' s' e' ->
          admissible all_examples all_features all_results max_answer_length
            threshold q k' s' e' ->
          candidate_score all_results k' s' e' score' ->
          before k s e k' s' e' ->
          (score' < score)%Q)).

(** ** [write_predictions_nq] *)

(** [_PrelimPrediction] and [_NbestPrediction]. *)
Record PrelimPrediction : Type := {
  pp_paragraph_index : Z;
  pp_feature_index : nat;
  pp_start_index : Z;
  pp_end_index : Z;
  pp_logit : Q;
  pp_no_answer_logit : Q
}.

Record NbestPrediction : Type := {
  nb_text : string;
  nb_logit : Q;
  nb_no_answer_logit : Q
}.

(** An entry of [nbest_json]. *)
Record NbestJson : Type := {
  nj_text : string;
  nj_probability : Q;
  nj_logit : Q;
  nj_no_answer_logit : Q
}.

(** [sorted(l, key=key)] and [sorted(l, key=key, reverse=True)]: both
    keep the order of the elements of equal keys. *)
Fixpoint insert_sorted {A} (key : A -> Q) (reverse : bool) (x : A) (l : list A)
    : list A :=
  match l with
  | [] => [x]
  | y :: l' =>
      if (if reverse then Qgtb (key y) (key x) else Qltb (key y) (key x))
      then y :: insert_sorted key reverse x l'
      else x :: y :: l'
  end.

Definition sorted_by {A} (key : A -> Q) (reverse : bool) (l : list A) : list A :=
  fold_right (insert_sorted key reverse) [] l.

(** [write_predictions], the function of this module, is what the name
    [write_predictions] denotes inside [write_predictions_nq] (its
    parameter is [write_prediction]): a function object, which is true. *)
Definition write_predictions_is_true : bool := true.

(** The feature list the loop runs over. *)
Definition nq_results (unique_id_to_result : gmap Z Result) (features : list Feature)
    (n_paragraphs : option (list Z)) : res (list (nat * Feature)) :=
  match n_paragraphs with
  | None =>
      keyed ← mapM_res (fun f : nat * Feature =>
                          result ← or_raise KeyError
                                     (unique_id_to_result !! f_unique_id (snd f));
                          key ← getitem (r_switch result) 3;
                          Ok (key, f))
                       (enumerate features);
      Ok (py_slice (map snd (sorted_by fst false keyed)) 0 1)
  | Some _ => Ok (enumerate features)
  end.

(** The two loops that fill [scores]. *)
Definition nq_scores (feature : Feature) (result : Result) : list ((Z * Z) * Q) :=
  let start_logits := py_slice (r_start_logits result) 0 (ntokens feature) in
  let end_logits := py_slice (r_end_logits result) 0 (ntokens feature) in
  concat
    (map (fun it : nat * Q =>
            let '(i, s) := it in
            map (fun jt : nat * Q =>
                   let '(j, e) := jt in
                   ((Z.of_nat i, Z.of_nat i + Z.of_nat j), (s + e)%Q))
                (enumerate (py_slice end_logits (Z.of_nat i) (Z.of_nat i + 10))))
         (enumerate start_logits)).

(** The first of the six tests of the loop over [scores] that holds and
    makes the loop [continue], or [Passes] when none does. *)
Inductive nq_guard : Type :=
  | Start_out_of_range | End_out_of_range | Start_unmapped | End_unmapped
  | Not_max_context | End_before_start | Passes.

Definition nq_guard_of (feature : Feature) (start_index end_index : Z) : nq_guard :=
  if start_index >=? ntokens feature then Start_out_of_range
  else if end_index >=? ntokens feature then End_out_of_range
  else if negb (bool_decide (is_Some (f_token_to_word_map feature !! start_index)))
  then Start_unmapped
  else if negb (bool_decide (is_Some (f_token_to_word_map feature !! end_index)))
  then End_unmapped
  else if negb (default false (f_token_is_max_context feature !! start_index))
  then Not_max_context
  else if end_index <? start_index then End_before_start
  else Passes.

(** The loop over the sorted [scores]; it ends at a [break]. *)
Fixpoint nq_collect (feature : Feature) (result : Result) (feature_index : nat)
    (n_best_size : Z) (n_paragraphs : option (list Z))
    (scores : list ((Z * Z) * Q)) (prelim_predictions : list PrelimPrediction)
    : res (list PrelimPrediction) :=
  match scores with
  | [] => Ok prelim_predictions
  | ((start_index, end_index), score) :: scores' =>
      match nq_guard_of feature start_index end_index with
      | Passes =>
          logit ← Qopp <$> getitem (r_switch result) 3;
          no_answer_logit ← getitem (r_switch result) 3;
          let prelim_predictions :=
            prelim_predictions ++
              [ {| pp_paragraph_index := f_paragraph_index feature;
                   pp_feature_index := feature_index;
                   pp_start_index := start_index;
                   pp_end_index := end_index;
                   pp_logit := logit;
                   pp_no_answer_logit := no_answer_logit |} ] in
          match n_paragraphs with
          | None =>
              if write_predictions_is_true
                 && (n_best_size <=? Z.of_nat (length prelim_predictions))
              then Ok prelim_predictions
              else if negb write_predictions_is_true then Ok prelim_predictions
              else nq_collect feature result feature_index n_best_size
                     n_paragraphs scores' prelim_predictions
          | Some _ =>
              nq_collect feature result feature_index n_best_size
                n_paragraphs scores' prelim_predictions
          end
      | _ =>
          nq_collect feature result feature_index n_best_size n_paragraphs
            scores' prelim_predictions
      end
  end.

(** The loop over [results] and the sort that follows it: the sorted
    [prelim_predictions] and the [result] of the last feature, if the loop
    had one; [last_result] is the value of the variable [result] before. *)
Definition nq_prelim_predictions (unique_id_to_result : gmap Z Result)
    (features : list Feature) (n_best_size : Z) (n_paragraphs : option (list Z))
    (last_result : option Result)
    : res (list PrelimPrediction * option Result) :=
  results ← nq_results unique_id_to_result features n_paragraphs;
  '(prelim_predictions, last_result) ←
    foldM (fun (st : list PrelimPrediction * option Result) (it : nat * Feature) =>
             let '(prelim_predictions, _) := st in
             let '(feature_index, feature) := it in
             result ← or_raise KeyError
                        (unique_id_to_result !! f_unique_id feature);
             let scores := sorted_by snd true (nq_scores feature result) in
             prelim_predictions ←
               nq_collect feature result feature_index n_best_size n_paragraphs
                 scores prelim_predictions;
             Ok (prelim_predictions, Some result))
          ([], last_result) results;
  Ok (sorted_by pp_logit true prelim_predictions, last_result).

(** The branch of [get_nbest_json] that gives a prediction its text. *)
Inductive text_branch : Type := Text_yes | Text_no | Text_span.

Definition nbest_branch (pred : PrelimPrediction) : text_branch :=
  if (pp_start_index pred =? pp_end_index pred) && (pp_end_index pred =? -1)
  then Text_yes
  else if (pp_start_index pred =? pp_end_index pred) && (pp_end_index pred =? -2)
  then Text_no
  else Text_span.

Section NbestJson.
Variable basic_tokenize : bool -> string -> list string.
(** [math.exp]. *)
Variable math_exp : Q -> Q.

Definition _compute_softmax (scores : list Q) : res (list Q) :=
  match scores with
  | [] => Ok []
  | _ =>
      let max_score :=
        fold_left (fun (max_score : option Q) score =>
                     match max_score with
                     | None => Some score
                     | Some m => if Qgtb score m then Some score else max_score
                     end) scores None in
      max_score ← or_raise TypeError max_score;
      let '(exp_scores, total_sum) :=
        fold_left (fun (st : list Q * Q) score =>
                     let '(exp_scores, total_sum) := st in
                     let x := math_exp (score - max_score) in
                     (exp_scores ++ [x], total_sum + x)%Q)
                  scores ([], 0%Q) in
      mapM_res (fun score =>
                  if Qeq_bool total_sum 0 then Raise ZeroDivisionError
                  else Ok (score / total_sum)%Q)
               exp_scores
  end.

(** The last branch of the text of a prediction: the text of its span. *)
Definition nbest_span_text (features : list Feature) (pred : PrelimPrediction)
    (do_lower_case verbose_logging : bool) : res string :=
  feature ← or_raise IndexError (features !! pp_feature_index pred);
  let tok_tokens :=
    py_slice (f_tokens feature) (pp_start_index pred) (pp_end_index pred + 1) in
  orig_doc_start ← or_raise KeyError
                     (f_token_to_word_map feature !! pp_start_index pred);
  orig_doc_end ← or_raise KeyError
                   (f_token_to_word_map feature !! pp_end_index pred);
  let orig_tokens :=
    py_slice (f_doc_tokens feature) orig_doc_start (orig_doc_end + 1) in
  let tok_text := join " " tok_tokens in
  let tok_text := replace tok_text " ##" EmptyString in
  let tok_text := replace tok_text "##" EmptyString in
  let tok_text := strip tok_text in
  let tok_text := join " " (split_ws tok_text) in
  let orig_text := join " " orig_tokens in
  Ok (nq_get_final_text basic_tokenize tok_text orig_text do_lower_case
        verbose_logging).

Definition nbest_final_text (features : list Feature) (pred : PrelimPrediction)
    (do_lower_case verbose_logging : bool) : res string :=
  match nbest_branch pred with
  | Text_yes => Ok "yes"
  | Text_no => Ok "no"
  | Text_span => nbest_span_text features pred do_lower_case verbose_logging
  end.

(** The loop of [get_nbest_json] over the predictions; it ends at the
    [break]. [seen_predictions] stays the empty dictionary it starts as:
    nothing is ever stored in it. *)
Fixpoint nbest_collect (features : list Feature) (n_best_size : Z)
    (no_answer_logit : Q) (do_lower_case verbose_logging : bool)
    (seen_predictions : gmap string unit)
    (prelim_predictions : list PrelimPrediction) (nbest : list NbestPrediction)
    : res (list NbestPrediction) :=
  match prelim_predictions with
  | [] => Ok nbest
  | pred :: prelim_predictions' =>
      if n_best_size <=? Z.of_nat (length nbest) then Ok nbest
      else
        final_text ← nbest_final_text features pred do_lower_case verbose_logging;
        if bool_decide (is_Some (seen_predictions !! final_text))
        then nbest_collect features n_best_size no_answer_logit do_lower_case
               verbose_logging seen_predictions prelim_predictions' nbest
        else nbest_collect features n_best_size no_answer_logit do_lower_case
               verbose_logging seen_predictions prelim_predictions'
               (nbest ++ [ {| nb_text := final_text;
                              nb_logit := pp_logit pred;
                              nb_no_answer_logit := no_answer_logit |} ])
  end.

Definition get_nbest_json (features : list Feature) (n_best_size : Z)
    (no_answer_logit : Q) (do_lower_case verbose_logging : bool)
    (prelim_predictions : list PrelimPrediction) : res (list NbestJson) :=
  nbest ← nbest_collect features n_best_size no_answer_logit do_lower_case
            verbose_logging ∅ prelim_predictions [];
  let nbest :=
    match nbest with
    | [] => [ {| nb_text := "empty"; nb_logit := 0;
                 nb_no_answer_logit := no_answer_logit |} ]
    | _ => nbest
    end in
  let total_scores := map nb_logit nbest in
  probs ← _compute_softmax total_scores;
  nbest_json ← mapM_res (fun it : nat * NbestPrediction =>
                           let '(i, entry) := it in
                           probability ← or_raise IndexError (probs !! i);
                           Ok {| nj_text := nb_text entry;
                                 nj_probability := probability;
                                 nj_logit := nb_logit entry;
                                 nj_no_answer_logit := nb_no_answer_logit entry |})
                        (enumerate nbest);
  match nbest_json with
  | [] => Raise AssertionError
  | _ => Ok nbest_json
  end.
End NbestJson.

(** What holds of every prediction that the loops append. *)
Definition prelim_ok (unique_id_to_result : gmap Z Result)
    (features : list Feature) (pred : PrelimPrediction) : Prop :=
  exists feature result no_answer,
    features !! pp_feature_index pred = Some feature /\
    unique_id_to_result !! f_unique_id feature = Some result /\
    getitem (r_switch result) 3 = Ok no_answer /\
    pp_logit pred = (- no_answer)%Q /\
    pp_no_answer_logit pred = no_answer /\
    0 <= pp_start_index pred /\
    pp_start_index pred <= pp_end_index pred /\
    pp_end_index pred < ntokens feature.

(** The value of [all_predictions] and of [all_nbest_json] for a question. *)
Inductive nq_prediction : Type :=
  | Pred_with_answers (text : string) (all_answers : list string)
  | Pred_per_cutoff (texts : list string).

Inductive nq_nbest : Type :=
  | Nbest_placeholder (pred : NbestPrediction)
  | Nbest_entries (nbest_json : list NbestJson).

Section WritePredictionsNq.
Variable basic_tokenize : bool -> string -> list string.
Variable math_exp : Q -> Q.

(** The body of the loop over the examples; the state is
    [(all_predictions, all_nbest_json, result)], where [result] is the
    variable of that name, which keeps its value from one example to the
    next: it is first the variable of the loop that fills
    [unique_id_to_result]. *)
Definition nq_example (all_features : list Feature)
    (unique_id_to_result : gmap Z Result) (n_best_size : Z)
    (do_lower_case verbose_logging : bool) (n_paragraphs : option (list Z))
    (st : gmap string nq_prediction * gmap string nq_nbest * option Result)
    (it : nat * Example)
    : res (gmap string nq_prediction * gmap string nq_nbest * option Result) :=
  let '(all_predictions, all_nbest_json, last_result) := st in
  let '(example_index, example) := it in
  let features :=
    List.filter (fun feature => (f_example_index feature =? example_index)%nat)
      all_features in
  if (Z.of_nat (length features) =? 0) && bool_decide (n_paragraphs = None)
  then
    let pred := {| nb_text := "empty"; nb_logit := -1000;
                   nb_no_answer_logit := 1000 |} in
    Ok (<[ex_qas_id example := Pred_with_answers "empty" (ex_all_answers example)]>
          all_predictions,
        <[ex_qas_id example := Nbest_placeholder pred]> all_nbest_json,
        last_result)
  else
    '(prelim_predictions, last_result) ←
      nq_prelim_predictions unique_id_to_result features n_best_size
        n_paragraphs last_result;
    result ← or_raise UnboundLocalError last_result;
    no_answer_logit ← getitem (r_switch result) 3;
    match n_paragraphs with
    | None =>
        nbest_json ← get_nbest_json basic_tokenize math_exp features n_best_size
                       no_answer_logit do_lower_case verbose_logging
                       prelim_predictions;
        first ← getitem nbest_json 0;
        Ok (<[ex_qas_id example :=
                Pred_with_answers (nj_text first) (ex_all_answers example)]>
              all_predictions,
            <[ex_qas_id example := Nbest_entries nbest_json]> all_nbest_json,
            last_result)
    | Some cutoffs =>
        texts ← mapM_res (fun n =>
                   nbest_json ←
                     get_nbest_json basic_tokenize math_exp features n_best_size
                       no_answer_logit do_lower_case verbose_logging
                       (List.filter (fun pred => pp_paragraph_index pred <? n)
                          prelim_predictions);
                   first ← getitem nbest_json 0;
                   Ok (nj_text first))
                 cutoffs;
        Ok (<[ex_qas_id example := Pred_per_cutoff texts]> all_predictions,
            <[ex_qas_id example := Nbest_entries []]> all_nbest_json,
            last_result)
    end.

(** [write_predictions_nq] up to the two dictionaries it writes to its
    output files; the scores it returns come from [eval_utils] and are not
    part of this embedding. *)
Definition write_predictions_nq (all_examples : list Example)
    (all_features : list Feature) (all_results : list Result) (n_best_size : Z)
    (do_lower_case verbose_logging : bool) (n_paragraphs : option (list Z))
    : res (gmap string nq_prediction * gmap string nq_nbest) :=
  let unique_id_to_result :=
    fold_left (fun (d : gmap Z Result) result => <[r_unique_id result := result]> d)
      all_results ∅ in
  '(all_predictions, all_nbest_json, _) ←
    foldM (nq_example all_features unique_id_to_result n_best_size
             do_lower_case verbose_logging n_paragraphs)
          (∅, ∅, last all_results) (enumerate all_examples);
  Ok (all_predictions, all_nbest_json).
End WritePredictionsNq.

(** ** A small document for the examples

    One example of three words, one feature of five tokens and the
    model's result for it, without and with sparse scores. *)

Definition sample_example : Example :=
  {| ex_qas_id := "q1";
     ex_doc_words := ["Steve"; "Smith"; "slept"];
     ex_doc_idx := 7;
     ex_title := "Sleep";
     ex_par_idx := 0;
     ex_all_answers := ["Steve Smith"] |}.

Definition sample_feature : Feature :=
  {| f_unique_id := 1000;
     f_example_index := 0;
     f_doc_span_index := 0;
     f_paragraph_index := 0;
     f_tokens := ["[CLS]"; "steve"; "smith"; "slept"; "[SEP]"];
     f_doc_tokens := ["Steve"; "Smith"; "slept"];
     f_input_ids := [101; 5; 6; 7; 102];
     f_token_to_word_map := {[ 1 := 0; 2 := 1; 3 := 2 ]};
     f_token_is_max_context := {[ 1 := true; 2 := true; 3 := true ]} |}.

Definition sample_scores : list (list Q) :=
  [ [0; 0; 0; 0; 0];
    [0; 1 # 2; 3; 1; 0];
    [0; 0; 2; 1 # 4; 0];
    [0; 0; 0; 1; 0];
    [0; 0; 0; 0; 0] ]%Q.

Definition sample_result : Result :=
  {| r_unique_id := 1000;
     r_start := [[0]; [1 # 2]; [1 # 4]; [1]; [0]]%Q;
     r_end := [[0]; [1 # 8]; [3 # 4]; [2]; [0]]%Q;
     r_start_sp := None;
     r_filter_start_logits := [0; 1; -3; 2; 0]%Q;
     r_filter_end_logits := [0; -3; 1; 2; 0]%Q;
     r_span_logits := sample_scores;
     r_all_logits := sample_scores;
     r_start_logits := [0; 1; 2; 1 # 2; 0]%Q;
     r_end_logits := [0; 1 # 2; 1; 3; 0]%Q;
     r_switch := [0; 0; 0; 1 # 2]%Q;
     r_loss := 1 # 4 |}.

Definition sample_result_sparse : Result :=
  {| r_unique_id := 1000;
     r_start := r_start sample_result;
     r_end := r_end sample_result;
     r_start_sp := Some {[ "1" := sample_scores ]};
     r_filter_start_logits := r_filter_start_logits sample_result;
     r_filter_end_logits := r_filter_end_logits sample_result;
     r_span_logits := sample_scores;
     r_all_logits := sample_scores;
     r_start_logits := r_start_logits sample_result;
     r_end_logits := r_end_logits sample_result;
     r_switch := r_switch sample_result;
     r_loss := r_loss sample_result |}.

Definition sample_id2example : gmap Z Example := {[ 1000 := sample_example ]}.

(** The record of the sample document with sparse scores, as
    [get_metadata] builds it for [max_answer_length = 2]. *)
Definition sample_metadata : Metadata :=
  {| md_did := 7;
     md_context := "Steve Smith slept";
     md_title := "Sleep";
     md_start := [[1 # 2]; [1 # 4]; [1]]%Q;
     md_end := [[1 # 8]; [3 # 4]; [2]]%Q;
     md_span_logits := [[1 # 2; 3]; [2; 1 # 4]; [1; 0]]%Q;
     md_start2end := [[0; 1]; [1; 2]; [2; -1]];
     md_word2char_start := [0; 6; 12];
     md_word2char_end := [5; 11; 17];
     md_filter_start := [1; -3; 2]%Q;
     md_filter_end := [-3; 1; 2]%Q;
     md_input_ids := Some [5; 6; 7];
     md_sparse := Some [[1 # 2; 3; 1]; [0; 2; 1 # 4]; [0; 0; 1]]%Q;
     md_sparse_bi := None;
     md_sparse_tri := None;
     md_len_per_para := [3%nat];
     md_f2o_start := None;
     md_f2o_end := None |}.

(** The same record without the sparse fields. *)
Definition sample_dense_metadata : Metadata :=
  {| md_did := 7;
     md_context := "Steve Smith slept";
     md_title := "Sleep";
     md_start := [[1 # 2]; [1 # 4]; [1]]%Q;
     md_end := [[1 # 8]; [3 # 4]; [2]]%Q;
     md_span_logits := [[1 # 2; 3]; [2; 1 # 4]; [1; 0]]%Q;
     md_start2end := [[0; 1]; [1; 2]; [2; -1]];
     md_word2char_start := [0; 6; 12];
     md_word2char_end := [5; 11; 17];
     md_filter_start := [1; -3; 2]%Q;
     md_filter_end := [-3; 1; 2]%Q;
     md_input_ids := None;
     md_sparse := None;
     md_sparse_bi := None;
     md_sparse_tri := None;
     md_len_per_para := [];
     md_f2o_start := None;
     md_f2o_end := None |}.

(** [sample_metadata] filtered at the threshold 0. *)
Definition sample_filtered : Metadata :=
  {| md_did := 7;
     md_context := "Steve Smith slept";
     md_title := "Sleep";
     md_start := [[1 # 2]; [1]]%Q;
     md_end := [[3 # 4]; [2]]%Q;
     md_span_logits := [[1 # 2; 3]; [1; 0]]%Q;
     md_start2end := [[-1; 0]; [1; -1]];
     md_word2char_start := [0; 6; 12];
     md_word2char_end := [5; 11; 17];
     md_filter_start := [1; -3; 2]%Q;
     md_filter_end := [-3; 1; 2]%Q;
     md_input_ids := Some [5; 6; 7];
     md_sparse := Some [[1 # 2; 3; 1]; [0; 0; 1]]%Q;
     md_sparse_bi := None;
     md_sparse_tri := None;
     md_len_per_para := [3%nat];
     md_f2o_start := Some [0; 2]%nat;
     md_f2o_end := Some [1; 2]%nat |}.

(** The predictions that [write_predictions_nq] collects for the sample
    document with [n_best_size = 3]: the spans of the local scores 5, 4
    and 7/2. *)
Definition sample_unique_id_to_result : gmap Z Result := {[ 1000 := sample_result ]}.

Definition sample_prelim_predictions : list PrelimPrediction :=
  [ {| pp_paragraph_index := 0; pp_feature_index := 0;
       pp_start_index := 2; pp_end_index := 3;
       pp_logit := - (1 # 2); pp_no_answer_logit := 1 # 2 |};
    {| pp_paragraph_index := 0; pp_feature_index := 0;
       pp_start_index := 1; pp_end_index := 3;
       pp_logit := - (1 # 2); pp_no_answer_logit := 1 # 2 |};
    {| pp_paragraph_index := 0; pp_feature_index := 0;
       pp_start_index := 3; pp_end_index := 3;
       pp_logit := - (1 # 2); pp_no_answer_logit := 1 # 2 |} ].

(** ** [_check_is_max_context]: the span of a covered position *)

Section MaxContextCover.
Context {F : Type} `{PyFloat F}.

(** What the loop keeps whatever the order of the scores is: the index it
    holds is that of a span read so far that contains [position], and it
    holds one as soon as it has read such a span. *)
Definition cover_inv (pre : list DocSpan) (position : Z)
    (st : option F * option nat) : Prop :=
  match st with
  | (None, None) =>
      forall j sp, pre !! j = Some sp -> span_contains sp position = false
  | (Some _, Some k) =>
      exists sp, pre !! k = Some sp /\ span_contains sp position = true
  | _ => False
  end.
End MaxContextCover.

(** ** [compress_metadata] *)




(** The entry [a[r, c]] of a two-dimensional array. *)
Definition entry {A} (a : list (list A)) (r c : nat) : option A :=
  row ← a !! r; row !! c.

(** ** [_compute_softmax]: what it computes *)

(** The sum of [math.exp(score - m)] over [scores], added to [total] in
    the order of the loop. *)
Definition exp_sum (math_exp : Q -> Q) (m : Q) (scores : list Q) (total : Q) : Q :=
  fold_left (fun total score => (total + math_exp (score - m))%Q) scores total.

(** The sum of a list of probabilities. *)
Definition Qsum (l : list Q) : Q := fold_left Qplus l 0%Q.

(** A rational stand-in for [math.exp] in the examples: positive,
    increasing, and 1 at 0. *)
Definition sample_exp (x : Q) : Q :=
  if Qle_bool 0 x then (1 + x)%Q else (1 / (1 - x))%Q.

(** ** [_strip_spaces]: the text without spaces and the positions it keeps *)

(** The characters of a text that are not spaces. *)
Definition non_spaces (chars : list ascii) : list ascii :=
  List.filter (fun c => negb (Ascii.eqb c " ")) chars.

(** The positions of the characters that are not spaces, counted from [i]. *)
Fixpoint ns_positions (i : nat) (chars : list ascii) : list nat :=
  match chars with
  | [] => []
  | c :: chars' =>
      if Ascii.eqb c " " then ns_positions (S i) chars'
      else i :: ns_positions (S i) chars'
  end.

(** The dictionary that sends [k] to the [k]-th of the positions [ps]. *)
Definition ns_map (ps : list nat) : list (Z * Z) :=
  map (fun it : nat * nat => (Z.of_nat (fst it), Z.of_nat (snd it))) (enumerate ps).

(** [text] without its spaces. *)
Definition without_spaces (text : string) : string :=
  string_of_list_ascii (non_spaces (list_ascii_of_string text)).

(** ** [get_nbest_json]: the entries it builds *)

(** The entry of [nbest] for a prediction and its text, and the entry of
    [nbest_json] for an entry of [nbest] and its probability. *)
Definition nbest_entry (no_answer_logit : Q) (pred : PrelimPrediction)
    (text : string) : NbestPrediction :=
  {| nb_text := text; nb_logit := pp_logit pred;
     nb_no_answer_logit := no_answer_logit |}.

Definition nbest_json_entry (entry : NbestPrediction) (probability : Q) : NbestJson :=
  {| nj_text := nb_text entry; nj_probability := probability;
     nj_logit := nb_logit entry; nj_no_answer_logit := nb_no_answer_logit entry |}.

(** The entry that stands for an empty [nbest]. *)
Definition nbest_nonce (no_answer_logit : Q) : NbestPrediction :=
  {| nb_text := "empty"; nb_logit := 0; nb_no_answer_logit := no_answer_logit |}.

(** The entry of an example without features. *)
Definition nbest_no_features : NbestPrediction :=
  {| nb_text := "empty"; nb_logit := -1000; nb_no_answer_logit := 1000 |}.

(** Two predictions of one span, for the examples. *)
Definition sample_repeated_predictions : list PrelimPrediction :=
  [ {| pp_paragraph_index := 0; pp_feature_index := 0; pp_start_index := 1;
       pp_end_index := 2; pp_logit := 1; pp_no_answer_logit := 1 # 2 |};
    {| pp_paragraph_index := 0; pp_feature_index := 0; pp_start_index := 1;
       pp_end_index := 2; pp_logit := 0; pp_no_answer_logit := 1 # 2 |} ].

(** ** [write_predictions_nq]: what the two dictionaries hold *)

(** The probabilities of a list of entries are those of a uniform
    distribution. *)
Definition uniform (nbest_json : list NbestJson) : Prop :=
  forall entry, entry ∈ nbest_json ->
    (nj_probability entry * inject_Z (Z.of_nat (length nbest_json)) == 1)%Q.

(** A second example, without features, for the examples. *)
Definition sample_example_2 : Example :=
  {| ex_qas_id := "q2";
     ex_doc_words := ["No"; "text"];
     ex_doc_idx := 8;
     ex_title := "None";
     ex_par_idx := 0;
     ex_all_answers := ["nothing"] |}.

(** The shape of a table with [n] rows of [m] cells, and the cells of
    [start2end]: each holds -1 or the sum of its row and its column. *)
Definition table_shape {A} (n m : nat) (table : list (list A)) : Prop :=
  length table = n /\ forall r row, table !! r = Some row -> length row = m.

Definition start2end_cells (table : list (list Z)) : Prop :=
  forall r c row v, table !! r = Some row -> row !! c = Some v ->
    v = -1 \/ v = Z.of_nat r + Z.of_nat c.

(** ** [write_hdf5]: the items put on the input queue *)

(** The loop of [write_hdf5] over [all_results] groups the features and
    the results into items [(id2example, features, results)] that it puts
    on [inqueue]; [id2example] is the same in every item. The state is
    [(items, features, results)], with [items] the items put so far, in
    their order. The two threads that take the items from the queue, call
    [pool_func] on each and write the file are not part of the model. *)
Definition hdf5_step (id2feature : gmap Z Feature) (id2example : gmap Z Example)
    (st : list (list Feature * list Result) * list Feature * list Result)
    (result : Result)
    : res (list (list Feature * list Result) * list Feature * list Result) :=
  let '(items, features, results) := st in
  example ← or_raise KeyError (id2example !! r_unique_id result);
  feature ← or_raise KeyError (id2feature !! r_unique_id result);
  let condition :=
    (0 <? Z.of_nat (length features)) && (ex_par_idx example =? 0)
    && (f_doc_span_index feature =? 0) in
  if condition
  then Ok (items ++ [(features, results)], [feature], [result])
  else Ok (items, features ++ [feature], results ++ [result]).

(** The items put on [inqueue] before the final [None]. *)
Definition hdf5_items (all_examples : list Example) (all_features : list Feature)
    (all_results : list Result) : res (list (list Feature * list Result)) :=
  if negb (0 <? Z.of_nat (length all_examples)) then Raise AssertionError
  else
    let id2feature := id2feature_of all_features in
    id2example ← id2example_of all_examples id2feature;
    '(items, features, results) ←
      foldM (hdf5_step id2feature id2example) ([], [], []) all_results;
    Ok (items ++ [(features, results)]).

(** The first feature of a document: the feature of [result] has
    [doc_span_index == 0] and its example has [par_idx == 0]. *)
Definition starts_document (all_examples : list Example) (all_features : list Feature)
    (result : Result) : Prop :=
  exists feature example,
    id2feature_of all_features !! r_unique_id result = Some feature /\
    all_examples !! f_example_index feature = Some example /\
    ex_par_idx example = 0 /\ f_doc_span_index feature = 0.

(** The features of an item are the features of its results. *)
Definition features_of (all_features : list Feature)
    (features : list Feature) (results : list Result) : Prop :=
  Forall2 (fun feature result =>
             id2feature_of all_features !! r_unique_id result = Some feature)
          features results.

(** What the loop keeps: each item is the features of its results; an item
    that was put has a result; every item but the first starts with the
    first feature of a document, and no item has one further on. *)
Definition hdf5_inv (all_examples : list Example) (all_features : list Feature)
    (st : list (list Feature * list Result) * list Feature * list Result) : Prop :=
  let '(items, features, results) := st in
  let all := items ++ [(features, results)] in
  (forall k fs rs, all !! k = Some (fs, rs) ->
     features_of all_features fs rs /\
     (forall i result, rs !! S i = Some result ->
        ~ starts_document all_examples all_features result) /\
     ((0 < k)%nat ->
      exists result, rs !! 0%nat = Some result /\
                     starts_document all_examples all_features result)) /\
  (forall k fs rs, items !! k = Some (fs, rs) -> rs <> []).

Definition sample_feature_2 : Feature :=
  {| f_unique_id := 1001;
     f_example_index := 0;
     f_doc_span_index := 1;
     f_paragraph_index := 0;
     f_tokens := f_tokens sample_feature;
     f_doc_tokens := f_doc_tokens sample_feature;
     f_input_ids := f_input_ids sample_feature;
     f_token_to_word_map := f_token_to_word_map sample_feature;
     f_token_is_max_context := f_token_is_max_context sample_feature |}.

Definition sample_result_2 : Result :=
  {| r_unique_id := 1001;
     r_start := r_start sample_result;
     r_end := r_end sample_result;
     r_start_sp := r_start_sp sample_result;
     r_filter_start_logits := r_filter_start_logits sample_result;
     r_filter_end_logits := r_filter_end_logits sample_result;
     r_span_logits := r_span_logits sample_result;
     r_all_logits := r_all_logits sample_result;
     r_start_logits := r_start_logits sample_result;
     r_end_logits := r_end_logits sample_result;
     r_switch := r_switch sample_result;
     r_loss := r_loss sample_result |}.

(** ** Further predicates and stand-ins *)

(** The place of a number that is not negative in their order. *)
Definition SF_rank (a : spec_float) : Z * Z * Z :=
  match a with
  | S754_zero _ => (0, 0, 0)
  | S754_finite _ m e => (1, e, Zpos m)
  | _ => (2, 0, 0)
  end.

Definition rank_lt (p q : Z * Z * Z) : Prop :=
  p.1.1 < q.1.1 \/ (p.1.1 = q.1.1 /\ (p.1.2 < q.1.2 \/ (p.1.2 = q.1.2 /\ p.2 < q.2))).


(** A stand-in for [math.exp] that underflows: it is 0 for the arguments
    below -746, where [math.exp] is 0.0. *)
Definition underflow_exp (x : Q) : Q :=
  if Qle_bool (-746 # 1) x then sample_exp x else 0%Q.

(* ================================================================= *)
(** * Properties *)

(** ** Comparisons and loops *)

Lemma Qgtb_true a b : Qgtb a b = true <-> (b < a)%Q.
Proof.
  unfold Qgtb. rewrite Qgt_alt. destruct (a ?= b)%Q; split; congruence.
Qed.

Lemma Qgtb_false a b : Qgtb a b = false <-> (a <= b)%Q.
Proof.
  unfold Qgtb. rewrite Qle_alt. destruct (a ?= b)%Q; split; congruence.
Qed.

Lemma Qltb_true a b : Qltb a b = true <-> (a < b)%Q.
Proof.
  unfold Qltb. rewrite Qlt_alt. destruct (a ?= b)%Q; split; congruence.
Qed.

Lemma Qltb_false a b : Qltb a b = false <-> (b <= a)%Q.
Proof.
  unfold Qltb. rewrite Qle_alt, <- Qgt_alt, Qlt_alt.
  destruct (a ?= b)%Q eqn:E; split; try congruence.
Qed.

Lemma bind_Ok {A B} (m : res A) (f : A -> res B) (b : B) :
  m ≫= f = Ok b -> exists a, m = Ok a /\ f a = Ok b.
Proof. destruct m as [a|e]; [by exists a|done]. Qed.

Lemma bind_Raise {A B} (m : res A) (f : A -> res B) (e : exn) :
  m = Raise e -> m ≫= f = Raise e.
Proof. by intros ->. Qed.

Lemma enumerate_from_app {A} (n : nat) (l1 l2 : list A) :
  enumerate_from n (l1 ++ l2)
  = enumerate_from n l1 ++ enumerate_from (n + length l1) l2.
Proof.
  revert n. induction l1 as [|x l1 IH]; intros n; simpl.
  - by rewrite Nat.add_0_r.
  - rewrite IH. do 3 f_equal. lia.
Qed.

Lemma enumerate_from_lookup {A} (n : nat) (l : list A) (i : nat) :
  enumerate_from n l !! i = (fun x => ((n + i)%nat, x)) <$> l !! i.
Proof.
  revert n i. induction l as [|x l IH]; intros n [|i]; simpl; try done.
  - by rewrite Nat.add_0_r.
  - rewrite IH. destruct (l !! i); simpl; [|done]. do 2 f_equal. lia.
Qed.

Lemma enumerate_from_length {A} (n : nat) (l : list A) :
  length (enumerate_from n l) = length l.
Proof. revert n. induction l; intros; simpl; auto. Qed.

(** ** [_check_is_max_context] *)

(** The loop keeps the arg-max in every arithmetic whose [>] is a strict
    weak order on the scores it computes: [ordered] holds of the score of
    every span that contains the position. *)
Section MaxContextProofs.
Context {F : Type} `{PyFloat F}.
Variable ordered : F -> Prop.
Hypothesis fgt_irrefl : forall a : F, ordered a -> fgt a a = false.
Hypothesis fgt_trans :
  forall a b c : F, ordered a -> ordered b -> ordered c ->
    fgt a b = true -> fgt b c = true -> fgt a c = true.
Hypothesis fgt_neg_trans :
  forall a b c : F, ordered a -> ordered b -> ordered c ->
    fgt a b = false -> fgt b c = false -> fgt a c = false.
Hypothesis score_ordered :
  forall sp position, span_contains sp position = true ->
    ordered (span_score sp position).

Lemma fgt_asym (a b : F) :
  ordered a -> ordered b -> fgt a b = true -> fgt b a = false.
Proof.
  intros Ha Hb Hab. destruct (fgt b a) eqn:Hba; [|done].
  pose proof (fgt_trans _ _ _ Ha Hb Ha Hab Hba) as Haa.
  by rewrite fgt_irrefl in Haa.
Qed.

(** [a <= b] and [b < c] give [a < c]. *)
Lemma fgt_le_lt (a b c : F) :
  ordered a -> ordered b -> ordered c ->
  fgt a b = false -> fgt c b = true -> fgt c a = true.
Proof.
  intros Ha Hb Hc Hab Hcb. destruct (fgt c a) eqn:Hca; [done|].
  pose proof (fgt_neg_trans _ _ _ Hc Ha Hb Hca Hab). congruence.
Qed.

Lemma max_context_body_skip position (st : option F * option nat) k sp :
  span_contains sp position = false ->
  max_context_body position st (k, sp) = st.
Proof.
  unfold span_contains, max_context_body. intros Hc.
  destruct (position <? ds_start sp); [done|].
  destruct (position >? ds_start sp + ds_length sp - 1); [done|]. done.
Qed.

Lemma max_context_body_take position (st : option F * option nat) k sp :
  span_contains sp position = true ->
  max_context_body position st (k, sp) =
    match fst st with
    | None => (Some (span_score sp position), Some k)
    | Some best_score =>
        if fgt (span_score sp position) best_score
        then (Some (span_score sp position), Some k) else st
    end.
Proof.
  unfold span_contains, max_context_body. intros Hc.
  destruct (position <? ds_start sp); [done|].
  destruct (position >? ds_start sp + ds_length sp - 1); [done|]. done.
Qed.

Lemma max_context_inv_step pre position (st : option F * option nat) sp :
  max_context_inv pre position st ->
  max_context_inv (pre ++ [sp]) position
    (max_context_body position st (length pre, sp)).
Proof.
  intros Hinv.
  destruct (span_contains sp position) eqn:Hc.
  - rewrite max_context_body_take by done.
    pose proof (score_ordered _ _ Hc) as Hsp.
    destruct st as [[s|] [k|]]; simpl in *; try done.
    + destruct Hinv as [(sp0 & Hk & Hc0 & Hmax & Hfirst) (sp1 & Hk1 & ->)].
      assert (sp1 = sp0) as -> by congruence.
      pose proof (score_ordered _ _ Hc0) as Hsp0.
      destruct (fgt _ _) eqn:Hgt.
      * split.
        -- exists sp. split; [by rewrite lookup_app_r, Nat.sub_diag|].
           split; [done|]. split.
           ++ intros j sp' Hj Hcj.
              destruct (decide (j < length pre)%nat) as [Hlt|Hge].
              ** rewrite lookup_app_l in Hj by done.
                 pose proof (score_ordered _ _ Hcj) as Hsp'.
                 apply fgt_asym; [done|done|].
                 eapply (fgt_le_lt _ (span_score sp0 position)); eauto.
              ** rewrite lookup_app_r in Hj by lia.
                 destruct (j - length pre)%nat; simpl in Hj; [|done].
                 injection Hj as <-. by apply fgt_irrefl.
           ++ intros j sp' Hlt Hj Hcj. rewrite lookup_app_l in Hj by done.
              pose proof (score_ordered _ _ Hcj) as Hsp'.
              eapply (fgt_le_lt _ (span_score sp0 position)); eauto.
        -- exists sp. split; [by rewrite lookup_app_r, Nat.sub_diag|done].
      * assert (k < length pre)%nat by (by eapply lookup_lt_Some).
        split.
        -- exists sp0. split; [by rewrite lookup_app_l|]. split; [done|]. split.
           ++ intros j sp' Hj Hcj.
              destruct (decide (j < length pre)%nat) as [Hlt|Hge].
              ** rewrite lookup_app_l in Hj by done. eauto.
              ** rewrite lookup_app_r in Hj by lia.
                 destruct (j - length pre)%nat; simpl in Hj; [|done].
                 by injection Hj as <-.
           ++ intros j sp' Hlt Hj Hcj. rewrite lookup_app_l in Hj by lia. eauto.
        -- exists sp0. split; [by rewrite lookup_app_l|done].
    + split.
      * exists sp. split; [by rewrite lookup_app_r, Nat.sub_diag|].
        split; [done|]. split.
        -- intros j sp' Hj Hcj.
           destruct (decide (j < length pre)%nat) as [Hlt|Hge].
           ++ rewrite lookup_app_l in Hj by done.
              specialize (Hinv _ _ Hj). congruence.
           ++ rewrite lookup_app_r in Hj by lia.
              destruct (j - length pre)%nat; simpl in Hj; [|done].
              injection Hj as <-. by apply fgt_irrefl.
        -- intros j sp' Hlt Hj Hcj. rewrite lookup_app_l in Hj by done.
           specialize (Hinv _ _ Hj). congruence.
      * exists sp. split; [by rewrite lookup_app_r, Nat.sub_diag|done].
  - rewrite max_context_body_skip by done.
    destruct st as [[s|] [k|]]; simpl in *; try done.
    + destruct Hinv as [(sp0 & Hk & Hc0 & Hmax & Hfirst) (sp1 & Hk1 & ->)].
      assert (sp1 = sp0) as -> by congruence.
      assert (k < length pre)%nat by (by eapply lookup_lt_Some).
      split.
      * exists sp0. split; [by rewrite lookup_app_l|]. split; [done|]. split.
        -- intros j sp' Hj Hcj.
           destruct (decide (j < length pre)%nat) as [Hlt|Hge].
           ++ rewrite lookup_app_l in Hj by done. eauto.
           ++ rewrite lookup_app_r in Hj by lia.
              destruct (j - length pre)%nat; simpl in Hj; [|done].
              injection Hj as <-. congruence.
        -- intros j sp' Hlt Hj Hcj. rewrite lookup_app_l in Hj by lia. eauto.
      * exists sp0. split; [by rewrite lookup_app_l|done].
    + intros j sp' Hj.
      destruct (decide (j < length pre)%nat) as [Hlt|Hge].
      * rewrite lookup_app_l in Hj by done. eauto.
      * rewrite lookup_app_r in Hj by lia.
        destruct (j - length pre)%nat; simpl in Hj; [|done].
        by injection Hj as <-.
Qed.

Lemma max_context_inv_fold suf :
  forall pre position (st : option F * option nat),
    max_context_inv pre position st ->
    max_context_inv (pre ++ suf) position
      (fold_left (max_context_body position)
         (enumerate_from (length pre) suf) st).
Proof.
  induction suf as [|sp suf IH]; intros pre position st Hinv; simpl.
  - by rewrite app_nil_r.
  - replace (pre ++ sp :: suf) with ((pre ++ [sp]) ++ suf)
      by (by rewrite <- app_assoc).
    replace (S (length pre)) with (length (pre ++ [sp]))
      by (rewrite length_app; simpl; lia).
    apply IH. by apply max_context_inv_step.
Qed.

Lemma is_argmax_span_unique doc_spans i j position :
  is_argmax_span (F := F) doc_spans i position ->
  is_argmax_span (F := F) doc_spans j position -> i = j.
Proof.
  intros (si & Hi & Hci & Hmi & Hfi) (sj & Hj & Hcj & Hmj & Hfj).
  destruct (Nat.lt_trichotomy i j) as [Hlt|[->|Hlt]]; [|done|].
  - specialize (Hfj _ _ Hlt Hi Hci). specialize (Hmi _ _ Hj Hcj). congruence.
  - specialize (Hfi _ _ Hlt Hj Hcj). specialize (Hmj _ _ Hi Hci). congruence.
Qed.

Lemma check_is_max_context_iff doc_spans cur_span_index position :
  _check_is_max_context (F := F) doc_spans cur_span_index position = true
  <-> is_argmax_span (F := F) doc_spans cur_span_index position.
Proof.
  unfold _check_is_max_context, enumerate.
  pose proof (max_context_inv_fold doc_spans [] position (None, None)) as Hinv.
  simpl in Hinv.
  destruct (fold_left _ _ _) as [bs bi].
  rewrite bool_decide_eq_true.
  destruct bs as [s|], bi as [k|]; simpl in Hinv;
    try (exfalso; apply Hinv; intros [|?] ?; done).
  - destruct Hinv as [Harg _]; [intros [|?] ?; done|].
    split.
    + by intros [= ->].
    + intros Hcur. f_equal. eapply is_argmax_span_unique; eauto.
  - split; [done|].
    intros (sp & Hsp & Hc & _).
    rewrite (Hinv ltac:(intros [|?] ?; done) _ _ Hsp) in Hc. done.
Qed.
End MaxContextProofs.

(** *** Binary64 scores *)

(** Rounding a mantissa that is not negative gives no [nan] and keeps the
    sign. *)
Lemma iter_pos_inv {A} (P : A -> Prop) (f : A -> A) (n : positive) (x : A) :
  (forall y, P y -> P (f y)) -> P x -> P (SpecFloat.iter_pos f n x).
Proof.
  intros Hf. revert x. induction n as [n IH|n IH|]; intros x Hx; simpl; auto.
Qed.

Lemma shr_1_nonneg (mrs : shr_record) : 0 <= shr_m mrs -> 0 <= shr_m (shr_1 mrs).
Proof.
  destruct mrs as [m r s]. simpl. destruct m as [|[p|p|]|[p|p|]]; simpl; lia.
Qed.

Lemma shr_fexp_nonneg (prec emax m e : Z) (l : location) :
  0 <= m -> 0 <= shr_m (fst (shr_fexp prec emax m e l)).
Proof.
  intros Hm. unfold shr_fexp, shr.
  assert (0 <= shr_m (shr_record_of_loc m l)) as H0
    by (by destruct l as [|[]]).
  destruct (fexp prec emax (Zdigits2 m + e) - e) as [|p|p]; simpl; try done.
  apply (iter_pos_inv (fun mrs => 0 <= shr_m mrs)); [apply shr_1_nonneg|done].
Qed.

Lemma round_nearest_even_nonneg (mx : Z) (lx : location) :
  0 <= mx -> 0 <= round_nearest_even mx lx.
Proof.
  intros Hm. unfold round_nearest_even.
  destruct lx as [|[]]; try destruct (Z.even mx); lia.
Qed.

Lemma binary_round_aux_cases (prec emax : Z) (sx : bool) (mx ex : Z) (lx : location) :
  0 <= mx ->
  let r := binary_round_aux prec emax sx mx ex lx in
  r = S754_zero sx \/ r = S754_infinity sx \/ exists m e, r = S754_finite sx m e.
Proof.
  intros Hm. unfold binary_round_aux.
  pose proof (shr_fexp_nonneg prec emax mx ex lx Hm) as H1.
  destruct (shr_fexp prec emax mx ex lx) as [mrs' e']. simpl in H1.
  pose proof (shr_fexp_nonneg prec emax
                (round_nearest_even (shr_m mrs') (loc_of_shr_record mrs')) e'
                loc_Exact (round_nearest_even_nonneg _ _ H1)) as H2.
  destruct (shr_fexp prec emax _ e' loc_Exact) as [mrs'' e'']. simpl in H2.
  destruct (shr_m mrs'') as [|m|m]; [by left| |lia].
  destruct (e'' <=? emax - prec); [right; right; by eexists _, _|right; by left].
Qed.

Lemma binary_round_aux_nonneg (prec emax : Z) (mx ex : Z) (lx : location) :
  0 <= mx -> SF_nonneg (binary_round_aux prec emax false mx ex lx) = true.
Proof.
  intros Hm.
  destruct (binary_round_aux_cases prec emax false mx ex lx Hm)
    as [->|[->|(m & e & ->)]]; done.
Qed.

Lemma binary_round_nonneg (prec emax : Z) (m : positive) (e : Z) :
  SF_nonneg (binary_round prec emax false m e) = true.
Proof.
  unfold binary_round.
  destruct (shl_align m e _) as [mz ez]. by apply binary_round_aux_nonneg.
Qed.

Lemma binary_normalize_nonneg (prec emax : Z) (m e : Z) :
  0 <= m -> SF_nonneg (binary_normalize prec emax m e false) = true.
Proof.
  intros Hm. destruct m as [|p|p]; [done| |lia]. apply binary_round_nonneg.
Qed.

Lemma SFmul_nonneg (prec emax : Z) (x y : spec_float) :
  SF_finite_nonzero x = true -> SF_nonneg x = true -> SF_nonneg y = true ->
  SF_nonneg (SFmul prec emax x y) = true.
Proof.
  destruct x as [| | |sx mx ex]; try done.
  destruct y as [sy|sy| |sy my ey]; try done; simpl; intros _ Hx Hy.
  - by destruct sx, sy.
  - destruct sx; [done|]. destruct sy; [done|].
    by apply binary_round_aux_nonneg.
Qed.

Lemma SFadd_nonneg (prec emax : Z) (x y : spec_float) :
  SF_nonneg x = true -> SF_nonneg y = true ->
  SF_nonneg (SFadd prec emax x y) = true.
Proof.
  destruct x as [sx|sx| |sx mx ex], y as [sy|sy| |sy my ey]; try done; simpl;
    intros Hx Hy.
  - by destruct sx, sy.
  - by destruct sx, sy.
  - destruct sx; [done|]. destruct sy; [done|]. apply binary_round_nonneg.
Qed.

(** The score of a span that contains the position is a number that is
    not negative. *)
Lemma span_score_nonneg (sp : DocSpan) (position : Z) :
  span_contains sp position = true ->
  SF_nonneg (span_score (F := spec_float) sp position) = true.
Proof.
  unfold span_contains, span_score. intros Hc.
  apply andb_true_iff in Hc as [H1 H2].
  apply negb_true_iff in H1, H2.
  apply Z.ltb_ge in H1. rewrite Z.gtb_ltb in H2. apply Z.ltb_ge in H2.
  cbv [fadd fmul of_int f_0_01 binary64_float]. apply SFadd_nonneg.
  - apply binary_normalize_nonneg. lia.
  - apply SFmul_nonneg; [done|done|]. apply binary_normalize_nonneg. lia.
Qed.

(** [>] on the numbers that are not negative. *)
Lemma SFcompare_nonneg_refl (a : spec_float) :
  SF_nonneg a = true -> SFcompare a a = Some Eq.
Proof.
  destruct a as [s|s| |s m e]; try done; simpl; intros Ha.
  - by destruct s.
  - destruct s; [done|]. rewrite Z.compare_refl.
    change (Pos.compare_cont Eq m m) with (m ?= m)%positive.
    by rewrite Pos.compare_refl.
Qed.

Lemma SFltb_rank (a b : spec_float) :
  SF_nonneg a = true -> SF_nonneg b = true ->
  SFltb a b = true <-> rank_lt (SF_rank a) (SF_rank b).
Proof.
  unfold SFltb, rank_lt.
  destruct a as [sa|sa| |sa ma ea], b as [sb|sb| |sb mb eb]; try done; simpl;
    intros Ha Hb;
    try (destruct sa; [done|]); try (destruct sb; [done|]); simpl;
    try (split; [done|lia]); try (split; [lia|done]).
  change (Pos.compare_cont Eq ma mb) with (ma ?= mb)%positive.
  destruct (Z.compare_spec ea eb) as [->|Hlt|Hgt].
  - destruct (Pos.compare_spec ma mb) as [->|Hm|Hm]; split; try done; lia.
  - split; [lia|done].
  - split; [done|lia].
Qed.

Lemma SFltb_rank_false (a b : spec_float) :
  SF_nonneg a = true -> SF_nonneg b = true ->
  SFltb a b = false <-> ~ rank_lt (SF_rank a) (SF_rank b).
Proof.
  intros Ha Hb. rewrite <- (SFltb_rank a b Ha Hb).
  destruct (SFltb a b); split; try done; by intros [].
Qed.

Lemma binary64_gt_irrefl (a : spec_float) :
  SF_nonneg a = true -> fgt a a = false.
Proof.
  intros Ha. simpl. apply SFltb_rank_false; [done..|]. unfold rank_lt. lia.
Qed.

Lemma binary64_gt_trans (a b c : spec_float) :
  SF_nonneg a = true -> SF_nonneg b = true -> SF_nonneg c = true ->
  fgt a b = true -> fgt b c = true -> fgt a c = true.
Proof.
  simpl. intros Ha Hb Hc Hab Hbc.
  apply SFltb_rank in Hab, Hbc; try done. apply SFltb_rank; try done.
  unfold rank_lt in *. lia.
Qed.

Lemma binary64_gt_neg_trans (a b c : spec_float) :
  SF_nonneg a = true -> SF_nonneg b = true -> SF_nonneg c = true ->
  fgt a b = false -> fgt b c = false -> fgt a c = false.
Proof.
  simpl. intros Ha Hb Hc Hab Hbc.
  apply SFltb_rank_false in Hab, Hbc; try done. apply SFltb_rank_false; try done.
  unfold rank_lt in *. lia.
Qed.

(** C4: in the binary64 arithmetic of the code, [_check_is_max_context]
    answers true exactly for the span that is the arg-max of the score
    [min(left, right) + 0.01 * length], as the code computes it, over the
    spans that contain [position], the earliest one among equal scores;
    the lengths of these spans are integers that Python converts to a
    float (for a larger one it raises [OverflowError]). For the windows
    A = [0,6), B = [4,9), C = [7,12) the token at position 8 selects C and
    neither B nor A. *)
Theorem check_is_max_context_argmax
    (doc_spans : list DocSpan) (cur_span_index : nat) (position : Z) :
  (forall sp, sp ∈ doc_spans -> span_contains sp position = true ->
     float_of_int_defined (ds_length sp)) ->
  (_check_is_max_context (F := spec_float) doc_spans cur_span_index position = true
   <-> is_argmax_span (F := spec_float) doc_spans cur_span_index position) /\
  (_check_is_max_context (F := spec_float) sample_doc_spans 2 8 = true /\
   _check_is_max_context (F := spec_float) sample_doc_spans 1 8 = false /\
   _check_is_max_context (F := spec_float) sample_doc_spans 0 8 = false).
Proof.
  intros _. split; [|by vm_compute].
  apply (check_is_max_context_iff (fun a => SF_nonneg a = true)).
  - apply binary64_gt_irrefl.
  - apply binary64_gt_trans.
  - apply binary64_gt_neg_trans.
  - apply span_score_nonneg.
Qed.

Lemma check_is_max_context_argmax_witness :
  _check_is_max_context (F := spec_float) sample_doc_spans 2 8 = true
  <-> is_argmax_span (F := spec_float) sample_doc_spans 2 8.
Proof.
  apply (check_is_max_context_argmax sample_doc_spans 2 8).
  intros sp Hsp _. unfold float_of_int_defined.
  repeat (apply elem_of_cons in Hsp as [->|Hsp]; [by vm_compute|]).
  by apply elem_of_nil in Hsp.
Defined.

(** The literal [0.01] is the binary64 number that Rocq's own binary64
    numbers read it as. *)
Example binary64_0_01 : f_0_01 = Prim2SF 0x1.47ae147ae147bp-7%float.
Proof. by vm_compute. Qed.

(** Rounding decides between scores that are equal as real numbers: the
    spans [0, 7) and [1, 108) both have the score 2.07 at position 2; as
    the code computes them the second score is the larger one, and the
    second span is the arg-max. *)
Example check_is_max_context_rounding :
  let spans := [ {| ds_start := 0; ds_length := 7 |};
                 {| ds_start := 1; ds_length := 107 |} ] in
  (inject_Z 2 + (1 # 100) * inject_Z 7 == inject_Z 1 + (1 # 100) * inject_Z 107)%Q /\
  _check_is_max_context (F := spec_float) spans 0 2 = false /\
  _check_is_max_context (F := spec_float) spans 1 2 = true.
Proof. by vm_compute. Qed.

(** ** Loops that return from inside *)

Lemma first_some_map {A B C} (body : B -> option C) (g : A -> B) (l : list A) :
  first_some body (map g l) = first_some (fun x => body (g x)) l.
Proof. induction l as [|x l IH]; simpl; [done|]. by rewrite IH. Qed.

Lemma first_some_seq_Some {B} (h : nat -> option B) (n s : nat) (r : B) :
  first_some h (seq s n) = Some r ->
  exists k, (s <= k < s + n)%nat /\ h k = Some r /\
            forall k', (s <= k' < k)%nat -> h k' = None.
Proof.
  revert s. induction n as [|n IH]; intros s; simpl; [done|].
  destruct (h s) eqn:Hs.
  - intros [= ->]. exists s. repeat split; [lia..|done|intros; lia].
  - intros Hr. destruct (IH _ Hr) as (k & Hk & Hhk & Hbefore).
    exists k. repeat split; [lia..|done|].
    intros k' Hk'. destruct (decide (k' = s)) as [->|]; [done|].
    apply Hbefore. lia.
Qed.

Lemma first_some_seq_None {B} (h : nat -> option B) (n s : nat) :
  first_some h (seq s n) = None ->
  forall k, (s <= k < s + n)%nat -> h k = None.
Proof.
  revert s. induction n as [|n IH]; intros s; simpl; [intros; lia|].
  destruct (h s) eqn:Hs; [done|].
  intros Hr k Hk. destruct (decide (k = s)) as [->|]; [done|].
  apply (IH _ Hr). lia.
Qed.

(** ** [_improve_answer_span] *)

Section ImproveAnswerSpanProofs.
Variable tokenize : string -> list string.
Variable doc_tokens : list string.
Variable orig_answer_text : string.

Local Abbreviation inner :=
  (match_span doc_tokens (join " " (tokenize orig_answer_text))).

Lemma inner_Some s e r :
  inner s e = Some r ->
  r = (s, e) /\ span_matches tokenize doc_tokens orig_answer_text s e.
Proof.
  unfold match_span, span_matches. destruct (String.eqb _ _) eqn:E; [|done].
  apply String.eqb_eq in E. by intros [= <-].
Qed.

Lemma inner_None s e :
  inner s e = None -> ~ span_matches tokenize doc_tokens orig_answer_text s e.
Proof.
  unfold match_span, span_matches. destruct (String.eqb _ _) eqn:E; [done|].
  apply String.eqb_neq in E. done.
Qed.

(** The inner loop at [new_start] finds the longest match. *)
Lemma inner_loop_Some input_end s r :
  first_some (inner s) (range_down input_end (s - 1)) = Some r ->
  exists e, r = (s, e) /\ s <= e <= input_end /\
    span_matches tokenize doc_tokens orig_answer_text s e /\
    forall e', e < e' <= input_end ->
      ~ span_matches tokenize doc_tokens orig_answer_text s e'.
Proof.
  unfold range_down. rewrite first_some_map. intros H.
  apply first_some_seq_Some in H as (k & Hk & Hhk & Hbefore).
  apply inner_Some in Hhk as [-> Hm].
  exists (input_end - Z.of_nat k). repeat split; [lia..|done|].
  intros e' He'. specialize (Hbefore (Z.to_nat (input_end - e')) ltac:(lia)).
  apply inner_None in Hbefore.
  by replace (input_end - Z.of_nat (Z.to_nat (input_end - e'))) with e'
    in Hbefore by lia.
Qed.

Lemma inner_loop_None input_end s :
  first_some (inner s) (range_down input_end (s - 1)) = None ->
  forall e, s <= e <= input_end ->
    ~ span_matches tokenize doc_tokens orig_answer_text s e.
Proof.
  unfold range_down. rewrite first_some_map. intros H e He.
  pose proof (first_some_seq_None _ _ _ H (Z.to_nat (input_end - e))
                ltac:(lia)) as Hn.
  apply inner_None in Hn.
  by replace (input_end - Z.of_nat (Z.to_nat (input_end - e))) with e
    in Hn by lia.
Qed.

Lemma improve_answer_span_cases input_start input_end :
  let r := _improve_answer_span tokenize doc_tokens input_start input_end
             orig_answer_text in
  (input_start <= fst r /\ fst r <= snd r /\ snd r <= input_end /\
   span_matches tokenize doc_tokens orig_answer_text (fst r) (snd r) /\
   (forall s e, input_start <= s -> s <= e -> e <= input_end ->
      span_matches tokenize doc_tokens orig_answer_text s e -> fst r <= s) /\
   (forall e, fst r <= e -> e <= input_end ->
      span_matches tokenize doc_tokens orig_answer_text (fst r) e ->
      e <= snd r))
  \/
  ((forall s e, input_start <= s -> s <= e -> e <= input_end ->
      ~ span_matches tokenize doc_tokens orig_answer_text s e) /\
   r = (input_start, input_end)).
Proof.
  intros r.
  assert (r = match first_some
                      (fun new_start => first_some (inner new_start)
                         (range_down input_end (new_start - 1)))
                      (range input_start (input_end + 1))
              with Some r => r | None => (input_start, input_end) end)
    as Hr by reflexivity.
  clearbody r. unfold range in Hr. rewrite first_some_map in Hr.
  destruct (first_some _ (seq _ _)) as [r'|] eqn:Hout; subst r; simpl.
  - left. apply first_some_seq_Some in Hout as (k & Hk & Hhk & Hbefore).
    apply inner_loop_Some in Hhk as (e & -> & He & Hm & Hlong). simpl.
    repeat split; [lia..|done| |].
    + intros s e' Hs Hse He' Hm'.
      destruct (decide (input_start + Z.of_nat k <= s)) as [|Hlt]; [done|].
      specialize (Hbefore (Z.to_nat (s - input_start)) ltac:(lia)).
      replace (input_start + Z.of_nat (Z.to_nat (s - input_start))) with s
        in Hbefore by lia.
      exfalso. eapply inner_loop_None; eauto.
    + intros e' He1 He2 Hm'.
      destruct (decide (e' <= e)) as [|Hgt]; [done|].
      exfalso. apply (Hlong e'); [lia|done].
  - right. split; [|done]. intros s e Hs Hse He.
    pose proof (first_some_seq_None _ _ _ Hout (Z.to_nat (s - input_start))
                  ltac:(lia)) as Hn.
    cbv beta in Hn.
    replace (input_start + Z.of_nat (Z.to_nat (s - input_start))) with s
      in Hn by lia.
    eapply inner_loop_None; eauto.
Qed.
End ImproveAnswerSpanProofs.

(** C5: within [input_start..input_end], [_improve_answer_span] returns the
    sub-span whose tokens, joined by a space, spell the tokenized gold
    answer, with the leftmost start and for that start the longest end, and
    it returns the input span when no sub-span matches; on the tokens
    "(", "1895", "-", "1943", ")", "." with the span 0..5 and the gold text
    "1895" (a single token for the tokenizer) the result is (1, 1). *)
Theorem improve_answer_span_spec (tokenize : string -> list string)
    (doc_tokens : list string) (input_start input_end : Z)
    (orig_answer_text : string) :
  input_start <= input_end ->
  tokenize "1895" = ["1895"] ->
  let r := _improve_answer_span tokenize doc_tokens input_start input_end
             orig_answer_text in
  ((input_start <= fst r /\ fst r <= snd r /\ snd r <= input_end /\
    span_matches tokenize doc_tokens orig_answer_text (fst r) (snd r) /\
    (forall s e, input_start <= s -> s <= e -> e <= input_end ->
       span_matches tokenize doc_tokens orig_answer_text s e -> fst r <= s) /\
    (forall e, fst r <= e -> e <= input_end ->
       span_matches tokenize doc_tokens orig_answer_text (fst r) e ->
       e <= snd r))
   \/
   ((forall s e, input_start <= s -> s <= e -> e <= input_end ->
       ~ span_matches tokenize doc_tokens orig_answer_text s e) /\
    r = (input_start, input_end)))
  /\
  _improve_answer_span tokenize ["("; "1895"; "-"; "1943"; ")"; "."] 0 5 "1895"
    = (1, 1).
Proof.
  intros _ Htok. split.
  - apply improve_answer_span_cases.
  - unfold _improve_answer_span. rewrite Htok. by vm_compute.
Qed.

Lemma improve_answer_span_spec_witness :
  0 <= 5 /\
  punctuation_tokenize true "1895" = ["1895"] /\
  _improve_answer_span (punctuation_tokenize true)
    ["("; "1895"; "-"; "1943"; ")"; "."] 0 5 "1895" = (1, 1).
Proof.
  split; [lia|]. split; [reflexivity|].
  apply (improve_answer_span_spec (punctuation_tokenize true)
           ["("; "1895"; "-"; "1943"; ")"; "."] 0 5 "1895");
    [lia|reflexivity].
Defined.

(** ** [str.find] *)

Lemma append_String (c : ascii) (s t : string) :
  (String c s ++ t)%string = String c (s ++ t)%string.
Proof. reflexivity. Qed.

Lemma append_Empty (t : string) : (EmptyString ++ t)%string = t.
Proof. reflexivity. Qed.

Lemma prefix_true_iff (sub s : string) :
  String.prefix sub s = true <-> exists post, s = (sub ++ post)%string.
Proof.
  revert s. induction sub as [|c sub IH]; intros [|d s]; simpl.
  - split; [intros _; by exists EmptyString|done].
  - split; [intros _; by exists (String d s)|done].
  - split; [done|]. by intros [post ?].
  - destruct (Ascii.ascii_dec c d) as [->|Hne].
    + rewrite IH. split; intros [post Hp]; exists post;
        rewrite append_String in *; congruence.
    + split; [done|]. intros [post Hp]. rewrite append_String in Hp. congruence.
Qed.

Lemma find_at_unfold (i : nat) (s sub : string) :
  find_at i s sub =
    if String.prefix sub s then Some i
    else match s with
         | EmptyString => None
         | String _ s' => find_at (S i) s' sub
         end.
Proof. by destruct s. Qed.

Lemma find_at_None (i : nat) (s sub : string) :
  find_at i s sub = None <-> ~ occurs_in sub s.
Proof.
  revert i. induction s as [|c s IH]; intros i; rewrite find_at_unfold.
  - destruct (String.prefix sub EmptyString) eqn:Hp.
    + split; [done|]. intros Hno. exfalso. apply Hno.
      apply prefix_true_iff in Hp as [post Hp]. by exists EmptyString, post.
    + split; [|done]. intros _ (pre & post & Heq).
      destruct pre; [|done]. rewrite append_Empty in Heq.
      assert (String.prefix sub EmptyString = true); [|congruence].
      apply prefix_true_iff. eauto.
  - destruct (String.prefix sub (String c s)) eqn:Hp.
    + split; [done|]. intros Hno. exfalso. apply Hno.
      apply prefix_true_iff in Hp as [post Hp]. by exists EmptyString, post.
    + rewrite IH. split.
      * intros Hno (pre & post & Heq).
        destruct pre as [|d pre];
          [rewrite append_Empty in Heq|rewrite append_String in Heq].
        -- assert (String.prefix sub (String c s) = true); [|congruence].
           apply prefix_true_iff. eauto.
        -- apply Hno. exists pre, post. congruence.
      * intros Hno (pre & post & Heq). apply Hno.
        exists (String c pre), post. rewrite append_String. congruence.
Qed.

Lemma find_not_found (s sub : string) :
  find s sub = -1 <-> ~ occurs_in sub s.
Proof.
  unfold find. rewrite <- (find_at_None 0).
  destruct (find_at 0 s sub); split; try done. lia.
Qed.

(** ** [get_final_text] and [nq_get_final_text] *)

Section FinalTextProofs.
Variable basic_tokenize : bool -> string -> list string.
Variables pred_text orig_text : string.
Variables do_lower_case verbose_logging : bool.

Local Abbreviation tok_text := (retokenized basic_tokenize orig_text do_lower_case).
Local Abbreviation fallback :=
  (falls_back basic_tokenize pred_text orig_text do_lower_case verbose_logging).

Lemma fallback_not_found :
  find tok_text pred_text = -1 -> fallback.
Proof.
  intros H. unfold falls_back, get_final_text, nq_get_final_text.
  unfold retokenized in H. by rewrite H.
Qed.

Lemma fallback_length :
  len (fst (_strip_spaces orig_text)) <> len (fst (_strip_spaces tok_text)) ->
  fallback.
Proof.
  intros H. unfold falls_back, get_final_text, nq_get_final_text.
  unfold retokenized in H.
  destruct (_ =? -1); [done|].
  destruct (_strip_spaces orig_text) as [ons om].
  destruct (_strip_spaces (join " " _)) as [tns tm]. simpl in H.
  apply Z.eqb_neq in H. by rewrite H.
Qed.

Lemma fallback_start :
  projected basic_tokenize
    (start_of basic_tokenize pred_text orig_text do_lower_case)
    orig_text do_lower_case = None ->
  fallback.
Proof.
  intros H. unfold falls_back, get_final_text, nq_get_final_text.
  unfold projected, start_of, retokenized in H.
  destruct (_ =? -1); [done|].
  destruct (_strip_spaces orig_text) as [ons om].
  destruct (_strip_spaces (join " " _)) as [tns tm]. simpl in H.
  destruct (negb _); [done|]. by rewrite H.
Qed.

Lemma fallback_end :
  projected basic_tokenize
    (end_of basic_tokenize pred_text orig_text do_lower_case)
    orig_text do_lower_case = None ->
  fallback.
Proof.
  intros H. unfold falls_back, get_final_text, nq_get_final_text.
  unfold projected, end_of, start_of, retokenized in H.
  destruct (_ =? -1); [done|].
  destruct (_strip_spaces orig_text) as [ons om].
  destruct (_strip_spaces (join " " _)) as [tns tm]. simpl in H.
  destruct (negb _); [done|]. rewrite H.
  by destruct (project_position _ _ (find _ _)).
Qed.
End FinalTextProofs.

(** C6: when [pred_text] does not occur in the re-tokenized [orig_text],
    [get_final_text] returns [(0, len(orig_text))] and [nq_get_final_text]
    returns [orig_text]; both return the same fallbacks when the lengths
    without spaces differ and when the start or the end position stays
    unmapped. Neither function has a path that raises. *)
Theorem final_text_fallbacks (basic_tokenize : bool -> string -> list string)
    (pred_text orig_text : string) (do_lower_case verbose_logging : bool) :
  let tok_text := retokenized basic_tokenize orig_text do_lower_case in
  let fallback :=
    falls_back basic_tokenize pred_text orig_text do_lower_case verbose_logging in
  (~ occurs_in pred_text tok_text -> fallback) /\
  (len (fst (_strip_spaces orig_text)) <> len (fst (_strip_spaces tok_text)) ->
   fallback) /\
  (projected basic_tokenize
     (start_of basic_tokenize pred_text orig_text do_lower_case)
     orig_text do_lower_case = None -> fallback) /\
  (projected basic_tokenize
     (end_of basic_tokenize pred_text orig_text do_lower_case)
     orig_text do_lower_case = None -> fallback).
Proof.
  intros tok_text fallback. split; [|split; [|split]]; intros H.
  - apply fallback_not_found. by apply find_not_found.
  - by apply fallback_length.
  - by apply fallback_start.
  - by apply fallback_end.
Qed.

Lemma final_text_fallbacks_witness :
  (~ occurs_in "zzz" (retokenized punctuation_tokenize "Steve Smith's" true) /\
   falls_back punctuation_tokenize "zzz" "Steve Smith's" true false) /\
  (len (fst (_strip_spaces (String "a" (String "007" "b")))) <>
   len (fst (_strip_spaces
               (retokenized punctuation_tokenize
                  (String "a" (String "007" "b")) true))) /\
   falls_back punctuation_tokenize "a" (String "a" (String "007" "b"))
     true false) /\
  (projected punctuation_tokenize
     (start_of punctuation_tokenize " smith" "steve smith" true)
     "steve smith" true = None /\
   falls_back punctuation_tokenize " smith" "steve smith" true false) /\
  (projected punctuation_tokenize
     (end_of punctuation_tokenize "steve " "steve smith" true)
     "steve smith" true = None /\
   falls_back punctuation_tokenize "steve " "steve smith" true false).
Proof.
  assert (~ occurs_in "zzz"
            (retokenized punctuation_tokenize "Steve Smith's" true)) as H1
    by (apply find_not_found; reflexivity).
  assert (len (fst (_strip_spaces (String "a" (String "007" "b")))) <>
          len (fst (_strip_spaces
                      (retokenized punctuation_tokenize
                         (String "a" (String "007" "b")) true)))) as H2
    by (vm_compute; discriminate).
  assert (projected punctuation_tokenize
            (start_of punctuation_tokenize " smith" "steve smith" true)
            "steve smith" true = None) as H3 by reflexivity.
  assert (projected punctuation_tokenize
            (end_of punctuation_tokenize "steve " "steve smith" true)
            "steve smith" true = None) as H4 by reflexivity.
  split; [split; [exact H1|]|split; [split; [exact H2|]|split; split]];
    [ | | exact H3 | | exact H4 | ].
  - exact (proj1 (final_text_fallbacks punctuation_tokenize
                    "zzz" "Steve Smith's" true false) H1).
  - exact (proj1 (proj2 (final_text_fallbacks punctuation_tokenize
                    "a" (String "a" (String "007" "b")) true false)) H2).
  - exact (proj1 (proj2 (proj2 (final_text_fallbacks punctuation_tokenize
                    " smith" "steve smith" true false))) H3).
  - exact (proj2 (proj2 (proj2 (final_text_fallbacks punctuation_tokenize
                    "steve " "steve smith" true false))) H4).
Defined.

(** ** Quantization *)

Lemma np_round_near (x : Q) :
  (inject_Z (np_round x) - x <= 1 # 2)%Q /\ (x - inject_Z (np_round x) <= 1 # 2)%Q.
Proof.
  unfold np_round.
  pose proof (Qfloor_le x) as Hlo. pose proof (Qlt_floor x) as Hhi.
  rewrite inject_Z_plus in Hhi. change (inject_Z 1) with 1%Q in Hhi.
  destruct (x - inject_Z (Qfloor x) ?= 1 # 2)%Q eqn:E.
  - apply Qeq_alt in E.
    destruct (Z.even _);
      [|rewrite inject_Z_plus; change (inject_Z 1) with 1%Q]; lra.
  - apply Qlt_alt in E. lra.
  - apply Qgt_alt in E. rewrite inject_Z_plus.
    change (inject_Z 1) with 1%Q. lra.
Qed.

Lemma np_round_range (x : Q) (lo hi : Z) :
  (inject_Z lo <= x)%Q -> (x <= inject_Z hi)%Q -> lo <= np_round x <= hi.
Proof.
  intros Hlo Hhi. unfold np_round.
  pose proof (Qfloor_le x) as Hfl. pose proof (Qlt_floor x) as Hfh.
  assert (lo <= Qfloor x) as H1.
  { rewrite <- (Qfloor_Z lo). by apply Qfloor_resp_le. }
  assert (Qfloor x <= hi) as H2.
  { rewrite <- (Qfloor_Z hi). by apply Qfloor_resp_le. }
  assert ((inject_Z (Qfloor x) < x)%Q -> Qfloor x + 1 <= hi) as H3.
  { intros Hlt. assert (Qfloor x < hi); [|lia].
    rewrite Zlt_Qlt. lra. }
  destruct (x - inject_Z (Qfloor x) ?= 1 # 2)%Q eqn:E.
  - apply Qeq_alt in E. destruct (Z.even _); [lia|].
    split; [lia|]. apply H3. lra.
  - lia.
  - apply Qgt_alt in E. split; [lia|]. apply H3. lra.
Qed.

Lemma astype_int8_id (z : Z) : -128 <= z <= 127 -> astype_int8 z = z.
Proof. intros H. unfold astype_int8. rewrite Z.mod_small; lia. Qed.

(** The numbers of the example, as Rocq's own binary64 numbers read
    1000000.017, 1000000 and 30. *)
Example sample_fp_numbers :
  sample_fp_value = Prim2SF 0x1.e848008b43958p+19%float /\
  sample_fp_offset = Prim2SF 1000000%float /\
  sample_fp_factor = Prim2SF 30%float /\
  (SF2Q sample_fp_offset == 1000000 # 1)%Q /\ (SF2Q sample_fp_factor == 30 # 1)%Q /\
  (Qabs (SF2Q sample_fp_value - (1000000017 # 1000)) < 1 # 1000000000)%Q.
Proof. by vm_compute. Qed.




(** ** [filter_metadata] *)

Lemma mapM_res_Ok {A B} (f : A -> res B) (l : list A) (l' : list B) :
  mapM_res f l = Ok l' ->
  length l' = length l /\
  forall i y, l' !! i = Some y -> exists x, l !! i = Some x /\ f x = Ok y.
Proof.
  revert l'. induction l as [|x l IH]; intros l'; simpl.
  - intros [= <-]. split; [done|]. intros i y. by rewrite lookup_nil.
  - destruct (f x) as [y|] eqn:Hx; simpl; [|done].
    destruct (mapM_res f l) as [ys|] eqn:Hl; simpl; [|done].
    intros [= <-]. destruct (IH _ eq_refl) as [Hlen Hlook]. split.
    + simpl. by rewrite Hlen.
    + intros [|i] y'; simpl.
      * intros [= <-]. eauto.
      * apply Hlook.
Qed.

Lemma take_rows_Ok {A} (a : list A) (idxs : list nat) (rows : list A) :
  take_rows a idxs = Ok rows ->
  length rows = length idxs /\
  forall i row, rows !! i = Some row ->
    exists oi, idxs !! i = Some oi /\ a !! oi = Some row.
Proof.
  intros H. apply mapM_res_Ok in H as [Hlen Hlook]. split; [done|].
  intros i row Hi. destruct (Hlook _ _ Hi) as (oi & Hoi & Hget).
  exists oi. split; [done|]. by destruct (a !! oi); simplify_eq/=.
Qed.

(** The cells of a row are remapped one by one. *)
Lemma remap_row_loop (d : gmap Z Z) (i : nat) (suf : list Z) :
  forall (pre : list Z) (table : list (list Z)),
    table !! i = Some (pre ++ suf) ->
    fold_left (fun (table : list (list Z)) (jt : nat * Z) =>
                 let '(j, long) := jt in
                 match table !! i with
                 | Some row => <[i := <[j := remap_value d long]> row]> table
                 | None => table
                 end)
              (enumerate_from (length pre) suf) table
    = <[i := pre ++ map (remap_value d) suf]> table.
Proof.
  induction suf as [|x suf IH]; intros pre table Hrow; simpl.
  - by rewrite list_insert_id.
  - rewrite Hrow.
    assert (<[length pre := remap_value d x]> (pre ++ x :: suf)
            = (pre ++ [remap_value d x]) ++ suf) as Hins.
    { rewrite insert_app_r_alt by lia. rewrite Nat.sub_diag. simpl.
      by rewrite <- app_assoc. }
    rewrite Hins.
    replace (S (length pre)) with (length (pre ++ [remap_value d x]))
      by (rewrite length_app; simpl; lia).
    rewrite IH.
    + rewrite list_insert_insert_eq. by rewrite <- app_assoc.
    + apply list_lookup_insert_eq. by eapply lookup_lt_Some.
Qed.

Lemma remap_rows_loop (d : gmap Z Z) (suf : list (list Z)) :
  forall pre : list (list Z),
    fold_left (fun (table : list (list Z)) (i : nat) =>
                 match table !! i with
                 | None => table
                 | Some each =>
                     fold_left (fun (table : list (list Z)) (jt : nat * Z) =>
                                  let '(j, long) := jt in
                                  match table !! i with
                                  | Some row =>
                                      <[i := <[j := remap_value d long]> row]> table
                                  | None => table
                                  end)
                               (enumerate each) table
                 end)
              (seq (length pre) (length suf)) (pre ++ suf)
    = pre ++ map (map (remap_value d)) suf.
Proof.
  induction suf as [|each suf IH]; intros pre; simpl; [done|].
  rewrite lookup_app_r, Nat.sub_diag by lia. simpl.
  unfold enumerate.
  pose proof (remap_row_loop d (length pre) each [] (pre ++ each :: suf)) as H.
  cbn [length app] in H. rewrite H
    by (by rewrite lookup_app_r, Nat.sub_diag by lia).
  clear H. rewrite insert_app_r_alt, Nat.sub_diag by lia. simpl.
  replace (pre ++ map (remap_value d) each :: suf)
    with ((pre ++ [map (remap_value d) each]) ++ suf)
    by (by rewrite <- app_assoc).
  replace (S (length pre)) with (length (pre ++ [map (remap_value d) each]))
    by (rewrite length_app; simpl; lia).
  rewrite IH. by rewrite <- app_assoc.
Qed.

Lemma remap_start2end_map (d : gmap Z Z) (start2end : list (list Z)) :
  remap_start2end d start2end = map (map (remap_value d)) start2end.
Proof. apply (remap_rows_loop d start2end []). Qed.

(** [np.where] from position [n] on. *)
Lemma where_from_lookup (th : Q) (a : list Q) : forall (n k i : nat),
  map fst (List.filter (fun it : nat * Q => Qgtb (snd it) th) (enumerate_from n a))
    !! k = Some i ->
  (n <= i)%nat /\ exists x, a !! (i - n)%nat = Some x /\ (th < x)%Q.
Proof.
  induction a as [|x a IH]; intros n k i; simpl; [by rewrite lookup_nil|].
  destruct (Qgtb x th) eqn:Hx; simpl.
  - destruct k as [|k]; simpl.
    + intros [= <-]. split; [lia|]. exists x. rewrite Nat.sub_diag.
      split; [done|]. by apply Qgtb_true.
    + intros H. apply IH in H as (Hle & y & Hy & Hlt). split; [lia|].
      exists y. split; [|done].
      replace (i - n)%nat with (S (i - S n)) by lia. done.
  - intros H. apply IH in H as (Hle & y & Hy & Hlt). split; [lia|].
    exists y. split; [|done].
    replace (i - n)%nat with (S (i - S n)) by lia. done.
Qed.

Lemma where_from_NoDup (th : Q) (a : list Q) : forall n : nat,
  NoDup (map fst (List.filter (fun it : nat * Q => Qgtb (snd it) th)
                    (enumerate_from n a))).
Proof.
  induction a as [|x a IH]; intros n; simpl; [constructor|].
  destruct (Qgtb x th); simpl; [|apply IH].
  constructor; [|apply IH].
  intros Hin. apply list_elem_of_lookup in Hin as [k Hk].
  apply where_from_lookup in Hk as [Hle _]. lia.
Qed.

Lemma np_where_gt_lookup (a : list Q) (th : Q) (k i : nat) :
  np_where_gt a th !! k = Some i -> exists x, a !! i = Some x /\ (th < x)%Q.
Proof.
  intros H. apply where_from_lookup in H as (_ & x & Hx & Hlt).
  rewrite Nat.sub_0_r in Hx. eauto.
Qed.

Lemma np_where_gt_NoDup (a : list Q) (th : Q) : NoDup (np_where_gt a th).
Proof. apply where_from_NoDup. Qed.

Lemma np_where_gt_position (a : list Q) (th : Q) (i : nat) (x : Q) :
  a !! i = Some x -> (th < x)%Q ->
  np_where_gt a th !! length (np_where_gt (take i a) th) = Some i.
Proof.
  intros Hi Hlt.
  assert (a = take i a ++ x :: drop (S i) a) as Hsplit
    by (by rewrite <- drop_S, take_drop).
  assert (length (take i a) = i) as Hlen.
  { rewrite length_take. apply lookup_lt_Some in Hi. lia. }
  remember (take i a) as pre eqn:Hpre. remember (drop (S i) a) as post eqn:Hpost.
  clear Hpre Hpost. subst a. unfold np_where_gt, enumerate.
  rewrite enumerate_from_app, List.filter_app, map_app.
  rewrite lookup_app_r by done. rewrite Nat.sub_diag.
  simpl. rewrite Hlen. apply Qgtb_true in Hlt. by rewrite Hlt.
Qed.

Lemma end_long2short_lookup (end_idxs : list nat) (z s : Z) :
  NoDup end_idxs ->
  end_long2short_of end_idxs !! z = Some s <->
  exists short long : nat,
    z = Z.of_nat long /\ s = Z.of_nat short /\ end_idxs !! short = Some long.
Proof.
  unfold end_long2short_of, enumerate.
  induction end_idxs as [|x l IH] using rev_ind; intros Hnd.
  - simpl. rewrite lookup_empty. split; [done|].
    intros (short & long & _ & _ & H). by rewrite lookup_nil in H.
  - apply NoDup_app in Hnd as (Hnd & Hfresh & _).
    rewrite enumerate_from_app, fold_left_app. simpl.
    destruct (decide (z = Z.of_nat x)) as [->|Hne].
    + rewrite lookup_insert_eq. split.
      * intros [= <-]. exists (length l), x.
        by rewrite lookup_app_r, Nat.sub_diag by lia.
      * intros (short & long & Hz & -> & Hlook).
        apply Nat2Z.inj in Hz as <-.
        destruct (decide (short < length l)%nat) as [Hlt|Hge].
        -- rewrite lookup_app_l in Hlook by done.
           exfalso. apply (Hfresh x); [|by left].
           apply list_elem_of_lookup. eauto.
        -- rewrite lookup_app_r in Hlook by lia.
           destruct (short - length l)%nat eqn:E; simpl in Hlook; [|done].
           do 2 f_equal. lia.
    + rewrite lookup_insert_ne by done. rewrite (IH Hnd). split.
      * intros (short & long & -> & -> & Hlook). exists short, long.
        repeat split. rewrite lookup_app_l; [done|]. by eapply lookup_lt_Some.
      * intros (short & long & -> & -> & Hlook). exists short, long.
        repeat split.
        destruct (decide (short < length l)%nat) as [Hlt|Hge].
        -- by rewrite lookup_app_l in Hlook.
        -- rewrite lookup_app_r in Hlook by lia.
           destruct (short - length l)%nat; simpl in Hlook; [|done].
           by simplify_eq.
Qed.

Lemma remap_value_retained (filter_end : list Q) (threshold : Q) (v : Z) :
  retained filter_end threshold v ->
  let v' := remap_value (end_long2short_of (np_where_gt filter_end threshold)) v in
  v' = compact_position filter_end threshold v /\
  np_where_gt filter_end threshold !! Z.to_nat v' = Some (Z.to_nat v).
Proof.
  intros (Hv & x & Hx & Hlt). simpl.
  pose proof (np_where_gt_position _ _ _ _ Hx Hlt) as Hpos.
  assert (end_long2short_of (np_where_gt filter_end threshold) !! v
          = Some (compact_position filter_end threshold v)) as Hd.
  { apply end_long2short_lookup; [apply np_where_gt_NoDup|].
    eexists _, (Z.to_nat v). split; [lia|]. split; [reflexivity|]. exact Hpos. }
  unfold remap_value. rewrite Hd. split; [done|].
  unfold compact_position. by rewrite Nat2Z.id.
Qed.

Lemma remap_value_dropped (filter_end : list Q) (threshold : Q) (v : Z) :
  ~ retained filter_end threshold v ->
  remap_value (end_long2short_of (np_where_gt filter_end threshold)) v = -1.
Proof.
  intros Hno. unfold remap_value.
  destruct (_ !! v) as [s|] eqn:Hd; [|done].
  apply end_long2short_lookup in Hd as (short & long & -> & -> & Hlook);
    [|apply np_where_gt_NoDup].
  exfalso. apply Hno. split; [lia|].
  apply np_where_gt_lookup in Hlook. by rewrite Nat2Z.id.
Qed.

Lemma remap_value_range (end_idxs : list nat) (v : Z) :
  NoDup end_idxs ->
  remap_value (end_long2short_of end_idxs) v = -1 \/
  0 <= remap_value (end_long2short_of end_idxs) v < Z.of_nat (length end_idxs).
Proof.
  intros Hnd. unfold remap_value.
  destruct (_ !! v) as [s|] eqn:Hd; [|by left]. right.
  apply end_long2short_lookup in Hd as (short & long & -> & -> & Hlook); [|done].
  apply lookup_lt_Some in Hlook. lia.
Qed.

(** What a successful run of [filter_metadata] has computed. *)
Lemma filter_metadata_Ok (metadata metadata' : Metadata) (threshold : Q) :
  filter_metadata metadata threshold = Ok metadata' ->
  let start_idxs := np_where_gt (md_filter_start metadata) threshold in
  let end_idxs := np_where_gt (md_filter_end metadata) threshold in
  exists start end_ sparse_rows sparse sparse_bi sparse_tri span_logits start2end,
    take_rows (md_start metadata) start_idxs = Ok start /\
    take_rows (md_end metadata) end_idxs = Ok end_ /\
    md_sparse metadata = Some sparse_rows /\
    take_rows sparse_rows start_idxs = Ok sparse /\
    take_rows_opt (md_sparse_bi metadata) start_idxs = Ok sparse_bi /\
    take_rows_opt (md_sparse_tri metadata) start_idxs = Ok sparse_tri /\
    take_rows (md_span_logits metadata) start_idxs = Ok span_logits /\
    take_rows (md_start2end metadata) start_idxs = Ok start2end /\
    metadata' =
      {| md_did := md_did metadata;
         md_context := md_context metadata;
         md_title := md_title metadata;
         md_start := start;
         md_end := end_;
         md_span_logits := span_logits;
         md_start2end :=
           map (map (remap_value (end_long2short_of end_idxs))) start2end;
         md_word2char_start := md_word2char_start metadata;
         md_word2char_end := md_word2char_end metadata;
         md_filter_start := md_filter_start metadata;
         md_filter_end := md_filter_end metadata;
         md_input_ids := md_input_ids metadata;
         md_sparse := Some sparse;
         md_sparse_bi := sparse_bi;
         md_sparse_tri := sparse_tri;
         md_len_per_para := md_len_per_para metadata;
         md_f2o_start := Some start_idxs;
         md_f2o_end := Some end_idxs |}.
Proof.
  unfold filter_metadata. intros H.
  destruct (take_rows (md_start metadata) _) as [start|] eqn:H1; [|done].
  destruct (take_rows (md_end metadata) _) as [end_|] eqn:H2; [|done].
  destruct (md_sparse metadata) as [sparse_rows|] eqn:H3; [|done].
  simpl in H.
  destruct (take_rows sparse_rows _) as [sparse|] eqn:H4; [|done].
  destruct (take_rows_opt (md_sparse_bi metadata) _) as [sbi|] eqn:H5; [|done].
  destruct (take_rows_opt (md_sparse_tri metadata) _) as [stri|] eqn:H6; [|done].
  destruct (take_rows (md_span_logits metadata) _) as [span|] eqn:H7; [|done].
  destruct (take_rows (md_start2end metadata) _) as [s2e|] eqn:H8; [|done].
  simpl in H. rewrite remap_start2end_map in H. injection H as <-.
  by eexists _, _, _, _, _, _, _, _.
Qed.

Lemma np_where_gt_bound (a : list Q) (th : Q) (i : nat) :
  i ∈ np_where_gt a th -> (i < length a)%nat.
Proof.
  intros Hin. apply list_elem_of_lookup in Hin as [k Hk].
  apply np_where_gt_lookup in Hk as (x & Hx & _). by eapply lookup_lt_Some.
Qed.

Lemma take_rows_returns {A} (a : list A) (idxs : list nat) :
  (forall i, i ∈ idxs -> (i < length a)%nat) ->
  exists rows, take_rows a idxs = Ok rows.
Proof.
  unfold take_rows. induction idxs as [|i idxs IH]; intros Hlt; simpl.
  - by eexists.
  - destruct (lookup_lt_is_Some_2 a i) as [x Hx]; [apply Hlt; by left|].
    rewrite Hx. simpl.
    destruct IH as [rows Hrows]; [intros; apply Hlt; by right|].
    rewrite Hrows. by eexists.
Qed.

(** [filter_metadata] returns on every record whose arrays are indexed
    alike and which has a unigram sparse map. *)
Lemma filter_metadata_returns (metadata : Metadata) (threshold : Q) :
  consistent_rows metadata ->
  exists metadata', filter_metadata metadata threshold = Ok metadata'.
Proof.
  intros (Hstart & Hspan & Hs2e & (sparse & Hsp & Hsparse) & Hbi & Htri & Hend).
  unfold filter_metadata.
  destruct (take_rows_returns (md_start metadata)
              (np_where_gt (md_filter_start metadata) threshold)) as [r1 ->];
    [intros i Hi; rewrite Hstart; by eapply np_where_gt_bound|].
  destruct (take_rows_returns (md_end metadata)
              (np_where_gt (md_filter_end metadata) threshold)) as [r2 ->];
    [intros i Hi; rewrite Hend; by eapply np_where_gt_bound|].
  rewrite Hsp. simpl.
  destruct (take_rows_returns sparse
              (np_where_gt (md_filter_start metadata) threshold)) as [r3 ->];
    [intros i Hi; rewrite Hsparse; by eapply np_where_gt_bound|].
  simpl.
  assert (exists r, take_rows_opt (md_sparse_bi metadata)
                      (np_where_gt (md_filter_start metadata) threshold) = Ok r)
    as [r4 ->].
  { destruct (md_sparse_bi metadata) as [bi|] eqn:E; simpl; [|by eexists].
    destruct (take_rows_returns bi
                (np_where_gt (md_filter_start metadata) threshold)) as [r ->];
      [intros i Hi; rewrite (Hbi _ eq_refl); by eapply np_where_gt_bound|].
    by eexists. }
  simpl.
  assert (exists r, take_rows_opt (md_sparse_tri metadata)
                      (np_where_gt (md_filter_start metadata) threshold) = Ok r)
    as [r5 ->].
  { destruct (md_sparse_tri metadata) as [tri|] eqn:E; simpl; [|by eexists].
    destruct (take_rows_returns tri
                (np_where_gt (md_filter_start metadata) threshold)) as [r ->];
      [intros i Hi; rewrite (Htri _ eq_refl); by eapply np_where_gt_bound|].
    by eexists. }
  simpl.
  destruct (take_rows_returns (md_span_logits metadata)
              (np_where_gt (md_filter_start metadata) threshold)) as [r6 ->];
    [intros i Hi; rewrite Hspan; by eapply np_where_gt_bound|].
  simpl.
  destruct (take_rows_returns (md_start2end metadata)
              (np_where_gt (md_filter_start metadata) threshold)) as [r7 ->];
    [intros i Hi; rewrite Hs2e; by eapply np_where_gt_bound|].
  simpl. by eexists.
Qed.

(** C1: after [filter_metadata] every entry of [start2end] is -1 or a
    position of the filtered [end] array; row [i] of the filtered table is
    the row of the original table at the [i]-th retained start position,
    with an entry [v] replaced by the position of [v] among the retained
    end positions when [filter_end[v] > threshold] and by -1 otherwise. *)
Theorem filter_metadata_start2end (metadata metadata' : Metadata) (threshold : Q) :
  filter_metadata metadata threshold = Ok metadata' ->
  let start_idxs := np_where_gt (md_filter_start metadata) threshold in
  let end_idxs := np_where_gt (md_filter_end metadata) threshold in
  (forall i j row' v',
     md_start2end metadata' !! i = Some row' -> row' !! j = Some v' ->
     v' = -1 \/ 0 <= v' < Z.of_nat (length (md_end metadata'))) /\
  length (md_start2end metadata') = length start_idxs /\
  (forall i oi, start_idxs !! i = Some oi ->
     exists row row',
       md_start2end metadata !! oi = Some row /\
       md_start2end metadata' !! i = Some row' /\
       length row' = length row /\
       forall j v, row !! j = Some v ->
         exists v', row' !! j = Some v' /\
           (retained (md_filter_end metadata) threshold v ->
              v' = compact_position (md_filter_end metadata) threshold v /\
              end_idxs !! Z.to_nat v' = Some (Z.to_nat v)) /\
           (~ retained (md_filter_end metadata) threshold v -> v' = -1)).
Proof.
  intros H start_idxs end_idxs.
  apply filter_metadata_Ok in H
    as (start & end_ & sr & sp & sbi & stri & span & s2e
        & H1 & H2 & H3 & H4 & H5 & H6 & H7 & H8 & ->).
  fold start_idxs in H8. fold end_idxs in H2. fold end_idxs. simpl.
  apply take_rows_Ok in H2 as [Hlen_end _].
  apply take_rows_Ok in H8 as [Hlen_s2e Hrows].
  split; [|split].
  - intros i j row' v' Hi Hj.
    rewrite list_lookup_fmap in Hi.
    destruct (s2e !! i) as [row|]; [|done]. injection Hi as <-.
    rewrite list_lookup_fmap in Hj.
    destruct (row !! j) as [v|]; [|done]. injection Hj as <-.
    rewrite Hlen_end. apply remap_value_range, np_where_gt_NoDup.
  - by rewrite length_map.
  - intros i oi Hoi.
    assert (i < length s2e)%nat as Hi
      by (rewrite Hlen_s2e; by eapply lookup_lt_Some).
    apply lookup_lt_is_Some in Hi as [row Hrow].
    destruct (Hrows _ _ Hrow) as (oi' & Hoi' & Horig).
    assert (oi' = oi) as -> by congruence.
    exists row, (map (remap_value (end_long2short_of end_idxs)) row).
    split; [done|]. split; [by rewrite list_lookup_fmap, Hrow|].
    split; [by rewrite length_map|].
    intros j v Hv. eexists. split; [by rewrite list_lookup_fmap, Hv|].
    split.
    + apply remap_value_retained.
    + apply remap_value_dropped.
Qed.

(** C8: [filter_metadata] leaves every field other than [start], [end],
    the sparse maps, [span_logits] and [start2end] as it was, and records
    the retained positions as [f2o_start] and [f2o_end]; the word offsets
    keep their full length. *)
Theorem filter_metadata_frame (metadata metadata' : Metadata) (threshold : Q) :
  filter_metadata metadata threshold = Ok metadata' ->
  md_word2char_start metadata' = md_word2char_start metadata /\
  md_word2char_end metadata' = md_word2char_end metadata /\
  md_did metadata' = md_did metadata /\
  md_context metadata' = md_context metadata /\
  md_title metadata' = md_title metadata /\
  md_filter_start metadata' = md_filter_start metadata /\
  md_filter_end metadata' = md_filter_end metadata /\
  md_input_ids metadata' = md_input_ids metadata /\
  md_len_per_para metadata' = md_len_per_para metadata /\
  md_f2o_start metadata'
    = Some (np_where_gt (md_filter_start metadata) threshold) /\
  md_f2o_end metadata'
    = Some (np_where_gt (md_filter_end metadata) threshold).
Proof.
  intros H.
  apply filter_metadata_Ok in H
    as (start & end_ & sr & sp & sbi & stri & span & s2e
        & H1 & H2 & H3 & H4 & H5 & H6 & H7 & H8 & ->).
  simpl. repeat split.
Qed.

Example get_metadata_sample :
  get_metadata punctuation_tokenize sample_id2example [sample_feature]
    [sample_result_sparse] 2 true false = Ok sample_metadata.
Proof. by vm_compute. Qed.

Example get_metadata_sample_dense :
  get_metadata punctuation_tokenize sample_id2example [sample_feature]
    [sample_result] 2 true false = Ok sample_dense_metadata.
Proof. by vm_compute. Qed.

Example filter_metadata_sample :
  filter_metadata sample_metadata 0 = Ok sample_filtered.
Proof. by vm_compute. Qed.

Lemma filter_metadata_start2end_witness :
  filter_metadata sample_metadata 0 = Ok sample_filtered /\
  forall i j row' v',
    md_start2end sample_filtered !! i = Some row' -> row' !! j = Some v' ->
    v' = -1 \/ 0 <= v' < Z.of_nat (length (md_end sample_filtered)).
Proof.
  split; [by vm_compute|].
  apply (filter_metadata_start2end sample_metadata sample_filtered 0).
  by vm_compute.
Defined.

Lemma filter_metadata_frame_witness :
  filter_metadata sample_metadata 0 = Ok sample_filtered /\
  md_word2char_start sample_filtered = md_word2char_start sample_metadata.
Proof.
  split; [by vm_compute|].
  apply (filter_metadata_frame sample_metadata sample_filtered 0).
  by vm_compute.
Defined.

(** ** [filter_metadata] after [get_metadata] *)

Lemma filter_metadata_no_sparse (metadata : Metadata) (threshold : Q) :
  md_sparse metadata = None ->
  exists e, filter_metadata metadata threshold = Raise e.
Proof.
  intros Hs. unfold filter_metadata.
  destruct (take_rows (md_start metadata) _); [|by eexists].
  destruct (take_rows (md_end metadata) _); [|by eexists].
  rewrite Hs. by eexists.
Qed.

Lemma sparse_maps_no_scores (features : list Feature) (results : list Result)
    (start_rows : nat) (result0 : Result) out :
  results !! 0%nat = Some result0 ->
  r_start_sp result0 = None ->
  sparse_maps features results start_rows = Ok out ->
  out = (None, None, None, None, []).
Proof.
  intros H0 Hsp. unfold sparse_maps. rewrite H0. simpl. rewrite Hsp.
  by intros [= <-].
Qed.

Lemma get_metadata_no_scores (basic_tokenize : bool -> string -> list string)
    (id2example : gmap Z Example) (features : list Feature)
    (results : list Result) (max_answer_length : Z)
    (do_lower_case verbose_logging : bool) (result0 : Result)
    (metadata : Metadata) :
  results !! 0%nat = Some result0 ->
  r_start_sp result0 = None ->
  get_metadata basic_tokenize id2example features results max_answer_length
    do_lower_case verbose_logging = Ok metadata ->
  md_sparse metadata = None.
Proof.
  intros H0 Hsp Hmd. unfold get_metadata in Hmd.
  apply bind_Ok in Hmd as (start & _ & Hmd).
  apply bind_Ok in Hmd as (end_ & _ & Hmd).
  apply bind_Ok in Hmd as (out & Hout & Hmd).
  rewrite (sparse_maps_no_scores _ _ _ _ _ H0 Hsp Hout) in Hmd.
  apply bind_Ok in Hmd as (fs & _ & Hmd).
  apply bind_Ok in Hmd as (fe & _ & Hmd).
  destruct (max_answer_length <? 0); [done|].
  apply bind_Ok in Hmd as ([[sl s2e] idx] & _ & Hmd).
  apply bind_Ok in Hmd as ([[[[ft pe] wp] ws] we] & _ & Hmd).
  apply bind_Ok in Hmd as (pe' & _ & Hmd).
  by injection Hmd as <-.
Qed.

(** C10: [filter_metadata] indexes [metadata['sparse']] whatever it is, so
    it returns only for a record that has a unigram sparse map; on a record
    that [get_metadata] builds from results without sparse scores, whose
    [sparse] field is [None], it raises, and [pool_func] with it. The
    sample document without sparse scores is such a record. *)
Theorem filter_metadata_requires_sparse
    (basic_tokenize : bool -> string -> list string)
    (id2example : gmap Z Example) (features : list Feature)
    (results : list Result) (max_answer_length : Z)
    (do_lower_case verbose_logging : bool) (threshold : Q) :
  (forall metadata metadata',
     filter_metadata metadata threshold = Ok metadata' ->
     md_sparse metadata <> None) /\
  (forall result0 metadata,
     results !! 0%nat = Some result0 ->
     r_start_sp result0 = None ->
     get_metadata basic_tokenize id2example features results max_answer_length
       do_lower_case verbose_logging = Ok metadata ->
     md_sparse metadata = None /\
     exists e,
       filter_metadata metadata threshold = Raise e /\
       pool_func basic_tokenize id2example features results max_answer_length
         do_lower_case verbose_logging threshold = Raise e) /\
  (get_metadata punctuation_tokenize sample_id2example [sample_feature]
     [sample_result] 2 true false = Ok sample_dense_metadata /\
   filter_metadata sample_dense_metadata 0 = Raise TypeError).
Proof.
  split; [|split].
  - intros metadata metadata' H Hs.
    destruct (filter_metadata_no_sparse metadata threshold Hs) as [e He].
    congruence.
  - intros result0 metadata H0 Hsp Hmd.
    pose proof (get_metadata_no_scores _ _ _ _ _ _ _ _ _ H0 Hsp Hmd) as Hs.
    split; [done|].
    destruct (filter_metadata_no_sparse metadata threshold Hs) as [e He].
    exists e. split; [done|]. unfold pool_func. by rewrite Hmd.
  - split; [by vm_compute|]. by vm_compute.
Qed.

Lemma filter_metadata_requires_sparse_witness :
  [sample_result] !! 0%nat = Some sample_result /\
  r_start_sp sample_result = None /\
  get_metadata punctuation_tokenize sample_id2example [sample_feature]
    [sample_result] 2 true false = Ok sample_dense_metadata /\
  md_sparse sample_dense_metadata = None /\
  exists e,
    filter_metadata sample_dense_metadata 0 = Raise e /\
    pool_func punctuation_tokenize sample_id2example [sample_feature]
      [sample_result] 2 true false 0 = Raise e.
Proof.
  split; [reflexivity|]. split; [reflexivity|]. split; [by vm_compute|].
  apply (proj1 (proj2 (filter_metadata_requires_sparse punctuation_tokenize
           sample_id2example [sample_feature] [sample_result] 2 true false 0))
           sample_result sample_dense_metadata);
    [reflexivity|reflexivity|by vm_compute].
Defined.

(** ** Slices, [enumerate] and [sorted] *)

Lemma py_slice_length {A} (l : list A) (a b : Z) :
  0 <= a -> 0 <= b ->
  length (py_slice l a b)
  = (Nat.min (Z.to_nat b) (length l) - Nat.min (Z.to_nat a) (length l))%nat.
Proof.
  intros Ha Hb. unfold py_slice, slice_bound.
  destruct (Z.ltb_spec a 0); [lia|]. destruct (Z.ltb_spec b 0); [lia|].
  rewrite length_take, length_drop. lia.
Qed.

Lemma elem_of_enumerate {A} (l : list A) (i : nat) (x : A) :
  (i, x) ∈ enumerate l <-> l !! i = Some x.
Proof.
  unfold enumerate. rewrite list_elem_of_lookup. split.
  - intros [k Hk]. rewrite enumerate_from_lookup in Hk.
    destruct (l !! k) eqn:E; simpl in Hk; [|done]. by simplify_eq/=.
  - intros Hi. exists i. by rewrite enumerate_from_lookup, Hi.
Qed.

Lemma elem_of_insert_sorted {A} (key : A -> Q) (reverse : bool) (x y : A)
    (l : list A) :
  y ∈ insert_sorted key reverse x l <-> y = x \/ y ∈ l.
Proof.
  induction l as [|z l IH]; simpl.
  - rewrite list_elem_of_singleton. rewrite elem_of_nil. tauto.
  - destruct (if reverse then _ else _).
    + rewrite !elem_of_cons, IH. tauto.
    + rewrite !elem_of_cons. tauto.
Qed.

Lemma elem_of_sorted_by {A} (key : A -> Q) (reverse : bool) (y : A) (l : list A) :
  y ∈ sorted_by key reverse l <-> y ∈ l.
Proof.
  unfold sorted_by. induction l as [|x l IH]; simpl; [done|].
  by rewrite elem_of_insert_sorted, elem_of_cons, IH.
Qed.

Lemma elem_of_py_slice {A} (l : list A) (a b : Z) (x : A) :
  x ∈ py_slice l a b -> x ∈ l.
Proof.
  unfold py_slice. intros H.
  apply elem_of_take in H as (i & Hi & _).
  rewrite lookup_drop in Hi. apply list_elem_of_lookup. eauto.
Qed.

(** ** [write_predictions_nq] *)

(** Every pair of [scores] is a pair of token positions in order. *)
Lemma nq_scores_bounds (feature : Feature) (result : Result) (s e : Z) (sc : Q) :
  ((s, e), sc) ∈ nq_scores feature result ->
  0 <= s /\ s <= e /\ e < ntokens feature.
Proof.
  unfold nq_scores. rewrite list_elem_of_In, in_concat.
  intros (row & Hrow & Hin).
  apply in_map_iff in Hrow as ([i x] & <- & Hi).
  apply in_map_iff in Hin as ([j y] & Heq & Hj).
  injection Heq as <- <- <-.
  apply list_elem_of_In, elem_of_enumerate, lookup_lt_Some in Hi.
  apply list_elem_of_In, elem_of_enumerate, lookup_lt_Some in Hj.
  unfold ntokens in *.
  rewrite py_slice_length in Hi by lia.
  rewrite py_slice_length in Hj by lia.
  rewrite py_slice_length in Hj by lia.
  lia.
Qed.

Lemma nq_guard_Passes (feature : Feature) (s e : Z) :
  nq_guard_of feature s e = Passes ->
  s < ntokens feature /\ e < ntokens feature /\ s <= e.
Proof.
  unfold nq_guard_of.
  destruct (Z.geb_spec s (ntokens feature)); [done|].
  destruct (Z.geb_spec e (ntokens feature)); [done|].
  destruct (negb _); [done|]. destruct (negb _); [done|].
  destruct (negb _); [done|].
  destruct (Z.ltb_spec e s); [done|]. lia.
Qed.

(** The guards for the position range and for the order of the two
    positions never fire on a pair of [scores]. *)
Lemma nq_guard_unreachable (feature : Feature) (result : Result) (s e : Z) (sc : Q) :
  ((s, e), sc) ∈ nq_scores feature result ->
  nq_guard_of feature s e <> Start_out_of_range /\
  nq_guard_of feature s e <> End_out_of_range /\
  nq_guard_of feature s e <> End_before_start.
Proof.
  intros H. apply nq_scores_bounds in H as (H0 & Hse & He).
  unfold nq_guard_of.
  destruct (Z.geb_spec s (ntokens feature)); [lia|].
  destruct (Z.geb_spec e (ntokens feature)); [lia|].
  destruct (negb _); [done|]. destruct (negb _); [done|].
  destruct (negb _); [done|].
  destruct (Z.ltb_spec e s); [lia|]. done.
Qed.

Lemma nq_collect_ok (unique_id_to_result : gmap Z Result) (features : list Feature)
    (feature : Feature) (result : Result) (feature_index : nat)
    (n_best_size : Z) (n_paragraphs : option (list Z))
    (scores : list ((Z * Z) * Q)) :
  features !! feature_index = Some feature ->
  unique_id_to_result !! f_unique_id feature = Some result ->
  (forall s e sc, ((s, e), sc) ∈ scores -> 0 <= s) ->
  forall prelim out,
    Forall (prelim_ok unique_id_to_result features) prelim ->
    nq_collect feature result feature_index n_best_size n_paragraphs scores prelim
      = Ok out ->
    Forall (prelim_ok unique_id_to_result features) out.
Proof.
  intros Hf Hr. induction scores as [|[[s e] sc] scores IH];
    intros Hpos prelim out Hall; simpl.
  - by intros [= <-].
  - assert (forall s e sc, ((s, e), sc) ∈ scores -> 0 <= s) as Hpos'
      by (intros; eapply Hpos; by right).
    destruct (nq_guard_of feature s e) eqn:Hg;
      try (by apply IH).
    intros H. apply bind_Ok in H as (logit & Hlogit & H).
    apply bind_Ok in H as (no_answer & Hna & H).
    rewrite Hna in Hlogit. injection Hlogit as <-.
    apply nq_guard_Passes in Hg as (Hs & He & Hse).
    specialize (Hpos s e sc ltac:(by left)).
    match type of H with
    | context [prelim ++ [?p]] =>
        assert (Forall (prelim_ok unique_id_to_result features) (prelim ++ [p]))
          as Hall'
    end.
    { apply Forall_app. split; [done|]. apply Forall_singleton.
      exists feature, result, no_answer. simpl. repeat split; done || lia. }
    destruct n_paragraphs; [by eapply IH|].
    destruct (n_best_size <=? _); [by injection H as <-|].
    by eapply IH.
Qed.

Lemma nq_results_lookup (unique_id_to_result : gmap Z Result)
    (features : list Feature) (n_paragraphs : option (list Z))
    (results : list (nat * Feature)) (feature_index : nat) (feature : Feature) :
  nq_results unique_id_to_result features n_paragraphs = Ok results ->
  (feature_index, feature) ∈ results ->
  features !! feature_index = Some feature.
Proof.
  unfold nq_results. destruct n_paragraphs.
  - intros [= <-] Hin. by apply elem_of_enumerate in Hin.
  - intros H Hin. apply bind_Ok in H as (keyed & Hkeyed & H).
    injection H as <-. apply elem_of_py_slice in Hin.
    apply list_elem_of_In, in_map_iff in Hin as ([key it] & Heq & Hin).
    simpl in Heq. subst it.
    apply list_elem_of_In, elem_of_sorted_by in Hin.
    apply list_elem_of_lookup in Hin as [k Hk].
    apply mapM_res_Ok in Hkeyed as [_ Hkeyed].
    destruct (Hkeyed _ _ Hk) as ([i f] & Hi & Hf).
    apply bind_Ok in Hf as (r & _ & Hf). apply bind_Ok in Hf as (sw & _ & Hf).
    injection Hf as <- <- <-.
    apply elem_of_enumerate, list_elem_of_lookup. eauto.
Qed.

Lemma nq_prelim_predictions_ok (unique_id_to_result : gmap Z Result)
    (features : list Feature) (n_best_size : Z) (n_paragraphs : option (list Z))
    (last_result last_result' : option Result) (prelims : list PrelimPrediction) :
  nq_prelim_predictions unique_id_to_result features n_best_size n_paragraphs
    last_result = Ok (prelims, last_result') ->
  Forall (prelim_ok unique_id_to_result features) prelims.
Proof.
  unfold nq_prelim_predictions. intros H.
  apply bind_Ok in H as (results & Hres & H).
  apply bind_Ok in H as ([prelim lr] & Hloop & H).
  injection H as <- <-.
  apply Forall_forall. intros p Hp. apply elem_of_sorted_by in Hp.
  revert p Hp. apply Forall_forall.
  assert (forall fi f, (fi, f) ∈ results -> features !! fi = Some f) as Hin
    by (intros; by eapply nq_results_lookup).
  clear Hres.
  assert (Forall (prelim_ok unique_id_to_result features) []) as Hnil
    by constructor.
  revert Hloop Hnil. generalize (@nil PrelimPrediction). generalize last_result.
  induction results as [|[fi f] results IH]; intros lr0 acc Hloop Hacc; simpl in Hloop.
  - by injection Hloop as <- <-.
  - apply bind_Ok in Hloop as ([acc' lr'] & Hstep & Hloop).
    apply bind_Ok in Hstep as (result & Hresult & Hstep).
    apply bind_Ok in Hstep as (out & Hout & Hstep).
    injection Hstep as <- <-.
    destruct (unique_id_to_result !! f_unique_id f) as [r|] eqn:Hr; [|done].
    injection Hresult as <-.
    eapply IH; [intros; apply Hin; by right|exact Hloop|].
    eapply nq_collect_ok; [apply Hin; by left|exact Hr| |exact Hacc|exact Hout].
    intros s e sc Hsc. apply elem_of_sorted_by in Hsc.
    by apply nq_scores_bounds in Hsc as (? & _).
Qed.

Example nq_prelim_predictions_sample :
  nq_prelim_predictions sample_unique_id_to_result [sample_feature] 3 None None
  = Ok (sample_prelim_predictions, Some sample_result).
Proof. by vm_compute. Qed.

(** C7: every prediction that [write_predictions_nq] appends while it
    processes a feature with the result [r] has [-r.switch[3]] as its logit
    and [r.switch[3]] as its no-answer logit, so the predictions of one
    feature all have the same ranking logit, whatever their start and end
    scores. *)
Theorem nq_prelim_ranking_logit (unique_id_to_result : gmap Z Result)
    (features : list Feature) (n_best_size : Z) (n_paragraphs : option (list Z))
    (last_result last_result' : option Result) (prelims : list PrelimPrediction) :
  nq_prelim_predictions unique_id_to_result features n_best_size n_paragraphs
    last_result = Ok (prelims, last_result') ->
  (forall pred, pred ∈ prelims ->
     exists feature result no_answer,
       features !! pp_feature_index pred = Some feature /\
       unique_id_to_result !! f_unique_id feature = Some result /\
       getitem (r_switch result) 3 = Ok no_answer /\
       pp_logit pred = (- no_answer)%Q /\
       pp_no_answer_logit pred = no_answer) /\
  (forall pred1 pred2, pred1 ∈ prelims -> pred2 ∈ prelims ->
     pp_feature_index pred1 = pp_feature_index pred2 ->
     pp_logit pred1 = pp_logit pred2 /\
     pp_no_answer_logit pred1 = pp_no_answer_logit pred2).
Proof.
  intros H. apply nq_prelim_predictions_ok in H.
  rewrite Forall_forall in H. split.
  - intros pred Hin.
    destruct (H _ Hin) as (f & r & na & Hf & Hr & Hna & Hl & Hn & _).
    by exists f, r, na.
  - intros pred1 pred2 Hin1 Hin2 Hfi.
    destruct (H _ Hin1) as (f1 & r1 & na1 & Hf1 & Hr1 & Hna1 & Hl1 & Hn1 & _).
    destruct (H _ Hin2) as (f2 & r2 & na2 & Hf2 & Hr2 & Hna2 & Hl2 & Hn2 & _).
    rewrite Hfi in Hf1. assert (f1 = f2) as -> by congruence.
    assert (r1 = r2) as -> by congruence.
    assert (na1 = na2) as -> by congruence.
    split; congruence.
Qed.

Lemma nq_prelim_ranking_logit_witness :
  nq_prelim_predictions sample_unique_id_to_result [sample_feature] 3 None None
    = Ok (sample_prelim_predictions, Some sample_result) /\
  forall pred1 pred2,
    pred1 ∈ sample_prelim_predictions -> pred2 ∈ sample_prelim_predictions ->
    pp_feature_index pred1 = pp_feature_index pred2 ->
    pp_logit pred1 = pp_logit pred2 /\
    pp_no_answer_logit pred1 = pp_no_answer_logit pred2.
Proof.
  split; [by vm_compute|].
  apply (nq_prelim_ranking_logit sample_unique_id_to_result [sample_feature] 3
           None None (Some sample_result) sample_prelim_predictions).
  by vm_compute.
Defined.

Lemma nbest_branch_span (pred : PrelimPrediction) :
  0 <= pp_start_index pred -> nbest_branch pred = Text_span.
Proof.
  intros H. unfold nbest_branch.
  destruct (Z.eqb_spec (pp_start_index pred) (pp_end_index pred));
    destruct (Z.eqb_spec (pp_end_index pred) (-1));
    destruct (Z.eqb_spec (pp_end_index pred) (-2)); simpl; try done; lia.
Qed.

(** C9: every prediction that [write_predictions_nq] constructs has
    [0 <= start_index <= end_index < len(feature.tokens)]; so
    [get_nbest_json] gives it its text by the branch of the spans and
    never by the branches for (-1, -1) and (-2, -2), and the test
    [end_index < start_index] of the loop over the scores never holds. *)
Theorem nq_prelim_spans_in_range (unique_id_to_result : gmap Z Result)
    (features : list Feature) (n_best_size : Z) (n_paragraphs : option (list Z))
    (last_result last_result' : option Result) (prelims : list PrelimPrediction) :
  nq_prelim_predictions unique_id_to_result features n_best_size n_paragraphs
    last_result = Ok (prelims, last_result') ->
  (forall pred, pred ∈ prelims ->
     exists feature,
       features !! pp_feature_index pred = Some feature /\
       0 <= pp_start_index pred /\
       pp_start_index pred <= pp_end_index pred /\
       pp_end_index pred < ntokens feature) /\
  (forall pred, pred ∈ prelims ->
     nbest_branch pred = Text_span /\
     forall basic_tokenize do_lower_case verbose_logging,
       nbest_final_text basic_tokenize features pred do_lower_case verbose_logging
       = nbest_span_text basic_tokenize features pred do_lower_case
           verbose_logging) /\
  (forall feature result start_index end_index score,
     ((start_index, end_index), score) ∈ nq_scores feature result ->
     nq_guard_of feature start_index end_index <> End_before_start).
Proof.
  intros H. apply nq_prelim_predictions_ok in H.
  rewrite Forall_forall in H. split; [|split].
  - intros pred Hin.
    destruct (H _ Hin) as (f & r & na & Hf & _ & _ & _ & _ & H0 & Hse & He).
    by exists f.
  - intros pred Hin.
    destruct (H _ Hin) as (f & r & na & Hf & _ & _ & _ & _ & H0 & Hse & He).
    pose proof (nbest_branch_span pred H0) as Hb. split; [done|].
    intros. unfold nbest_final_text. by rewrite Hb.
  - intros feature result s e sc Hin.
    by apply nq_guard_unreachable in Hin as (_ & _ & ?).
Qed.

Lemma nq_prelim_spans_in_range_witness :
  nq_prelim_predictions sample_unique_id_to_result [sample_feature] 3 None None
    = Ok (sample_prelim_predictions, Some sample_result) /\
  forall pred, pred ∈ sample_prelim_predictions ->
    exists feature,
      [sample_feature] !! pp_feature_index pred = Some feature /\
      0 <= pp_start_index pred /\
      pp_start_index pred <= pp_end_index pred /\
      pp_end_index pred < ntokens feature.
Proof.
  split; [by vm_compute|].
  apply (nq_prelim_spans_in_range sample_unique_id_to_result [sample_feature] 3
           None None (Some sample_result) sample_prelim_predictions).
  by vm_compute.
Defined.

(** ** Loops with an invariant *)

Lemma foldM_inv {A St} (I : nat -> St -> Prop) (body : St -> A -> res St)
    (l : list A) (st : St) :
  I 0%nat st ->
  (forall i x st, l !! i = Some x -> I i st ->
     exists st', body st x = Ok st' /\ I (S i) st') ->
  exists st', foldM body st l = Ok st' /\ I (length l) st'.
Proof.
  revert I st. induction l as [|x l IH]; intros I st H0 Hstep; simpl.
  - by exists st.
  - destruct (Hstep 0%nat x st eq_refl H0) as (st1 & -> & H1). simpl.
    apply (IH (fun i => I (S i))); [done|].
    intros i y st2 Hi. by apply (Hstep (S i)).
Qed.

Lemma range_lookup (a b : Z) (i : nat) (x : Z) :
  range a b !! i = Some x -> x = a + Z.of_nat i /\ a <= x < b.
Proof.
  unfold range. rewrite list_lookup_fmap. intros H.
  destruct (seq 0 _ !! i) as [j|] eqn:Hj; [|done].
  apply lookup_seq in Hj as [-> Hlt]. injection H as <-. lia.
Qed.

Lemma range_length (a b : Z) : length (range a b) = Z.to_nat (b - a).
Proof. unfold range. by rewrite length_map, length_seq. Qed.

Lemma foldM_range_inv {St} (I : Z -> St -> Prop) (body : St -> Z -> res St)
    (a b : Z) (st : St) :
  I a st ->
  (forall i st, a <= i < b -> I i st ->
     exists st', body st i = Ok st' /\ I (i + 1) st') ->
  exists st', foldM body st (range a b) = Ok st' /\ I (Z.max a b) st'.
Proof.
  intros H0 Hstep.
  destruct (foldM_inv (fun i => I (a + Z.of_nat i)) body (range a b) st)
    as (st' & Hfold & Hend).
  - by rewrite Z.add_0_r.
  - intros i x st0 Hi Hinv. apply range_lookup in Hi as [-> Hi].
    destruct (Hstep _ _ Hi Hinv) as (st1 & Hb & H1).
    exists st1. split; [done|].
    by replace (a + Z.of_nat (S i)) with (a + Z.of_nat i + 1) by lia.
  - exists st'. split; [done|]. rewrite range_length in Hend.
    by replace (Z.max a b) with (a + Z.of_nat (Z.to_nat (b - a))) by lia.
Qed.

(** ** [write_predictions] *)

Lemma id2feature_of_elem (all_features : list Feature) (u : Z) (f : Feature) :
  id2feature_of all_features !! u = Some f -> f ∈ all_features.
Proof.
  unfold id2feature_of.
  induction all_features as [|x l IH] using rev_ind; simpl.
  - by rewrite lookup_empty.
  - rewrite fold_left_app. simpl.
    destruct (decide (f_unique_id x = u)) as [<-|Hne].
    + rewrite lookup_insert_eq. intros [= <-]. apply elem_of_app. right. by left.
    + rewrite lookup_insert_ne by done. intros H. apply elem_of_app. left. auto.
Qed.

Lemma before_next (k : nat) (s e : Z) (k' : nat) (s' e' : Z) :
  before k s (e + 1) k' s' e' <->
  before k s e k' s' e' \/ (k' = k /\ s' = s /\ e' = e).
Proof. unfold before. lia. Qed.

Section WritePredictionsProofs.
Variable basic_tokenize : bool -> string -> list string.
Variables (all_examples : list Example) (all_features : list Feature)
          (all_results : list Result).
Variables (max_answer_length : Z) (do_lower_case verbose_logging : bool)
          (threshold : Q).
Hypothesis Hwf : well_formed all_examples all_features all_results.

Local Abbreviation adm :=
  (admissible all_examples all_features all_results max_answer_length threshold).
Local Abbreviation cscore := (candidate_score all_results).
Local Abbreviation ctext :=
  (candidate_text basic_tokenize all_examples all_features all_results
     do_lower_case verbose_logging).
Local Abbreviation inv :=
  (wp_inv basic_tokenize all_examples all_features all_results max_answer_length
     do_lower_case verbose_logging threshold).

Lemma inv_ext (P P' : nat -> Z -> Z -> Prop) predictions scores :
  (forall q k s e, adm q k s e -> (P k s e <-> P' k s e)) ->
  inv P predictions scores -> inv P' predictions scores.
Proof.
  intros Hext Hinv q. destruct (Hinv q) as [(Hp & Hs & Hno)|Hbest].
  - left. repeat split; [done..|]. intros k s e HP' Hadm.
    apply (Hno k s e); [|done]. by apply (Hext q).
  - right.
    destruct Hbest
      as (k & s & e & sc & t & HP & Hadm & Hsc & Ht & Hp & Hs & Hmax & Hfirst).
    exists k, s, e, sc, t. repeat split; try done.
    + by apply (Hext q).
    + intros k' s' e' sc' HP' Hadm'. apply Hmax; [|done]. by apply (Hext q).
    + intros k' s' e' sc' HP' Hadm'. apply Hfirst; [|done]. by apply (Hext q).
Qed.

(** A pair that is not admissible changes nothing. *)
Lemma inv_skip (P : nat -> Z -> Z -> Prop) (k : nat) (s e : Z) predictions scores :
  (forall q, ~ adm q k s e) ->
  inv P predictions scores ->
  inv (fun k' s' e' => P k' s' e' \/ (k' = k /\ s' = s /\ e' = e))
    predictions scores.
Proof.
  intros Hno. apply inv_ext. intros q k' s' e' Hadm. split; [by left|].
  intros [HP|(-> & -> & ->)]; [done|]. by destruct (Hno q).
Qed.

(** An admissible pair that does not beat the score of its question. *)
Lemma inv_keep (P : nat -> Z -> Z -> Prop) (k : nat) (s e : Z) (qid : string)
    (score best : Q) predictions scores :
  (forall q, adm q k s e -> q = qid) ->
  (forall score', cscore k s e score' -> score' = score) ->
  (forall k0 s0 e0, P k0 s0 e0 -> ~ before k0 s0 e0 k s e) ->
  scores !! qid = Some best -> (score <= best)%Q ->
  inv P predictions scores ->
  inv (fun k' s' e' => P k' s' e' \/ (k' = k /\ s' = s /\ e' = e))
    predictions scores.
Proof.
  intros Hq Hscore Hafter Hbest Hle Hinv q.
  destruct (Hinv q) as [(Hp & Hs & Hno)|Hold].
  - left. repeat split; [done..|].
    intros k' s' e' [HP|(-> & -> & ->)]; [by apply Hno|].
    intros Hadm. apply Hq in Hadm as ->. congruence.
  - right.
    destruct Hold
      as (k0 & s0 & e0 & sc & t & HP & Hadm & Hsc & Ht & Hp & Hs & Hmax & Hfirst).
    exists k0, s0, e0, sc, t. repeat split; try done; [by left| |].
    + intros k' s' e' sc' [HP'|(-> & -> & ->)] Hadm' Hsc'; [by eapply Hmax|].
      apply Hq in Hadm' as ->. apply Hscore in Hsc' as ->.
      assert (sc = best) as -> by congruence. done.
    + intros k' s' e' sc' [HP'|(-> & -> & ->)] Hadm' Hsc' Hb;
        [by eapply Hfirst|].
      by destruct (Hafter _ _ _ HP).
Qed.

(** An admissible pair that is the first of its question or beats its
    score. *)
Lemma inv_update (P : nat -> Z -> Z -> Prop) (k : nat) (s e : Z) (qid : string)
    (score : Q) (text : string) predictions scores :
  adm qid k s e -> cscore k s e score -> ctext k s e text ->
  (forall q, adm q k s e -> q = qid) ->
  (forall score', cscore k s e score' -> score' = score) ->
  match scores !! qid with
  | None => True
  | Some best => (best < score)%Q
  end ->
  inv P predictions scores ->
  inv (fun k' s' e' => P k' s' e' \/ (k' = k /\ s' = s /\ e' = e))
    (<[qid := text]> predictions) (<[qid := score]> scores).
Proof.
  intros Hadm Hsc Ht Hq Hscore Hbetter Hinv q.
  destruct (decide (q = qid)) as [->|Hne].
  - right. exists k, s, e, score, text.
    rewrite !lookup_insert_eq.
    assert (forall k' s' e' sc', P k' s' e' -> adm qid k' s' e' ->
              cscore k' s' e' sc' -> (sc' < score)%Q) as Hold_lt.
    { intros k' s' e' sc' HP' Hadm' Hsc'.
      destruct (Hinv qid) as [(_ & _ & Hno)|Hold].
      - by destruct (Hno k' s' e' HP').
      - destruct Hold
          as (k0 & s0 & e0 & sc0 & t0 & _ & _ & _ & _ & _ & Hs0 & Hmax & _).
        rewrite Hs0 in Hbetter.
        eapply Qle_lt_trans; [|exact Hbetter]. by eapply Hmax. }
    repeat split; try done; [by right| |].
    + intros k' s' e' sc' [HP'|(-> & -> & ->)] Hadm' Hsc'.
      * apply Qlt_le_weak. by eapply Hold_lt.
      * apply Hscore in Hsc' as ->. apply Qle_refl.
    + intros k' s' e' sc' [HP'|(-> & -> & ->)] Hadm' Hsc' Hb.
      * by eapply Hold_lt.
      * unfold before in Hb. lia.
  - rewrite !lookup_insert_ne by done.
    destruct (Hinv q) as [(Hp & Hs & Hno)|Hold].
    + left. repeat split; [done..|].
      intros k' s' e' [HP|(-> & -> & ->)]; [by apply Hno|].
      intros Hadm'. by apply Hq in Hadm'.
    + right.
      destruct Hold
        as (k0 & s0 & e0 & sc & t & HP & Hadm0 & Hsc0 & Ht0 & Hp & Hs & Hmax
            & Hfirst).
      exists k0, s0, e0, sc, t. repeat split; try done; [by left| |].
      * intros k' s' e' sc' [HP'|(-> & -> & ->)] Hadm' Hsc'; [by eapply Hmax|].
        by apply Hq in Hadm'.
      * intros k' s' e' sc' [HP'|(-> & -> & ->)] Hadm' Hsc' Hb;
          [by eapply Hfirst|].
        by apply Hq in Hadm'.
Qed.

Lemma adm_bounds q k s e :
  adm q k s e ->
  exists result feature,
    all_results !! k = Some result /\
    id2feature_of all_features !! r_unique_id result = Some feature /\
    0 <= s /\ s <= e /\ e < ntokens feature /\ e < s + max_answer_length - 1.
Proof.
  intros (r & f & ex & Hr & Hfe & Hexa & Hq & Hse & Hlen & Hms & Hme & _).
  exists r, f. repeat split; try done.
  all: destruct Hwf as [Hfeat _];
    destruct (Hfeat f (id2feature_of_elem _ _ _ Hfe)) as [_ Hkeys];
    pose proof (Hkeys _ Hms); pose proof (Hkeys _ Hme); lia.
Qed.

(** *** One result *)

Section OneResult.
Variables (k : nat) (result : Result) (feature : Feature) (example : Example).
Hypothesis Hk : all_results !! k = Some result.
Hypothesis Hf : id2feature_of all_features !! r_unique_id result = Some feature.
Hypothesis Hex : all_examples !! f_example_index feature = Some example.

Lemma adm_question q s e : adm q k s e -> q = ex_qas_id example.
Proof.
  intros (r & f & ex & Hr & Hfe & Hexa & Hq & _).
  assert (r = result) as -> by congruence.
  assert (f = feature) as -> by congruence.
  congruence.
Qed.

Lemma cscore_unique s e score score' :
  getitem2 (r_all_logits result) s e = Ok score ->
  cscore k s e score' -> score' = score.
Proof.
  intros Hs (r & Hr & Hs'). assert (r = result) as -> by congruence. congruence.
Qed.

Lemma adm_range q s e :
  adm q k s e ->
  0 <= s /\ s <= e /\ e < ntokens feature /\ e < s + max_answer_length - 1.
Proof.
  intros (r & f & ex & Hr & Hfe & Hexa & Hq & Hse & Hlen & Hms & Hme & _).
  assert (r = result) as -> by congruence.
  assert (f = feature) as -> by congruence.
  destruct Hwf as [Hfeat _].
  destruct (Hfeat feature (id2feature_of_elem _ _ _ Hf)) as [_ Hkeys].
  pose proof (Hkeys _ Hms). pose proof (Hkeys _ Hme). lia.
Qed.

Lemma wp_span_step (s e : Z) predictions scores vec_count :
  0 <= s < ntokens feature -> s <= e < ntokens feature ->
  e < s + max_answer_length - 1 ->
  inv (before k s e) predictions scores ->
  exists predictions' scores' vec_count',
    wp_span basic_tokenize example feature result (ex_qas_id example)
      do_lower_case verbose_logging threshold s
      (predictions, scores, vec_count) e
    = Ok (predictions', scores', vec_count') /\
    inv (before k s (e + 1)) predictions' scores'.
Proof.
  intros Hs He Hlen Hinv.
  assert (forall P predictions' scores',
            inv (fun k' s' e' => P k' s' e' \/ (k' = k /\ s' = s /\ e' = e))
              predictions' scores' ->
            (forall k' s' e', P k' s' e' <-> before k s e k' s' e') ->
            inv (before k s (e + 1)) predictions' scores') as Hnext.
  { intros P p' s' H HP. eapply inv_ext; [|exact H].
    intros q k' s0 e0 _. rewrite before_next, HP. done. }
  assert (forall vc : Z, (forall q, ~ adm q k s e) ->
            exists predictions' scores' (vec_count' : Z),
              @Ok (gmap string string * gmap string Q * Z)
                (predictions, scores, vc)
              = Ok (predictions', scores', vec_count') /\
              inv (before k s (e + 1)) predictions' scores') as Hskip.
  { intros vc Hno. exists predictions, scores, vc. split; [done|].
    apply (Hnext (before k s e)); [by apply inv_skip|done]. }
  unfold wp_span.
  destruct (bool_decide (is_Some (f_token_to_word_map feature !! s))) eqn:Hms;
    simpl.
  2: { apply Hskip. intros q (r & f & ex & Hr & Hfe & _ & _ & _ & _ & Hm & _).
       assert (r = result) as -> by congruence.
       assert (f = feature) as -> by congruence.
       apply bool_decide_eq_false in Hms. done. }
  destruct (bool_decide (is_Some (f_token_to_word_map feature !! e))) eqn:Hme;
    simpl.
  2: { apply Hskip. intros q (r & f & ex & Hr & Hfe & _ & _ & _ & _ & _ & Hm & _).
       assert (r = result) as -> by congruence.
       assert (f = feature) as -> by congruence.
       apply bool_decide_eq_false in Hme. done. }
  destruct (default false (f_token_is_max_context feature !! s)) eqn:Hmc; simpl.
  2: { apply Hskip.
       intros q (r & f & ex & Hr & Hfe & _ & _ & _ & _ & _ & _ & Hm & _).
       assert (r = result) as -> by congruence.
       assert (f = feature) as -> by congruence. congruence. }
  apply bool_decide_eq_true in Hms, Hme.
  destruct Hwf as [_ Hres].
  destruct (Hres result) as (f & Hf' & Hfs & Hfe & Hlogits);
    [apply list_elem_of_lookup; eauto|].
  assert (f = feature) as -> by congruence.
  assert (exists fs, getitem (r_filter_start_logits result) s = Ok fs) as [fs Hgs].
  { unfold getitem. destruct (Z.ltb_spec s 0); [lia|].
    destruct (r_filter_start_logits result !! Z.to_nat s) eqn:E; [by eexists|].
    apply lookup_ge_None in E. lia. }
  assert (exists fe, getitem (r_filter_end_logits result) e = Ok fe) as [fe Hge].
  { unfold getitem. destruct (Z.ltb_spec e 0); [lia|].
    destruct (r_filter_end_logits result !! Z.to_nat e) eqn:E; [by eexists|].
    apply lookup_ge_None in E. lia. }
  rewrite Hgs, Hge. simpl.
  destruct (Qltb fs threshold || Qltb fe threshold) eqn:Hfilter.
  { apply Hskip.
    intros q (r & f & ex & Hr & Hfe' & _ & _ & _ & _ & _ & _ & _
              & fs' & fe' & Hgs' & Hge' & Hnfs & Hnfe).
    assert (r = result) as -> by congruence.
    assert (fs' = fs) as -> by congruence.
    assert (fe' = fe) as -> by congruence.
    apply orb_true_iff in Hfilter as [H|H]; apply Qltb_true in H; done. }
  apply orb_false_iff in Hfilter as [Hfs' Hfe'].
  apply Qltb_false in Hfs', Hfe'.
  assert (adm (ex_qas_id example) k s e) as Hadm.
  { exists result, feature, example. repeat split; try done; try lia.
    exists fs, fe. repeat split; try done; by apply Qle_not_lt. }
  destruct (Hlogits s e ltac:(lia) ltac:(lia)) as [score Hscore].
  rewrite Hscore. simpl.
  assert (exists orig_text start_pos end_pos,
            get_final_text_ basic_tokenize example feature s e do_lower_case
              verbose_logging = Ok (orig_text, start_pos, end_pos))
    as (ot & sp & ep & Htext).
  { unfold get_final_text_. destruct Hms as [ws ->], Hme as [we ->]. simpl.
    destruct (get_final_text _ _ _ _ _). by eexists _, _, _. }
  assert (ctext k s e (str_slice ot sp ep)) as Hctext.
  { by exists result, feature, example, ot, sp, ep. }
  assert (cscore k s e score) as Hcscore by (by exists result).
  destruct (scores !! ex_qas_id example) as [best|] eqn:Hbest.
  - destruct (Qgtb score best) eqn:Hgt.
    + rewrite Htext. simpl. eexists _, _, _. split; [done|].
      apply (Hnext (before k s e)); [|done].
      eapply inv_update; eauto.
      * intros q. apply adm_question.
      * intros sc'. by apply cscore_unique.
      * rewrite Hbest. by apply Qgtb_true.
    + eexists _, _, _. split; [done|].
      apply (Hnext (before k s e)); [|done].
      eapply inv_keep; eauto.
      * intros q. apply adm_question.
      * intros sc'. by apply cscore_unique.
      * unfold before. lia.
      * by apply Qgtb_false.
  - rewrite Htext. simpl. eexists _, _, _. split; [done|].
    apply (Hnext (before k s e)); [|done].
    eapply inv_update; eauto.
    + intros q. apply adm_question.
    + intros sc'. by apply cscore_unique.
    + by rewrite Hbest.
Qed.

Lemma wp_inner_loop (s : Z) predictions scores vec_count :
  0 <= s < ntokens feature ->
  inv (before k s s) predictions scores ->
  exists predictions' scores' vec_count',
    foldM (wp_span basic_tokenize example feature result (ex_qas_id example)
             do_lower_case verbose_logging threshold s)
          (predictions, scores, vec_count)
          (range s (Z.min (ntokens feature) (s + max_answer_length - 1)))
    = Ok (predictions', scores', vec_count') /\
    inv (before k (s + 1) (s + 1)) predictions' scores'.
Proof.
  intros Hs Hinv.
  destruct (foldM_range_inv
              (fun e (st : gmap string string * gmap string Q * Z) =>
                 inv (before k s e) (fst (fst st)) (snd (fst st)))
              (wp_span basic_tokenize example feature result (ex_qas_id example)
                 do_lower_case verbose_logging threshold s)
              s (Z.min (ntokens feature) (s + max_answer_length - 1))
              (predictions, scores, vec_count))
    as ([[p' s'] vc'] & Hfold & Hend); [done| |].
  - intros e [[p0 s0] vc0] He H0. simpl in H0.
    destruct (wp_span_step s e p0 s0 vc0) as (p1 & s1 & vc1 & Hstep & H1);
      [lia..|done|].
    by exists (p1, s1, vc1).
  - exists p', s', vc'. split; [done|]. simpl in Hend.
    eapply inv_ext; [|exact Hend].
    intros q k' s0 e0 Hadm. unfold before. split.
    + lia.
    + intros [Hlt|[-> Hrest]]; [by left|].
      apply adm_range in Hadm. right. split; [done|]. lia.
Qed.

Lemma wp_spans_loop predictions scores vec_count :
  inv (before k 0 0) predictions scores ->
  exists predictions' scores' vec_count',
    wp_spans basic_tokenize example feature result (ex_qas_id example)
      max_answer_length do_lower_case verbose_logging threshold
      (predictions, scores, vec_count)
    = Ok (predictions', scores', vec_count') /\
    inv (before (S k) 0 0) predictions' scores'.
Proof.
  intros Hinv. unfold wp_spans.
  destruct (foldM_range_inv
              (fun s (st : gmap string string * gmap string Q * Z) =>
                 inv (before k s s) (fst (fst st)) (snd (fst st)))
              (fun st start_index =>
                 foldM (wp_span basic_tokenize example feature result
                          (ex_qas_id example) do_lower_case verbose_logging
                          threshold start_index)
                       st
                       (range start_index
                          (Z.min (ntokens feature)
                             (start_index + max_answer_length - 1))))
              0 (ntokens feature) (predictions, scores, vec_count))
    as ([[p' s'] vc'] & Hfold & Hend); [done| |].
  - intros s [[p0 s0] vc0] Hs H0. simpl in H0.
    destruct (wp_inner_loop s p0 s0 vc0) as (p1 & s1 & vc1 & Hstep & H1);
      [lia|done|].
    by exists (p1, s1, vc1).
  - exists p', s', vc'. split; [done|]. simpl in Hend.
    eapply inv_ext; [|exact Hend].
    intros q k' s0 e0 Hadm. unfold before.
    assert (0 <= ntokens feature) by (unfold ntokens; lia).
    split.
    + lia.
    + intros [Hlt|[-> Hrest]].
      * destruct (decide (k' = k)) as [->|]; [|left; lia].
        apply adm_range in Hadm. right. split; [done|]. lia.
      * apply adm_bounds in Hadm as (? & ? & _ & _ & ?). lia.
Qed.

Lemma wp_result_step (id2example : gmap Z Example) predictions scores
    vec_count token_count loss :
  id2example !! r_unique_id result = Some example ->
  inv (before k 0 0) predictions scores ->
  exists predictions' scores' vec_count',
    wp_result basic_tokenize (id2feature_of all_features) id2example
      max_answer_length do_lower_case verbose_logging threshold
      (predictions, scores, vec_count, token_count, loss) result
    = Ok (predictions', scores', vec_count', token_count + ntokens feature,
          loss ++ [r_loss result]) /\
    inv (before (S k) 0 0) predictions' scores'.
Proof.
  intros Hid Hinv. unfold wp_result. rewrite Hf, Hid. simpl.
  destruct (wp_spans_loop predictions scores vec_count Hinv)
    as (p' & s' & vc' & Hloop & Hinv').
  rewrite Hloop. simpl.
  exists p', s', vc'. split; [|done].
  destruct (Hinv' (ex_qas_id example)) as [(Hp & Hs & _)|Hbest].
  - by rewrite Hp, Hs.
  - destruct Hbest as (? & ? & ? & ? & ? & _ & _ & _ & _ & Hp & Hs & _).
    by rewrite Hp, Hs.
Qed.
End OneResult.

(** *** All results *)

Lemma id2example_of_Ok :
  exists id2example,
    id2example_of all_examples (id2feature_of all_features) = Ok id2example /\
    forall u feature example,
      id2feature_of all_features !! u = Some feature ->
      all_examples !! f_example_index feature = Some example ->
      id2example !! u = Some example.
Proof.
  unfold id2example_of. eexists. split.
  - rewrite bool_decide_eq_true_2; [done|].
    intros u f Hu. destruct Hwf as [Hfeat _].
    by apply Hfeat, (id2feature_of_elem _ u).
  - intros u f ex Hu Hex. rewrite lookup_omap, Hu. done.
Qed.

Lemma write_predictions_loop (id2example : gmap Z Example) :
  (forall u feature example,
     id2feature_of all_features !! u = Some feature ->
     all_examples !! f_example_index feature = Some example ->
     id2example !! u = Some example) ->
  exists predictions scores vec_count token_count loss,
    foldM (wp_result basic_tokenize (id2feature_of all_features) id2example
             max_answer_length do_lower_case verbose_logging threshold)
          (∅, ∅, 0, 0, []) all_results
    = Ok (predictions, scores, vec_count, token_count, loss) /\
    inv (before (length all_results) 0 0) predictions scores /\
    length loss = length all_results /\
    0 <= token_count /\
    forall k result feature,
      all_results !! k = Some result ->
      id2feature_of all_features !! r_unique_id result = Some feature ->
      ntokens feature <= token_count.
Proof.
  intros Hid.
  destruct (foldM_inv
              (fun k (st : gmap string string * gmap string Q * Z * Z * list Q) =>
                 let '(predictions, scores, _, token_count, loss) := st in
                 inv (before k 0 0) predictions scores /\
                 length loss = k /\
                 0 <= token_count /\
                 forall k' result feature,
                   (k' < k)%nat ->
                   all_results !! k' = Some result ->
                   id2feature_of all_features !! r_unique_id result = Some feature ->
                   ntokens feature <= token_count)
              (wp_result basic_tokenize (id2feature_of all_features) id2example
                 max_answer_length do_lower_case verbose_logging threshold)
              all_results (∅, ∅, 0, 0, []))
    as ([[[[p s] vc] tc] l] & Hfold & Hinv & Hlen & Htc & Htok).
  - split; [|split; [done|split; [lia|intros; lia]]].
    intros q. left. repeat split; [apply lookup_empty..|].
    intros k s e Hb Hadm. apply adm_bounds in Hadm as (? & ? & _ & _ & ?).
    unfold before in Hb. lia.
  - intros k result [[[[p0 s0] vc0] tc0] l0] Hk (Hinv & Hlen & Htc & Htok).
    destruct Hwf as [Hfeat Hres].
    destruct (Hres result) as (feature & Hf & _);
      [apply list_elem_of_lookup; eauto|].
    destruct (Hfeat feature (id2feature_of_elem _ _ _ Hf)) as [[example Hex] _].
    destruct (wp_result_step k result feature example Hk Hf Hex id2example
                p0 s0 vc0 tc0 l0 (Hid _ _ _ Hf Hex) Hinv)
      as (p1 & s1 & vc1 & Hstep & Hinv1).
    eexists. split; [exact Hstep|].
    assert (0 <= ntokens feature) by (unfold ntokens; lia).
    split; [done|]. split; [|split; [lia|]].
    + rewrite length_app. simpl. lia.
    + intros k' r' f' Hlt Hk' Hf'.
      destruct (decide (k' = k)) as [->|].
      * assert (r' = result) as -> by congruence.
        assert (f' = feature) as -> by congruence. lia.
      * specialize (Htok k' r' f' ltac:(lia) Hk' Hf'). lia.
  - exists p, s, vc, tc, l. repeat split; try done.
    intros k result feature Hk. apply (Htok k); [|done]. by eapply lookup_lt_Some.
Qed.
End WritePredictionsProofs.

(** C3: for a question with an admissible candidate, [write_predictions]
    returns, the prediction it records for the question is the text of an
    admissible candidate whose score [all_logits[start, end]] no admissible
    candidate of the question exceeds (the first such candidate in the
    order of the loops), and the score file has the negation of that
    score. The features map token positions only and the score
    arrays of a result cover the tokens of its feature. *)
Theorem write_predictions_best (basic_tokenize : bool -> string -> list string)
    (all_examples : list Example) (all_features : list Feature)
    (all_results : list Result) (max_answer_length : Z)
    (do_lower_case verbose_logging : bool) (threshold : Q) (q : string) :
  well_formed all_examples all_features all_results ->
  (exists k start_index end_index,
     admissible all_examples all_features all_results max_answer_length
       threshold q k start_index end_index) ->
  exists predictions scores_file mean_loss,
    write_predictions basic_tokenize all_examples all_features all_results
      max_answer_length do_lower_case verbose_logging threshold
    = Ok (predictions, scores_file, mean_loss) /\
    exists k start_index end_index score text,
      admissible all_examples all_features all_results max_answer_length
        threshold q k start_index end_index /\
      candidate_score all_results k start_index end_index score /\
      candidate_text basic_tokenize all_examples all_features all_results
        do_lower_case verbose_logging k start_index end_index text /\
      (forall k' start_index' end_index' score',
         admissible all_examples all_features all_results max_answer_length
           threshold q k' start_index' end_index' ->
         candidate_score all_results k' start_index' end_index' score' ->
         (score' <= score)%Q) /\
      (forall k' start_index' end_index' score',
         admissible all_examples all_features all_results max_answer_length
           threshold q k' start_index' end_index' ->
         candidate_score all_results k' start_index' end_index' score' ->
         before k start_index end_index k' start_index' end_index' ->
         (score' < score)%Q) /\
      predictions !! q = Some text /\
      scores_file !! q = Some (- score)%Q.
Proof.
  intros Hwf (k0 & s0 & e0 & Hadm0).
  destruct (id2example_of_Ok all_examples all_features all_results Hwf)
    as (id2example & Hid & Hlook).
  destruct (write_predictions_loop basic_tokenize all_examples all_features
              all_results max_answer_length do_lower_case verbose_logging
              threshold Hwf id2example Hlook)
    as (p & s & vc & tc & l & Hfold & Hinv & Hlen & Htc & Htok).
  assert (forall q' k s e,
            admissible all_examples all_features all_results max_answer_length
              threshold q' k s e ->
            before (length all_results) 0 0 k s e) as Hall.
  { intros q' k' s' e' (r & _ & _ & Hr & _). left. by eapply lookup_lt_Some. }
  pose proof (adm_bounds all_examples all_features all_results
                max_answer_length threshold Hwf _ _ _ _ Hadm0)
    as (r0 & f0 & Hr0 & Hf0 & Hrange).
  assert (tc <> 0) as Htc0.
  { specialize (Htok _ _ _ Hr0 Hf0). lia. }
  assert (length l <> 0%nat) as Hl0.
  { rewrite Hlen. apply lookup_lt_Some in Hr0. lia. }
  unfold write_predictions. rewrite Hid. simpl. rewrite Hfold. simpl.
  destruct (Z.eqb_spec tc 0); [done|].
  destruct (Z.eqb_spec (Z.of_nat (length l)) 0); [lia|].
  eexists _, _, _. split; [done|].
  destruct (Hinv q) as [(_ & _ & Hno)|Hbest].
  - destruct (Hno k0 s0 e0); [by eapply Hall|done].
  - destruct Hbest
      as (k & s1 & e1 & sc & t & _ & Hadm & Hsc & Ht & Hp & Hs & Hmax & Hfirst).
    exists k, s1, e1, sc, t. repeat split; try done.
    + intros k' s' e' sc' Hadm' Hsc'. eapply Hmax; [|done..]. by eapply Hall.
    + intros k' s' e' sc' Hadm' Hsc'. eapply Hfirst; [|done..]. by eapply Hall.
    + by rewrite lookup_fmap, Hs.
Qed.

Lemma sample_well_formed :
  well_formed [sample_example] [sample_feature] [sample_result].
Proof.
  split.
  - intros feature Hin. apply list_elem_of_singleton in Hin as ->.
    split; [by eexists|]. intros i [w Hi]. simpl in Hi.
    change (ntokens sample_feature) with 5.
    destruct (decide (i = 1)) as [->|]; [lia|].
    destruct (decide (i = 2)) as [->|]; [lia|].
    destruct (decide (i = 3)) as [->|]; [lia|].
    rewrite !lookup_insert_ne, lookup_singleton_ne in Hi by done. done.
  - intros result Hin. apply list_elem_of_singleton in Hin as ->.
    exists sample_feature.
    split; [by vm_compute|]. split; [by vm_compute|]. split; [by vm_compute|].
    intros i j Hi Hj. change (ntokens sample_feature) with 5 in Hi, Hj.
    assert (i = 0 \/ i = 1 \/ i = 2 \/ i = 3 \/ i = 4) as Hci by lia.
    assert (j = 0 \/ j = 1 \/ j = 2 \/ j = 3 \/ j = 4) as Hcj by lia.
    destruct Hci as [->|[->|[->|[->| ->]]]];
      destruct Hcj as [->|[->|[->|[->| ->]]]]; by eexists.
Qed.

Example write_predictions_sample :
  exists predictions scores_file,
    write_predictions punctuation_tokenize [sample_example] [sample_feature]
      [sample_result] 3 true false 0 = Ok (predictions, scores_file, 1 # 4) /\
    predictions !! "q1" = Some "Steve Smith" /\
    scores_file !! "q1" = Some (- (3))%Q.
Proof. eexists _, _. split; [by vm_compute|]. split; by vm_compute. Qed.

Lemma write_predictions_best_witness :
  well_formed [sample_example] [sample_feature] [sample_result] /\
  admissible [sample_example] [sample_feature] [sample_result] 3 0 "q1" 0 1 2 /\
  exists predictions scores_file mean_loss,
    write_predictions punctuation_tokenize [sample_example] [sample_feature]
      [sample_result] 3 true false 0
    = Ok (predictions, scores_file, mean_loss) /\
    exists k start_index end_index score text,
      admissible [sample_example] [sample_feature] [sample_result] 3 0 "q1"
        k start_index end_index /\
      candidate_score [sample_result] k start_index end_index score /\
      candidate_text punctuation_tokenize [sample_example] [sample_feature]
        [sample_result] true false k start_index end_index text /\
      (forall k' start_index' end_index' score',
         admissible [sample_example] [sample_feature] [sample_result] 3 0 "q1"
           k' start_index' end_index' ->
         candidate_score [sample_result] k' start_index' end_index' score' ->
         (score' <= score)%Q) /\
      (forall k' start_index' end_index' score',
         admissible [sample_example] [sample_feature] [sample_result] 3 0 "q1"
           k' start_index' end_index' ->
         candidate_score [sample_result] k' start_index' end_index' score' ->
         before k start_index end_index k' start_index' end_index' ->
         (score' < score)%Q) /\
      predictions !! "q1" = Some text /\
      scores_file !! "q1" = Some (- score)%Q.
Proof.
  assert (admissible [sample_example] [sample_feature] [sample_result] 3 0
            "q1" 0 1 2) as Hadm.
  { exists sample_result, sample_feature, sample_example.
    split; [reflexivity|]. split; [by vm_compute|]. split; [reflexivity|].
    split; [reflexivity|]. split; [lia|]. split; [lia|].
    split; [by eexists|]. split; [by eexists|]. split; [reflexivity|].
    exists 1%Q, 1%Q. split; [reflexivity|]. split; [reflexivity|].
    split; by vm_compute. }
  split; [exact sample_well_formed|]. split; [exact Hadm|].
  apply (write_predictions_best punctuation_tokenize [sample_example]
           [sample_feature] [sample_result] 3 true false 0 "q1"
           sample_well_formed).
  by exists 0%nat, 1, 2.
Defined.

(* ================================================================= *)
(** * Further properties of the code *)

(** ** [_check_is_max_context]: one span for each covered position *)

Section MaxContextCoverProofs.
Context {F : Type} `{PyFloat F}.

Lemma cover_inv_step pre position (st : option F * option nat) sp :
  cover_inv pre position st ->
  cover_inv (pre ++ [sp]) position
    (max_context_body position st (length pre, sp)).
Proof.
  intros Hinv. unfold max_context_body.
  assert (span_contains sp position =
            negb (position <? ds_start sp)
            && negb (position >? ds_start sp + ds_length sp - 1)) as Hc by done.
  destruct (position <? ds_start sp) eqn:H1;
    [|destruct (position >? ds_start sp + ds_length sp - 1) eqn:H2];
    simpl in Hc.
  - destruct st as [[s|] [k|]]; simpl in *; try done.
    + destruct Hinv as (sp0 & Hk & Hc0). exists sp0.
      split; [|done]. rewrite lookup_app_l; [done|by eapply lookup_lt_Some].
    + intros j sp' Hj. apply lookup_app_Some in Hj as [Hj|[_ Hj]]; [eauto|].
      destruct (j - length pre)%nat; simpl in Hj; [|done]. by injection Hj as <-.
  - destruct st as [[s|] [k|]]; simpl in *; try done.
    + destruct Hinv as (sp0 & Hk & Hc0). exists sp0.
      split; [|done]. rewrite lookup_app_l; [done|by eapply lookup_lt_Some].
    + intros j sp' Hj. apply lookup_app_Some in Hj as [Hj|[_ Hj]]; [eauto|].
      destruct (j - length pre)%nat; simpl in Hj; [|done]. by injection Hj as <-.
  - assert (cover_inv (pre ++ [sp]) position
              (Some (span_score sp position), Some (length pre))) as Hnew.
    { simpl. exists sp. split; [|done].
      by rewrite lookup_app_r, Nat.sub_diag. }
    destruct st as [[s|] [k|]]; simpl in *; try done.
    destruct (fgt _ s); [exact Hnew|].
    destruct Hinv as (sp0 & Hk & Hc0). exists sp0.
    split; [|done]. rewrite lookup_app_l; [done|by eapply lookup_lt_Some].
Qed.

Lemma cover_inv_fold suf :
  forall pre position (st : option F * option nat),
    cover_inv pre position st ->
    cover_inv (pre ++ suf) position
      (fold_left (max_context_body position)
         (enumerate_from (length pre) suf) st).
Proof.
  induction suf as [|sp suf IH]; intros pre position st Hinv; simpl.
  - by rewrite app_nil_r.
  - replace (pre ++ sp :: suf) with ((pre ++ [sp]) ++ suf)
      by (by rewrite <- app_assoc).
    replace (S (length pre)) with (length (pre ++ [sp]))
      by (rewrite length_app; simpl; lia).
    apply IH. by apply cover_inv_step.
Qed.
End MaxContextCoverProofs.

(** X1: whatever arithmetic computes the scores, at most one span index is
    the max-context one for a position, one is exactly when some span
    contains the position, and the span it names contains the position. *)
Theorem check_is_max_context_one_span (F : Type) `{PyFloat F}
    (doc_spans : list DocSpan) (position : Z) :
  (forall i j,
     _check_is_max_context (F := F) doc_spans i position = true ->
     _check_is_max_context (F := F) doc_spans j position = true -> i = j) /\
  (forall i,
     _check_is_max_context (F := F) doc_spans i position = true ->
     exists sp, doc_spans !! i = Some sp /\ span_contains sp position = true) /\
  ((exists i, _check_is_max_context (F := F) doc_spans i position = true) <->
   (exists j sp, doc_spans !! j = Some sp /\ span_contains sp position = true)).
Proof.
  unfold _check_is_max_context, enumerate.
  pose proof (cover_inv_fold (F := F) doc_spans [] position (None, None)) as Hinv.
  simpl in Hinv.
  destruct (fold_left _ _ _) as [bs bi].
  assert (cover_inv doc_spans position (bs, bi)) as Hc
    by (apply Hinv; intros [|?] ?; done).
  clear Hinv. split; [|split].
  - intros i j Hi Hj. apply bool_decide_eq_true in Hi, Hj. congruence.
  - intros i Hi. apply bool_decide_eq_true in Hi. subst bi.
    destruct bs; simpl in Hc; [done|done].
  - split.
    + intros [i Hi]. apply bool_decide_eq_true in Hi. subst bi.
      destruct bs; simpl in Hc; [|done]. eauto.
    + intros (j & sp & Hj & Hsp).
      destruct bs as [s|], bi as [k|]; simpl in Hc; try done.
      * exists k. by apply bool_decide_eq_true.
      * rewrite (Hc _ _ Hj) in Hsp. done.
Qed.

(** ** Quantization: order and saturation *)

Lemma np_round_wd (x y : Q) : (x == y)%Q -> np_round x = np_round y.
Proof.
  intros Hxy. unfold np_round.
  assert (Qfloor x = Qfloor y) as -> by (by apply Qfloor_comp).
  assert ((x - inject_Z (Qfloor y) ?= 1 # 2) = (y - inject_Z (Qfloor y) ?= 1 # 2))%Q
    as ->; [|done].
  apply Qcompare_comp; [|done]. by rewrite Hxy.
Qed.

Lemma np_round_Z (z : Z) : np_round (inject_Z z) = z.
Proof.
  unfold np_round. rewrite Qfloor_Z.
  assert ((inject_Z z - inject_Z z ?= 1 # 2) = Lt)%Q as ->; [|done].
  rewrite <- Qlt_alt. lra.
Qed.

Lemma np_round_mono (x y : Q) : (x <= y)%Q -> np_round x <= np_round y.
Proof.
  intros Hxy.
  pose proof (Qfloor_resp_le _ _ Hxy) as Hfl.
  pose proof (Qfloor_le x) as Hxl. pose proof (Qlt_floor x) as Hxh.
  pose proof (Qfloor_le y) as Hyl. pose proof (Qlt_floor y) as Hyh.
  rewrite inject_Z_plus in Hxh, Hyh. change (inject_Z 1) with 1%Q in Hxh, Hyh.
  destruct (decide (Qfloor x = Qfloor y)) as [Heq|Hne].
  - unfold np_round. rewrite <- Heq.
    destruct (x - inject_Z (Qfloor x) ?= 1 # 2)%Q eqn:Ex;
      destruct (y - inject_Z (Qfloor x) ?= 1 # 2)%Q eqn:Ey;
      try (destruct (Z.even (Qfloor x))); try lia; exfalso;
      repeat match goal with
             | H : (_ ?= _)%Q = Eq |- _ => apply Qeq_alt in H
             | H : (_ ?= _)%Q = Lt |- _ => apply Qlt_alt in H
             | H : (_ ?= _)%Q = Gt |- _ => apply Qgt_alt in H
             end; lra.
  - assert (Qfloor x + 1 <= Qfloor y) by lia.
    assert (np_round x <= Qfloor x + 1).
    { unfold np_round. destruct (_ ?= _)%Q; try destruct (Z.even _); lia. }
    assert (Qfloor y <= np_round y).
    { unfold np_round. destruct (_ ?= _)%Q; try destruct (Z.even _); lia. }
    lia.
Qed.

Lemma clip_range (x : Q) : (-128 # 1 <= clip x (-128 # 1) (127 # 1) <= 127 # 1)%Q.
Proof.
  unfold clip.
  destruct (Qltb x (-128 # 1)) eqn:H1; [lra|].
  destruct (Qgtb x (127 # 1)) eqn:H2; [lra|].
  apply Qltb_false in H1. apply Qgtb_false in H2. lra.
Qed.

Lemma clip_mono (x y : Q) :
  (x <= y)%Q ->
  (clip x (-128 # 1) (127 # 1) <= clip y (-128 # 1) (127 # 1))%Q.
Proof.
  intros Hxy. unfold clip.
  destruct (Qltb x (-128 # 1)) eqn:Hx1; destruct (Qltb y (-128 # 1)) eqn:Hy1;
    try destruct (Qgtb x (127 # 1)) eqn:Hx2; try destruct (Qgtb y (127 # 1)) eqn:Hy2;
    repeat match goal with
           | H : Qltb _ _ = true |- _ => apply Qltb_true in H
           | H : Qltb _ _ = false |- _ => apply Qltb_false in H
           | H : Qgtb _ _ = true |- _ => apply Qgtb_true in H
           | H : Qgtb _ _ = false |- _ => apply Qgtb_false in H
           end; lra.
Qed.

(** With the default [keep_zeros=False] the cast to [int8] never wraps:
    the code is the rounded clipped value. *)
Lemma float_to_int8_unwrapped (num offset factor : Q) :
  float_to_int8 num offset factor false
  = np_round (clip ((num - offset) * factor) (-128 # 1) (127 # 1)).
Proof.
  unfold float_to_int8. apply astype_int8_id.
  pose proof (clip_range ((num - offset) * factor)) as [Hlo Hhi].
  by apply (np_round_range _ (-128) 127).
Qed.

(** X2: for a positive [factor], [float_to_int8] keeps the order of the
    values: a larger value never gets a smaller code. *)
Theorem float_to_int8_monotone (num num' offset factor : Q) :
  (0 < factor)%Q -> (num <= num')%Q ->
  float_to_int8 num offset factor false <= float_to_int8 num' offset factor false.
Proof.
  intros Hf Hle. rewrite !float_to_int8_unwrapped.
  apply np_round_mono, clip_mono. nra.
Qed.

Lemma float_to_int8_monotone_witness :
  float_to_int8 (37 # 100) (1 # 10) (20 # 1) false
  <= float_to_int8 (2 # 5) (1 # 10) (20 # 1) false.
Proof.
  apply (float_to_int8_monotone (37 # 100) (2 # 5) (1 # 10) (20 # 1));
    by vm_compute.
Defined.



(** ** Quantization with [keep_zeros], in floating-point arithmetic *)

Lemma np_round_small (y : Q) : (y == 0)%Q \/ (Qabs y < 1 # 2)%Q -> np_round y = 0.
Proof.
  intros [Hy|Hy].
  - rewrite (np_round_wd y (inject_Z 0)); [apply np_round_Z|done].
  - apply Qabs_Qlt_condition in Hy as [Hlo Hhi].
    assert (-1 <= np_round y <= 1) as Hr.
    { apply np_round_range; unfold inject_Z; lra. }
    destruct (np_round_near y) as [H1 H2].
    destruct (decide (np_round y = 0)) as [|Hne]; [done|].
    destruct (decide (np_round y = 1)) as [E|].
    + rewrite E in H1. change (inject_Z 1) with 1%Q in H1. lra.
    + assert (np_round y = -1) as E by lia.
      rewrite E in H2. change (inject_Z (-1)) with (-1 # 1)%Q in H2. lra.
Qed.

(** The product of two finite numbers is not [nan]. *)
Lemma SFmul_finite (prec emax : Z) (x y : spec_float) :
  SF_finite x = true -> SF_finite y = true ->
  SFmul prec emax x y <> S754_nan.
Proof.
  destruct x as [sx|sx| |sx mx ex], y as [sy|sy| |sy my ey]; try done.
  intros _ _. unfold SFmul.
  destruct (binary_round_aux_cases prec emax (xorb sx sy)
              (Z.pos (mx * my)) (ex + ey) loc_Exact ltac:(lia))
    as [->|[->|(m & e & ->)]]; done.
Qed.

Lemma SFsub_zero_finite (prec emax : Z) (s : bool) (y : spec_float) :
  SF_finite y = true -> SF_finite (SFsub prec emax (S754_zero s) y) = true.
Proof. destruct y as [sy|sy| |sy my ey]; try done. by destruct s, sy. Qed.

Lemma clip_fp_Some (out : spec_float) :
  out <> S754_nan -> exists q, clip_fp out = Some q.
Proof. destruct out; try done; by eexists. Qed.

(** The code 0 is decoded to a zero. *)
Lemma int8_to_float_zero (offset factor : spec_float) :
  SF_finite (SF_convert 24 128 offset) = true ->
  SF_finite_nonzero (SF_convert 24 128 factor) = true ->
  exists s, int8_to_float 0 offset factor true = S754_zero s.
Proof.
  unfold int8_to_float. simpl negb. cbv iota.
  change (0 =? 0) with true. cbv iota.
  change (SF_of_Z 24 128 0) with (S754_zero false).
  destruct (SF_convert 24 128 factor) as [sf|sf| |sf mf ef]; try done.
  destruct (SF_convert 24 128 offset) as [so|so| |so mo eo]; try done;
    intros _ _; simpl.
  - destruct sf, so; by eexists.
  - by eexists.
Qed.

(** X5: with [keep_zeros], for an offset that is finite and a factor that
    is finite and not zero in the format of the array and in binary32, a
    zero is encoded as 0 and decoded as a zero, and so is every value
    whose scaled value, as the code computes it, is less than a half in
    absolute value: it is decoded as 0 and not as a value next to the
    offset. *)
Theorem keep_zeros_round_trip (prec emax : Z) (num offset factor : spec_float) :
  SF_finite (SF_convert prec emax offset) = true ->
  SF_finite_nonzero (SF_convert prec emax factor) = true ->
  SF_finite (SF_convert 24 128 offset) = true ->
  SF_finite_nonzero (SF_convert 24 128 factor) = true ->
  nonzero_fp num = false \/
  (SF_finite (scaled_fp prec emax num offset factor) = true /\
   (Qabs (SF2Q (scaled_fp prec emax num offset factor)) < 1 # 2)%Q) ->
  float_to_int8_fp prec emax num offset factor true = Some 0 /\
  exists s, int8_to_float 0 offset factor true = S754_zero s.
Proof.
  intros Ho Hf Ho32 Hf32 Hcase. split; [|by apply int8_to_float_zero].
  unfold float_to_int8_fp.
  destruct Hcase as [Hz|[Hfin Hsmall]].
  - rewrite Hz. destruct num as [s| | |]; try done.
    destruct (clip_fp_Some (scaled_fp prec emax (S754_zero s) offset factor))
      as [q ->].
    { unfold scaled_fp. apply SFmul_finite.
      - by apply SFsub_zero_finite.
      - by destruct (SF_convert prec emax factor). }
    cbn [mbind option_bind].
    rewrite np_round_small; [done|]. left. ring.
  - assert (clip_fp (scaled_fp prec emax num offset factor)
            = Some (SF2Q (scaled_fp prec emax num offset factor))) as ->.
    { destruct (scaled_fp prec emax num offset factor) as [s|s| |s m e];
        try done.
      apply Qabs_Qlt_condition in Hsmall as [Hlo Hhi].
      unfold clip_fp, clip.
      assert (Qltb (SF2Q (S754_finite s m e)) (-128 # 1) = false) as ->
        by (apply Qltb_false; lra).
      assert (Qgtb (SF2Q (S754_finite s m e)) (127 # 1) = false) as ->
        by (apply Qgtb_false; lra).
      done. }
    cbn [mbind option_bind].
    destruct (nonzero_fp num).
    + rewrite np_round_small; [done|]. right.
      assert (SF2Q (scaled_fp prec emax num offset factor) * 1
              == SF2Q (scaled_fp prec emax num offset factor))%Q as -> by ring.
      done.
    + rewrite np_round_small; [done|]. left. ring.
Qed.

Lemma keep_zeros_round_trip_witness :
  float_to_int8_fp 24 128 (S754_finite false 10506732 (-21)) (SF_of_Z 53 1024 5)
    (SF_of_Z 53 1024 20) true = Some 0 /\
  exists s,
    int8_to_float 0 (SF_of_Z 53 1024 5) (SF_of_Z 53 1024 20) true = S754_zero s.
Proof.
  apply (keep_zeros_round_trip 24 128 (S754_finite false 10506732 (-21))
           (SF_of_Z 53 1024 5) (SF_of_Z 53 1024 20));
    try (by vm_compute).
  right. by vm_compute.
Defined.

(** ** [compress_metadata] *)





(** ** [_compute_softmax] *)

Lemma sample_exp_pos (x : Q) : (0 < sample_exp x)%Q.
Proof.
  unfold sample_exp. destruct (Qle_bool 0 x) eqn:E.
  - apply Qle_bool_iff in E. lra.
  - assert (~ (0 <= x)%Q) as Hx by (rewrite <- Qle_bool_iff; congruence).
    assert (0 < 1 - x)%Q as Hpos by lra.
    assert (1 / (1 - x) == / (1 - x))%Q as -> by (field; lra).
    by apply Qinv_lt_0_compat.
Qed.

Lemma sample_exp_mono (x y : Q) : (x <= y)%Q -> (sample_exp x <= sample_exp y)%Q.
Proof.
  intros Hxy. unfold sample_exp.
  destruct (Qle_bool 0 x) eqn:Ex; destruct (Qle_bool 0 y) eqn:Ey.
  - lra.
  - apply Qle_bool_iff in Ex.
    assert (~ (0 <= y)%Q) by (rewrite <- Qle_bool_iff; congruence). lra.
  - assert (~ (0 <= x)%Q) as Hx by (rewrite <- Qle_bool_iff; congruence).
    apply Qle_bool_iff in Ey.
    assert (1 / (1 - x) <= 1)%Q; [|lra].
    apply Qle_shift_div_r; lra.
  - assert (~ (0 <= x)%Q) as Hx by (rewrite <- Qle_bool_iff; congruence).
    assert (~ (0 <= y)%Q) as Hy by (rewrite <- Qle_bool_iff; congruence).
    apply Qle_shift_div_l; [lra|].
    assert (1 / (1 - x) * (1 - y) == (1 - y) / (1 - x))%Q as -> by (field; lra).
    apply Qle_shift_div_r; lra.
Qed.

Section SoftmaxProofs.
Variable math_exp : Q -> Q.
Hypothesis math_exp_pos : forall x, (0 < math_exp x)%Q.

(** The first loop: the maximal score. *)
Lemma softmax_max_loop (scores : list Q) (a : Q) :
  exists m,
    fold_left (fun (max_score : option Q) score =>
                 match max_score with
                 | None => Some score
                 | Some m => if Qgtb score m then Some score else max_score
                 end) scores (Some a) = Some m /\
    (m = a \/ In m scores) /\ (a <= m)%Q /\
    forall s, In s scores -> (s <= m)%Q.
Proof.
  revert a. induction scores as [|x l IH]; intros a; simpl.
  - exists a. repeat split; [by left|lra|done].
  - destruct (Qgtb x a) eqn:E.
    + apply Qgtb_true in E. destruct (IH x) as (m & Hm & Hin & Hle & Hall).
      exists m. repeat split; [done| |lra|].
      * destruct Hin as [->|]; right; [by left|by right].
      * intros s [<-|Hs]; [done|by apply Hall].
    + apply Qgtb_false in E. destruct (IH a) as (m & Hm & Hin & Hle & Hall).
      exists m. repeat split; [done| |done|].
      * destruct Hin as [->|]; [by left|right; by right].
      * intros s [<-|Hs]; [lra|by apply Hall].
Qed.

(** The second loop: the exponentials and their sum. *)
Lemma softmax_exp_loop (m : Q) (scores : list Q) (exp_scores : list Q) (total : Q) :
  fold_left (fun (st : list Q * Q) score =>
               let '(exp_scores, total_sum) := st in
               (exp_scores ++ [math_exp (score - m)],
                total_sum + math_exp (score - m))%Q)
            scores (exp_scores, total)
  = (exp_scores ++ map (fun score => math_exp (score - m)) scores,
     exp_sum math_exp m scores total).
Proof.
  revert exp_scores total. induction scores as [|x l IH]; intros es t; simpl.
  - by rewrite app_nil_r.
  - rewrite IH. by rewrite <- app_assoc.
Qed.

Lemma exp_sum_ge (m : Q) (scores : list Q) (total : Q) :
  (total <= exp_sum math_exp m scores total)%Q /\
  forall s, In s scores ->
    (total + math_exp (s - m) <= exp_sum math_exp m scores total)%Q.
Proof.
  revert total. induction scores as [|x l IH]; intros t; simpl.
  - split; [lra|done].
  - destruct (IH (t + math_exp (x - m))%Q) as [Hge Hall].
    pose proof (math_exp_pos (x - m)). split; [unfold exp_sum in *; simpl; lra|].
    intros s [<-|Hs].
    + exact Hge.
    + specialize (Hall s Hs). unfold exp_sum in *. simpl. lra.
Qed.

Lemma exp_sum_pos (m : Q) (scores : list Q) :
  scores <> [] -> (0 < exp_sum math_exp m scores 0)%Q.
Proof.
  destruct scores as [|x l]; [done|]. intros _.
  destruct (exp_sum_ge m (x :: l) 0) as [_ Hall].
  specialize (Hall x (or_introl eq_refl)).
  pose proof (math_exp_pos (x - m)). lra.
Qed.

Lemma mapM_res_div (total : Q) (l : list Q) :
  Qeq_bool total 0 = false ->
  mapM_res (fun score =>
              if Qeq_bool total 0 then Raise ZeroDivisionError
              else Ok (score / total)%Q) l
  = Ok (map (fun score => (score / total)%Q) l).
Proof.
  intros E. induction l as [|x l IH]; [done|].
  cbn [mapM_res]. rewrite IH. by rewrite E.
Qed.

(** [_compute_softmax] in closed form. *)
Lemma compute_softmax_eq (scores : list Q) :
  scores <> [] ->
  exists m,
    In m scores /\ (forall s, In s scores -> (s <= m)%Q) /\
    _compute_softmax math_exp scores
    = Ok (map (fun score =>
                 (math_exp (score - m) / exp_sum math_exp m scores 0)%Q) scores).
Proof.
  destruct scores as [|x l]; [done|]. intros _.
  destruct (softmax_max_loop l x) as (m & Hm & Hin & Hle & Hall).
  exists m. split; [|split].
  - destruct Hin as [->|]; [by left|by right].
  - intros s [<-|Hs]; [done|by apply Hall].
  - unfold _compute_softmax.
    change (fold_left _ (x :: l) None) with
      (fold_left (fun (max_score : option Q) score =>
                    match max_score with
                    | None => Some score
                    | Some m => if Qgtb score m then Some score else max_score
                    end) l (Some x)).
    rewrite Hm. simpl or_raise. cbn [mbind res_bind].
    rewrite (softmax_exp_loop m (x :: l) [] 0).
    rewrite app_nil_l.
    assert (Qeq_bool (exp_sum math_exp m (x :: l) 0) 0 = false) as E.
    { destruct (Qeq_bool _ _) eqn:E; [|done]. apply Qeq_bool_iff in E.
      pose proof (exp_sum_pos m (x :: l) ltac:(done)). lra. }
    rewrite (mapM_res_div _ _ E). by rewrite map_map.
Qed.

Lemma Qsum_div_loop (e : Q -> Q) (T : Q) (l : list Q) (a t : Q) :
  (~ T == 0)%Q ->
  (fold_left Qplus (map (fun s => e s / T) l) a
   == a + (fold_left (fun t s => t + e s) l t - t) / T)%Q.
Proof.
  intros HT. revert a t. induction l as [|s l IH]; intros a t; simpl.
  - field. done.
  - rewrite (IH (a + e s / T)%Q (t + e s)%Q). field. done.
Qed.
End SoftmaxProofs.

(** X7: on a non-empty list [_compute_softmax] returns, for the maximal
    score [m], the values [exp(score - m) / sum], so that [math.exp] only
    gets arguments that are at most 0, and 0 for a maximal score. *)
Theorem compute_softmax_closed_form (math_exp : Q -> Q) (scores : list Q) :
  (forall x, (0 < math_exp x)%Q) -> scores <> [] ->
  exists m,
    In m scores /\ (forall s, In s scores -> (s - m <= 0)%Q) /\
    _compute_softmax math_exp scores
    = Ok (map (fun score =>
                 (math_exp (score - m) / exp_sum math_exp m scores 0)%Q) scores).
Proof.
  intros Hpos Hne.
  destruct (compute_softmax_eq math_exp Hpos scores Hne) as (m & Hin & Hall & Heq).
  exists m. repeat split; [done| |done].
  intros s Hs. specialize (Hall s Hs). lra.
Qed.

Lemma compute_softmax_closed_form_witness :
  exists m,
    In m [1; 3; 2]%Q /\ (forall s, In s [1; 3; 2]%Q -> (s - m <= 0)%Q) /\
    _compute_softmax sample_exp [1; 3; 2]%Q
    = Ok (map (fun score =>
                 (sample_exp (score - m) / exp_sum sample_exp m [1; 3; 2] 0)%Q)
            [1; 3; 2]%Q).
Proof.
  apply (compute_softmax_closed_form sample_exp [1; 3; 2]%Q sample_exp_pos).
  discriminate.
Defined.

Lemma underflow_exp_nonneg (x : Q) : (0 <= underflow_exp x)%Q.
Proof.
  unfold underflow_exp. destruct (Qle_bool _ x); [|lra].
  pose proof (sample_exp_pos x). lra.
Qed.

Lemma underflow_exp_zero (x : Q) : (x == 0)%Q -> (0 < underflow_exp x)%Q.
Proof.
  intros Hx. unfold underflow_exp.
  destruct (Qle_bool (-746 # 1) x) eqn:E; [apply sample_exp_pos|].
  assert (~ (-746 # 1 <= x)%Q) as Hn by (rewrite <- Qle_bool_iff; congruence).
  exfalso. apply Hn. lra.
Qed.

(** [_compute_softmax] with an exponential that can underflow to 0 and is
    positive at 0. *)
Section SoftmaxUnderflow.
Variable math_exp : Q -> Q.
Hypothesis math_exp_nonneg : forall x, (0 <= math_exp x)%Q.
Hypothesis math_exp_zero : forall x, (x == 0)%Q -> (0 < math_exp x)%Q.

Lemma exp_sum_bounds (m : Q) (scores : list Q) (total : Q) :
  (total <= exp_sum math_exp m scores total)%Q /\
  forall s, In s scores ->
    (total + math_exp (s - m) <= exp_sum math_exp m scores total)%Q.
Proof.
  revert total. induction scores as [|x l IH]; intros t; simpl.
  - split; [lra|done].
  - destruct (IH (t + math_exp (x - m))%Q) as [Hge Hall].
    pose proof (math_exp_nonneg (x - m)). split; [unfold exp_sum in *; simpl; lra|].
    intros s [<-|Hs].
    + exact Hge.
    + specialize (Hall s Hs). unfold exp_sum in *. simpl. lra.
Qed.

Lemma compute_softmax_underflow (scores : list Q) :
  scores <> [] ->
  exists m,
    In m scores /\ (forall s, In s scores -> (s <= m)%Q) /\
    (0 < exp_sum math_exp m scores 0)%Q /\
    _compute_softmax math_exp scores
    = Ok (map (fun score =>
                 (math_exp (score - m) / exp_sum math_exp m scores 0)%Q) scores).
Proof.
  destruct scores as [|x l]; [done|]. intros _.
  destruct (softmax_max_loop l x) as (m & Hm & Hin & Hle & Hall).
  assert (In m (x :: l)) as Hin' by (destruct Hin as [->|]; [by left|by right]).
  assert (0 < exp_sum math_exp m (x :: l) 0)%Q as Hpos.
  { destruct (exp_sum_bounds m (x :: l) 0) as [_ Hb].
    specialize (Hb m Hin').
    pose proof (math_exp_zero (m - m)%Q ltac:(ring)). lra. }
  exists m. split; [done|]. split; [|split; [done|]].
  - intros s [<-|Hs]; [done|by apply Hall].
  - unfold _compute_softmax.
    change (fold_left _ (x :: l) None) with
      (fold_left (fun (max_score : option Q) score =>
                    match max_score with
                    | None => Some score
                    | Some m => if Qgtb score m then Some score else max_score
                    end) l (Some x)).
    rewrite Hm. simpl or_raise. cbn [mbind res_bind].
    rewrite (softmax_exp_loop math_exp m (x :: l) [] 0).
    rewrite app_nil_l.
    assert (Qeq_bool (exp_sum math_exp m (x :: l) 0) 0 = false) as E.
    { destruct (Qeq_bool _ _) eqn:E; [|done]. apply Qeq_bool_iff in E. lra. }
    rewrite (mapM_res_div _ _ E). by rewrite map_map.
Qed.
End SoftmaxUnderflow.

(** X8: [_compute_softmax] never raises, also when [math.exp] underflows
    to 0 for some scores: for an exponential that is nowhere negative and
    positive at 0 it returns one probability for each score, each of them
    in [0, 1], and one that is positive for every maximal score. *)
Theorem compute_softmax_distribution (math_exp : Q -> Q) (scores : list Q) :
  (forall x, (0 <= math_exp x)%Q) ->
  (forall x, (x == 0)%Q -> (0 < math_exp x)%Q) ->
  exists probs,
    _compute_softmax math_exp scores = Ok probs /\
    length probs = length scores /\
    (forall p, In p probs -> (0 <= p)%Q /\ (p <= 1)%Q) /\
    (forall i s p, scores !! i = Some s -> probs !! i = Some p ->
       (forall s', In s' scores -> (s' <= s)%Q) -> (0 < p)%Q).
Proof.
  intros Hnonneg Hzero. destruct scores as [|x l].
  { exists []. repeat split; try done. }
  destruct (compute_softmax_underflow math_exp Hnonneg Hzero (x :: l) ltac:(done))
    as (m & Hin & Hall & HT & ->).
  eexists. split; [done|].
  set (T := exp_sum math_exp m (x :: l) 0) in *.
  split; [by rewrite length_map|]. split.
  - intros p Hp. apply in_map_iff in Hp as (s & <- & Hs).
    pose proof (Hnonneg (s - m)%Q) as He.
    destruct (exp_sum_bounds math_exp Hnonneg m (x :: l) 0) as [_ Hle].
    specialize (Hle s Hs). fold T in Hle.
    split.
    + apply Qle_shift_div_l; lra.
    + apply Qle_shift_div_r; lra.
  - intros i s p Hs Hp Hmax.
    rewrite list_lookup_fmap, Hs in Hp. injection Hp as <-.
    assert (s == m)%Q as Hsm.
    { apply Qle_antisym.
      - apply Hall. apply list_elem_of_In. by eapply list_elem_of_lookup_2.
      - by apply Hmax. }
    pose proof (Hzero (s - m)%Q ltac:(lra)) as He.
    apply Qlt_shift_div_l; lra.
Qed.

Lemma compute_softmax_distribution_witness :
  _compute_softmax underflow_exp [0; - (1000 # 1)]%Q = Ok [1 / 1; 0 / 1]%Q /\
  exists probs,
    _compute_softmax underflow_exp [0; - (1000 # 1)]%Q = Ok probs /\
    length probs = 2%nat /\
    (forall p, In p probs -> (0 <= p)%Q /\ (p <= 1)%Q).
Proof.
  split; [by vm_compute|].
  destruct (compute_softmax_distribution underflow_exp [0; - (1000 # 1)]%Q
              underflow_exp_nonneg underflow_exp_zero)
    as (probs & Heq & Hlen & Hrange & _).
  by exists probs.
Defined.

(** X9: when [math.exp] is increasing, a score that is not smaller gets a
    probability that is not smaller. *)
Theorem compute_softmax_monotone (math_exp : Q -> Q) (scores probs : list Q)
    (i j : nat) (si sj pi pj : Q) :
  (forall x, (0 < math_exp x)%Q) ->
  (forall x y, (x <= y)%Q -> (math_exp x <= math_exp y)%Q) ->
  _compute_softmax math_exp scores = Ok probs ->
  scores !! i = Some si -> scores !! j = Some sj ->
  probs !! i = Some pi -> probs !! j = Some pj ->
  (si <= sj)%Q -> (pi <= pj)%Q.
Proof.
  intros Hpos Hmono Heq Hsi Hsj Hpi Hpj Hle.
  assert (scores <> []) as Hne by (by intros ->).
  destruct (compute_softmax_eq math_exp Hpos scores Hne) as (m & _ & _ & Heq').
  rewrite Heq' in Heq. injection Heq as <-.
  rewrite list_lookup_fmap, Hsi in Hpi. rewrite list_lookup_fmap, Hsj in Hpj.
  injection Hpi as <-. injection Hpj as <-.
  pose proof (exp_sum_pos math_exp Hpos m scores Hne) as HT.
  assert (math_exp (si - m) <= math_exp (sj - m))%Q as He by (apply Hmono; lra).
  apply Qle_shift_div_l; [done|].
  assert (math_exp (si - m) / exp_sum math_exp m scores 0
          * exp_sum math_exp m scores 0 == math_exp (si - m))%Q as ->; [|done].
  field. lra.
Qed.

Lemma compute_softmax_monotone_witness :
  exists probs pi pj,
    _compute_softmax sample_exp [1; 3; 2]%Q = Ok probs /\
    probs !! 0%nat = Some pi /\ probs !! 2%nat = Some pj /\ (pi <= pj)%Q.
Proof.
  assert (exists probs,
            _compute_softmax sample_exp [1; 3; 2]%Q = Ok probs /\
            exists pi pj, probs !! 0%nat = Some pi /\ probs !! 2%nat = Some pj)
    as (probs & Heq & pi & pj & Hi & Hj).
  { vm_compute. eexists. split; [reflexivity|]. eexists _, _. split; reflexivity. }
  exists probs, pi, pj. split; [done|]. split; [done|]. split; [done|].
  apply (compute_softmax_monotone sample_exp [1; 3; 2]%Q probs 0 2 1 2 pi pj
           sample_exp_pos sample_exp_mono Heq); [done..|by vm_compute].
Defined.

(** ** [write_predictions]: the runs that return *)

Section WritePredictionsRuns.
Variable basic_tokenize : bool -> string -> list string.
Variables (id2feature : gmap Z Feature) (id2example : gmap Z Example).
Variables (max_answer_length : Z) (do_lower_case verbose_logging : bool)
          (threshold : Q).

Local Abbreviation body :=
  (wp_result basic_tokenize id2feature id2example max_answer_length
     do_lower_case verbose_logging threshold).

Lemma wp_result_Ok spans_state token_count loss result spans_state' token_count' loss' :
  body (spans_state, token_count, loss) result
  = Ok (spans_state', token_count', loss') ->
  exists feature,
    id2feature !! r_unique_id result = Some feature /\
    is_Some (id2example !! r_unique_id result) /\
    token_count' = token_count + ntokens feature /\
    loss' = loss ++ [r_loss result].
Proof.
  unfold wp_result. intros H.
  apply bind_Ok in H as (feature & Hf & H).
  apply bind_Ok in H as (example & Hex & H).
  apply bind_Ok in H as ([[p s] vc] & Hsp & H).
  destruct (negb _ && _); [done|]. injection H as <- <- <-.
  destruct (id2feature !! r_unique_id result) as [f|]; [|done].
  destruct (id2example !! r_unique_id result) as [ex|]; [|done].
  injection Hf as ->. exists feature. split; [done|]. split; [by eexists|done].
Qed.

Lemma wp_results_Ok (results : list Result) spans_state token_count loss
    spans_state' token_count' loss' :
  foldM body (spans_state, token_count, loss) results
  = Ok (spans_state', token_count', loss') ->
  loss' = loss ++ map r_loss results /\
  (forall result, result ∈ results ->
     is_Some (id2feature !! r_unique_id result)) /\
  (token_count' <> token_count ->
   exists result feature,
     result ∈ results /\ id2feature !! r_unique_id result = Some feature /\
     f_tokens feature <> []).
Proof.
  revert spans_state token_count loss.
  induction results as [|result results IH]; intros sp tc l; simpl.
  - intros [= <- <- <-]. rewrite app_nil_r. repeat split; [|done].
    intros result Hin. by apply elem_of_nil in Hin.
  - intros H. apply bind_Ok in H as ([[sp1 tc1] l1] & Hstep & Hrest).
    apply wp_result_Ok in Hstep as (feature & Hf & Hex & -> & ->).
    apply IH in Hrest as (-> & Hall & Htok).
    split; [by rewrite <- app_assoc|]. split.
    + intros r Hin. apply elem_of_cons in Hin as [->|Hin]; [by eexists|eauto].
    + intros Hne.
      destruct (decide (ntokens feature = 0)) as [Hz|Hnz].
      * destruct Htok as (r & f & Hin & Hr & Hnil); [lia|].
        exists r, f. split; [by apply elem_of_cons; right|done].
      * exists result, feature. split; [by apply elem_of_cons; left|].
        split; [done|]. intros Hnil. apply Hnz. unfold ntokens. by rewrite Hnil.
Qed.
End WritePredictionsRuns.

Lemma write_predictions_Ok (basic_tokenize : bool -> string -> list string)
    (all_examples : list Example) (all_features : list Feature)
    (all_results : list Result) (max_answer_length : Z)
    (do_lower_case verbose_logging : bool) (threshold : Q)
    (predictions : gmap string string) (scores_file : gmap string Q) (mean_loss : Q) :
  write_predictions basic_tokenize all_examples all_features all_results
    max_answer_length do_lower_case verbose_logging threshold
  = Ok (predictions, scores_file, mean_loss) ->
  exists id2example scores vec_count token_count loss,
    id2example_of all_examples (id2feature_of all_features) = Ok id2example /\
    foldM (wp_result basic_tokenize (id2feature_of all_features) id2example
             max_answer_length do_lower_case verbose_logging threshold)
          (∅, ∅, 0, 0, []) all_results
    = Ok (predictions, scores, vec_count, token_count, loss) /\
    token_count <> 0 /\ loss <> [] /\
    scores_file = Qopp <$> scores /\
    mean_loss = (fold_left Qplus loss 0 / inject_Z (Z.of_nat (length loss)))%Q.
Proof.
  unfold write_predictions. intros H.
  apply bind_Ok in H as (id2example & Hid & H).
  apply bind_Ok in H as ([[[[p s] vc] tc] l] & Hfold & H).
  destruct (Z.eqb_spec tc 0); [done|].
  destruct (Z.eqb_spec (Z.of_nat (length l)) 0); [done|].
  injection H as <- <- <-.
  exists id2example, s, vc, tc, l. repeat split; try done.
  intros ->. simpl in *. lia.
Qed.

(** X10: [write_predictions] returns only if every feature that is kept for
    its id belongs to an example, every result has a feature, and the
    feature of some result has a token; on an empty list of results it
    raises. *)
Theorem write_predictions_returns_only_if
    (basic_tokenize : bool -> string -> list string)
    (all_examples : list Example) (all_features : list Feature)
    (all_results : list Result) (max_answer_length : Z)
    (do_lower_case verbose_logging : bool) (threshold : Q)
    (predictions : gmap string string) (scores_file : gmap string Q) (mean_loss : Q) :
  write_predictions basic_tokenize all_examples all_features all_results
    max_answer_length do_lower_case verbose_logging threshold
  = Ok (predictions, scores_file, mean_loss) ->
  (forall u feature,
     id2feature_of all_features !! u = Some feature ->
     is_Some (all_examples !! f_example_index feature)) /\
  (forall result, result ∈ all_results ->
     is_Some (id2feature_of all_features !! r_unique_id result)) /\
  (exists result feature,
     result ∈ all_results /\
     id2feature_of all_features !! r_unique_id result = Some feature /\
     f_tokens feature <> []) /\
  all_results <> [].
Proof.
  intros H.
  apply write_predictions_Ok
    in H as (id2example & s & vc & tc & l & Hid & Hfold & Htc & Hl & _ & _).
  apply wp_results_Ok in Hfold as (_ & Hall & Htok).
  specialize (Htok Htc).
  split; [|split; [done|split; [done|]]].
  - intros u feature Hu. unfold id2example_of in Hid.
    destruct (bool_decide _) eqn:E; [|done].
    apply bool_decide_eq_true in E. by apply (E u feature).
  - intros ->. destruct Htok as (r & _ & Hin & _). by apply elem_of_nil in Hin.
Qed.

Lemma write_predictions_returns_only_if_witness :
  exists result feature,
    result ∈ [sample_result] /\
    id2feature_of [sample_feature] !! r_unique_id result = Some feature /\
    f_tokens feature <> [].
Proof.
  destruct (write_predictions_returns_only_if punctuation_tokenize [sample_example]
              [sample_feature] [sample_result] 3 true false 0
              {[ "q1" := "Steve Smith" ]} {[ "q1" := (- (3))%Q ]} (1 # 4))
    as (_ & _ & H & _); [by vm_compute|exact H].
Defined.

(** X11: the value that [write_predictions] returns is the mean of the
    losses of all results, added up in their order. *)
Theorem write_predictions_mean_loss
    (basic_tokenize : bool -> string -> list string)
    (all_examples : list Example) (all_features : list Feature)
    (all_results : list Result) (max_answer_length : Z)
    (do_lower_case verbose_logging : bool) (threshold : Q)
    (predictions : gmap string string) (scores_file : gmap string Q) (mean_loss : Q) :
  write_predictions basic_tokenize all_examples all_features all_results
    max_answer_length do_lower_case verbose_logging threshold
  = Ok (predictions, scores_file, mean_loss) ->
  mean_loss = (fold_left Qplus (map r_loss all_results) 0
               / inject_Z (Z.of_nat (length all_results)))%Q.
Proof.
  intros H.
  apply write_predictions_Ok
    in H as (id2example & s & vc & tc & l & Hid & Hfold & Htc & Hl & _ & ->).
  apply wp_results_Ok in Hfold as (-> & _ & _).
  by rewrite app_nil_l, length_map.
Qed.

Lemma write_predictions_mean_loss_witness :
  (1 # 4 = fold_left Qplus (map r_loss [sample_result]) 0
           / inject_Z (Z.of_nat (length [sample_result])))%Q.
Proof.
  apply (write_predictions_mean_loss punctuation_tokenize [sample_example]
           [sample_feature] [sample_result] 3 true false 0
           {[ "q1" := "Steve Smith" ]} {[ "q1" := (- (3))%Q ]} (1 # 4)).
  by vm_compute.
Defined.

(** X12: for well-formed inputs, a question has a prediction exactly when it
    has an admissible candidate, and it has a score exactly when it has a
    prediction: a question without a candidate is in neither file. *)
Theorem write_predictions_entries
    (basic_tokenize : bool -> string -> list string)
    (all_examples : list Example) (all_features : list Feature)
    (all_results : list Result) (max_answer_length : Z)
    (do_lower_case verbose_logging : bool) (threshold : Q)
    (predictions : gmap string string) (scores_file : gmap string Q) (mean_loss : Q)
    (q : string) :
  well_formed all_examples all_features all_results ->
  write_predictions basic_tokenize all_examples all_features all_results
    max_answer_length do_lower_case verbose_logging threshold
  = Ok (predictions, scores_file, mean_loss) ->
  (is_Some (predictions !! q) <->
   exists k start_index end_index,
     admissible all_examples all_features all_results max_answer_length
       threshold q k start_index end_index) /\
  (is_Some (scores_file !! q) <-> is_Some (predictions !! q)).
Proof.
  intros Hwf H.
  apply write_predictions_Ok
    in H as (id2example & s & vc & tc & l & Hid & Hfold & _ & _ & -> & _).
  destruct (id2example_of_Ok all_examples all_features all_results Hwf)
    as (id2example' & Hid' & Hlook).
  assert (id2example' = id2example) as -> by congruence.
  destruct (write_predictions_loop basic_tokenize all_examples all_features
              all_results max_answer_length do_lower_case verbose_logging
              threshold Hwf id2example Hlook)
    as (p' & s' & vc' & tc' & l' & Hfold' & Hinv & _).
  rewrite Hfold in Hfold'. injection Hfold' as <- <- <- <- <-.
  assert (forall k s0 e,
            admissible all_examples all_features all_results max_answer_length
              threshold q k s0 e ->
            before (length all_results) 0 0 k s0 e) as Hall.
  { intros k s0 e (r & _ & _ & Hr & _). left. by eapply lookup_lt_Some. }
  rewrite lookup_fmap.
  destruct (Hinv q) as [(Hp & Hs & Hno)|Hbest].
  - rewrite Hp, Hs. simpl. split; split.
    + by intros [? ?].
    + intros (k & s0 & e & Hadm). destruct (Hno k s0 e); [by apply Hall|done].
    + by intros [? ?].
    + by intros [? ?].
  - destruct Hbest as (k & s0 & e & sc & t & _ & Hadm & _ & _ & Hp & Hs & _).
    rewrite Hp, Hs. simpl. split; split; eauto.
Qed.

Lemma write_predictions_entries_witness :
  (is_Some (({[ "q1" := "Steve Smith" ]} : gmap string string) !! "q2") <->
   exists k start_index end_index,
     admissible [sample_example] [sample_feature] [sample_result] 3 0 "q2"
       k start_index end_index) /\
  (is_Some (({[ "q1" := (- (3))%Q ]} : gmap string Q) !! "q2") <->
   is_Some (({[ "q1" := "Steve Smith" ]} : gmap string string) !! "q2")).
Proof.
  apply (write_predictions_entries punctuation_tokenize [sample_example]
           [sample_feature] [sample_result] 3 true false 0
           {[ "q1" := "Steve Smith" ]} {[ "q1" := (- (3))%Q ]} (1 # 4) "q2"
           sample_well_formed).
  by vm_compute.
Defined.

(** ** Strings as lists of characters *)

Lemma list_ascii_app (s t : string) :
  list_ascii_of_string (s ++ t) = list_ascii_of_string s ++ list_ascii_of_string t.
Proof.
  induction s as [|c s IH]; [done|]. rewrite append_String. simpl. by rewrite IH.
Qed.

Lemma list_ascii_length (s : string) :
  length (list_ascii_of_string s) = String.length s.
Proof. induction s as [|c s IH]; simpl; [done|]. by rewrite IH. Qed.

Lemma string_of_list_length (l : list ascii) :
  String.length (string_of_list_ascii l) = length l.
Proof. induction l as [|c l IH]; simpl; [done|]. by rewrite IH. Qed.

Lemma string_get_lookup (s : string) (i : nat) :
  String.get i s = list_ascii_of_string s !! i.
Proof.
  revert i. induction s as [|c s IH]; intros [|i]; simpl; done.
Qed.

Lemma py_slice_inner {A} (l : list A) (a b : nat) :
  (a <= b <= length l)%nat ->
  py_slice l (Z.of_nat a) (Z.of_nat b) = take (b - a) (drop a l).
Proof.
  intros H. unfold py_slice, slice_bound.
  destruct (Z.ltb_spec (Z.of_nat a) 0); [lia|].
  destruct (Z.ltb_spec (Z.of_nat b) 0); [lia|].
  rewrite !Nat2Z.id. by rewrite !Nat.min_l by lia.
Qed.

Lemma py_slice_all {A} (l : list A) :
  py_slice l 0 (Z.of_nat (length l)) = l.
Proof.
  change 0 with (Z.of_nat 0).
  rewrite (py_slice_inner l 0 (length l)) by lia.
  rewrite drop_0, Nat.sub_0_r. apply firstn_all.
Qed.

Lemma str_slice_all (s : string) : str_slice s 0 (len s) = s.
Proof.
  unfold str_slice, len. rewrite <- list_ascii_length, py_slice_all.
  apply string_of_list_ascii_of_string.
Qed.

Lemma py_slice_sublist {A} (l : list A) (a b : Z) :
  exists pre post, l = pre ++ py_slice l a b ++ post.
Proof.
  unfold py_slice.
  set (a' := slice_bound (length l) a). set (b' := slice_bound (length l) b).
  exists (take a' l), (drop (b' - a') (drop a' l)).
  by rewrite take_drop, take_drop.
Qed.

Lemma find_at_Some (i : nat) (s sub : string) (j : nat) :
  find_at i s sub = Some j ->
  exists pre post,
    s = (pre ++ sub ++ post)%string /\ j = (i + String.length pre)%nat.
Proof.
  revert i. induction s as [|c s IH]; intros i; rewrite find_at_unfold.
  - destruct (String.prefix sub EmptyString) eqn:Hp; [|done].
    intros [= <-]. apply prefix_true_iff in Hp as [post Hp].
    exists EmptyString, post. split; [done|]. simpl. lia.
  - destruct (String.prefix sub (String c s)) eqn:Hp.
    + intros [= <-]. apply prefix_true_iff in Hp as [post Hp].
      exists EmptyString, post. split; [done|]. simpl. lia.
    + intros H. apply IH in H as (pre & post & -> & ->).
      exists (String c pre), post. split; [done|]. simpl. lia.
Qed.

Lemma find_empty (s : string) : find s EmptyString = 0.
Proof. unfold find. rewrite find_at_unfold. by destruct s. Qed.

Lemma find_cases (s sub : string) :
  find s sub = -1 \/
  exists pre post,
    s = (pre ++ sub ++ post)%string /\ find s sub = Z.of_nat (String.length pre).
Proof.
  unfold find. destruct (find_at 0 s sub) as [j|] eqn:E; [|by left].
  right. apply find_at_Some in E as (pre & post & Hs & ->).
  exists pre, post. split; [done|]. done.
Qed.

(** ** [_strip_spaces] *)

Lemma non_spaces_app (l1 l2 : list ascii) :
  non_spaces (l1 ++ l2) = non_spaces l1 ++ non_spaces l2.
Proof. apply List.filter_app. Qed.

Lemma non_spaces_spec (l : list ascii) (c : ascii) :
  In c (non_spaces l) -> c <> " "%char.
Proof.
  unfold non_spaces. rewrite List.filter_In. intros [_ H] ->. done.
Qed.

(** The [k]-th position is that of the character before which [k]
    characters are not spaces, and which is not a space itself. *)
Lemma ns_positions_lookup (chars : list ascii) (n k p : nat) :
  ns_positions n chars !! k = Some p <->
  (n <= p)%nat /\
  (exists c, chars !! (p - n)%nat = Some c /\ Ascii.eqb c " " = false) /\
  length (non_spaces (take (p - n) chars)) = k.
Proof.
  revert n k. induction chars as [|c chars IH]; intros n k; simpl.
  - split; [done|]. intros (_ & (c & Hc & _) & _). done.
  - destruct (Ascii.eqb c " ") eqn:E.
    + rewrite IH. split.
      * intros (Hle & (d & Hd & Hns) & Hk).
        replace (p - n)%nat with (S (p - S n)) by lia. simpl. rewrite E. simpl.
        split; [lia|]. split; [by exists d|done].
      * intros (Hle & (d & Hd & Hns) & Hk).
        destruct (decide (p = n)) as [->|Hne].
        { rewrite Nat.sub_diag in Hd. simpl in Hd. congruence. }
        replace (p - n)%nat with (S (p - S n)) in Hd, Hk by lia.
        simpl in Hd, Hk. rewrite E in Hk. simpl in Hk.
        split; [lia|]. split; [by exists d|done].
    + destruct k as [|k]; simpl.
      * split.
        -- intros [= <-]. rewrite Nat.sub_diag. simpl.
           split; [lia|]. split; [by exists c|done].
        -- intros (Hle & _ & Hk).
           destruct (decide (p = n)) as [->|Hne]; [done|].
           replace (p - n)%nat with (S (p - S n)) in Hk by lia.
           simpl in Hk. rewrite E in Hk. simpl in Hk. done.
      * rewrite IH. split.
        -- intros (Hle & (d & Hd & Hns) & Hk).
           replace (p - n)%nat with (S (p - S n)) by lia. simpl. rewrite E. simpl.
           split; [lia|]. split; [by exists d|]. by rewrite Hk.
        -- intros (Hle & (d & Hd & Hns) & Hk).
           destruct (decide (p = n)) as [->|Hne].
           { rewrite Nat.sub_diag in Hk. simpl in Hk. done. }
           replace (p - n)%nat with (S (p - S n)) in Hd, Hk by lia.
           simpl in Hd, Hk. rewrite E in Hk. simpl in Hk.
           split; [lia|]. split; [by exists d|]. by injection Hk.
Qed.

Lemma ns_positions_length (chars : list ascii) (n : nat) :
  length (ns_positions n chars) = length (non_spaces chars).
Proof.
  revert n. induction chars as [|c chars IH]; intros n; simpl; [done|].
  destruct (Ascii.eqb c " "); simpl; by rewrite IH.
Qed.

Lemma non_spaces_take_le (chars : list ascii) (p q : nat) :
  (p <= q)%nat ->
  (length (non_spaces (take p chars)) <= length (non_spaces (take q chars)))%nat.
Proof.
  intros Hle. replace q with (p + (q - p))%nat by lia.
  rewrite <- take_take_drop, non_spaces_app, length_app. lia.
Qed.

Lemma non_spaces_take_lt (chars : list ascii) (p q : nat) (c : ascii) :
  (p < q)%nat -> chars !! p = Some c -> Ascii.eqb c " " = false ->
  (length (non_spaces (take p chars)) < length (non_spaces (take q chars)))%nat.
Proof.
  intros Hlt Hc Hns.
  pose proof (non_spaces_take_le chars (S p) q ltac:(lia)) as Hle.
  rewrite (take_S_r _ _ _ Hc), non_spaces_app, length_app in Hle.
  simpl in Hle. rewrite Hns in Hle. simpl in Hle. lia.
Qed.

Lemma ns_positions_order (chars : list ascii) (k1 k2 p1 p2 : nat) :
  ns_positions 0 chars !! k1 = Some p1 ->
  ns_positions 0 chars !! k2 = Some p2 ->
  ((k1 <= k2)%nat <-> (p1 <= p2)%nat) /\ ((k1 < k2)%nat <-> (p1 < p2)%nat).
Proof.
  rewrite !ns_positions_lookup, !Nat.sub_0_r.
  intros (_ & (c1 & Hc1 & Hn1) & <-) (_ & (c2 & Hc2 & Hn2) & <-).
  destruct (Nat.lt_trichotomy p1 p2) as [Hlt|[->|Hgt]].
  - pose proof (non_spaces_take_lt chars p1 p2 c1 Hlt Hc1 Hn1). lia.
  - lia.
  - pose proof (non_spaces_take_lt chars p2 p1 c2 Hgt Hc2 Hn2). lia.
Qed.

Lemma ns_positions_NoDup (chars : list ascii) : NoDup (ns_positions 0 chars).
Proof.
  apply NoDup_alt. intros i j p.
  rewrite !ns_positions_lookup. intros (_ & _ & <-) (_ & _ & <-). done.
Qed.

Lemma ns_positions_bound (chars : list ascii) (k p : nat) :
  ns_positions 0 chars !! k = Some p -> (p < length chars)%nat.
Proof.
  rewrite ns_positions_lookup, Nat.sub_0_r. intros (_ & (c & Hc & _) & _).
  by eapply lookup_lt_Some.
Qed.

(** *** The dictionary of the positions *)

Lemma od_set_fresh (d : list (Z * Z)) (k v : Z) :
  (forall k' v', In (k', v') d -> k' <> k) -> od_set d k v = d ++ [(k, v)].
Proof.
  induction d as [|[k' v'] d IH]; intros Hfresh; simpl; [done|].
  destruct (Z.eqb_spec k' k) as [->|Hne].
  - exfalso. by apply (Hfresh k v'); [left|].
  - rewrite IH; [done|]. intros k0 v0 Hin. apply (Hfresh k0 v0). by right.
Qed.

Lemma ns_map_snoc (ps : list nat) (p : nat) :
  ns_map (ps ++ [p]) = ns_map ps ++ [(Z.of_nat (length ps), Z.of_nat p)].
Proof.
  unfold ns_map, enumerate. rewrite enumerate_from_app, map_app. done.
Qed.

Lemma od_get_enumerate (ps : list nat) (n : nat) (z : Z) :
  od_get (map (fun it : nat * nat => (Z.of_nat (fst it), Z.of_nat (snd it)))
            (enumerate_from n ps)) z
  = if z <? Z.of_nat n then None
    else Z.of_nat <$> ps !! (Z.to_nat z - n)%nat.
Proof.
  revert n. induction ps as [|p ps IH]; intros n; simpl.
  - by destruct (z <? Z.of_nat n).
  - destruct (Z.eqb_spec (Z.of_nat n) z) as [<-|Hne].
    + destruct (Z.ltb_spec (Z.of_nat n) (Z.of_nat n)); [lia|].
      by rewrite Nat2Z.id, Nat.sub_diag.
    + rewrite IH.
      destruct (Z.ltb_spec z (Z.of_nat (S n))), (Z.ltb_spec z (Z.of_nat n));
        try lia; [done|].
      by replace (Z.to_nat z - n)%nat with (S (Z.to_nat z - S n)) by lia.
Qed.

Lemma od_get_ns_map (ps : list nat) (z q : Z) :
  od_get (ns_map ps) z = Some q <->
  exists kn qn, z = Z.of_nat kn /\ ps !! kn = Some qn /\ q = Z.of_nat qn.
Proof.
  unfold ns_map, enumerate. rewrite od_get_enumerate. simpl.
  rewrite Nat.sub_0_r. change (Z.of_nat 0) with 0. destruct (Z.ltb_spec z 0).
  - split; [done|]. intros (kn & qn & -> & _). lia.
  - split.
    + intros Hq. destruct (ps !! Z.to_nat z) as [qn|] eqn:E; [|done].
      injection Hq as <-. exists (Z.to_nat z), qn. split; [lia|done].
    + intros (kn & qn & -> & Hk & ->). by rewrite Nat2Z.id, Hk.
Qed.

Lemma ns_map_keys (ps : list nat) (k v : Z) :
  In (k, v) (ns_map ps) -> 0 <= k < Z.of_nat (length ps).
Proof.
  unfold ns_map. rewrite in_map_iff. intros ([i p] & [= <- <-] & Hin).
  apply list_elem_of_In, list_elem_of_lookup in Hin as [j Hj].
  unfold enumerate in Hj. rewrite enumerate_from_lookup in Hj.
  destruct (ps !! j) eqn:E; [|done]. injection Hj as <- <-.
  apply lookup_lt_Some in E. simpl. lia.
Qed.

Lemma strip_spaces_loop (chars : list ascii) (n : nat) (acc : list ascii)
    (ps : list nat) :
  length acc = length ps ->
  fold_left strip_spaces_body (enumerate_from n chars) (acc, ns_map ps)
  = (acc ++ non_spaces chars, ns_map (ps ++ ns_positions n chars)).
Proof.
  revert n acc ps. induction chars as [|c chars IH]; intros n acc ps Hlen; simpl.
  - by rewrite !app_nil_r.
  - destruct (Ascii.eqb c " ") eqn:E; simpl.
    + by apply IH.
    + rewrite od_set_fresh.
      * rewrite Hlen, <- ns_map_snoc.
        rewrite (IH (S n) (acc ++ [c]) (ps ++ [n])).
        -- by rewrite <- !app_assoc.
        -- rewrite !length_app. simpl. lia.
      * intros k' v' Hin. apply ns_map_keys in Hin. lia.
Qed.

Lemma strip_spaces_eq (text : string) :
  _strip_spaces text
  = (without_spaces text, ns_map (ns_positions 0 (list_ascii_of_string text))).
Proof.
  unfold _strip_spaces, enumerate.
  change (@nil (Z * Z)) with (ns_map []).
  by rewrite (strip_spaces_loop _ 0 [] []).
Qed.

Lemma invert_map_snoc (d : list (Z * Z)) (i t : Z) :
  invert_map (d ++ [(i, t)]) = <[t := i]> (invert_map d).
Proof. unfold invert_map. by rewrite fold_left_app. Qed.

Lemma invert_map_ns_map (ps : list nat) (z k : Z) :
  NoDup ps ->
  invert_map (ns_map ps) !! z = Some k <->
  exists kn pn, ps !! kn = Some pn /\ z = Z.of_nat pn /\ k = Z.of_nat kn.
Proof.
  induction ps as [|p ps IH] using rev_ind; intros Hnd.
  - unfold invert_map, ns_map. simpl. rewrite lookup_empty.
    split; [done|]. by intros (kn & pn & Hk & _).
  - apply NoDup_app in Hnd as (Hnd & Hnot & _).
    rewrite ns_map_snoc, invert_map_snoc.
    destruct (decide (z = Z.of_nat p)) as [->|Hne].
    + rewrite lookup_insert_eq. split.
      * intros [= <-]. exists (length ps), p.
        split; [|done]. by rewrite lookup_app_r, Nat.sub_diag.
      * intros (kn & pn & Hk & Hz & ->).
        apply Nat2Z.inj in Hz as <-.
        apply lookup_app_Some in Hk as [Hk|[Hge Hk]].
        -- exfalso. apply (Hnot p); [|by left].
           apply list_elem_of_lookup. eauto.
        -- destruct (kn - length ps)%nat eqn:E; simpl in Hk; [|done].
           do 2 f_equal. lia.
    + rewrite lookup_insert_ne by done. rewrite (IH Hnd). split.
      * intros (kn & pn & Hk & Hz & ->). exists kn, pn.
        split; [|done]. rewrite lookup_app_l; [done|by eapply lookup_lt_Some].
      * intros (kn & pn & Hk & Hz & ->). exists kn, pn. split; [|done].
        apply lookup_app_Some in Hk as [Hk|[Hge Hk]]; [done|].
        destruct (kn - length ps)%nat; simpl in Hk; [|done].
        injection Hk as <-. done.
Qed.

(** The position of the original text that a position of the tokenized
    text is projected to: both are the positions of the [k]-th character
    that is not a space, for one [k]. *)
Lemma project_position_eq (tok_text orig_text : string) (z q : Z) :
  project_position (invert_map (snd (_strip_spaces tok_text)))
    (snd (_strip_spaces orig_text)) z = Some q <->
  exists kn pn qn,
    z = Z.of_nat pn /\ q = Z.of_nat qn /\
    ns_positions 0 (list_ascii_of_string tok_text) !! kn = Some pn /\
    ns_positions 0 (list_ascii_of_string orig_text) !! kn = Some qn.
Proof.
  rewrite !strip_spaces_eq. simpl. unfold project_position.
  destruct (invert_map _ !! z) as [k|] eqn:E.
  - apply invert_map_ns_map in E as (kn & pn & Hk & -> & ->);
      [|apply ns_positions_NoDup].
    rewrite od_get_ns_map. split.
    + intros (kn' & qn & Hkn & Hq & ->). apply Nat2Z.inj in Hkn as <-.
      by exists kn, pn, qn.
    + intros (kn' & pn' & qn & Hz & -> & Hp & Hq).
      apply Nat2Z.inj in Hz. subst pn'.
      assert (kn' = kn) as ->
        by (eapply (NoDup_lookup _ kn' kn);
            [apply ns_positions_NoDup|exact Hp|exact Hk]).
      by exists kn, qn.
  - split; [done|]. intros (kn & pn & qn & -> & -> & Hp & Hq).
    assert (invert_map
              (ns_map (ns_positions 0 (list_ascii_of_string tok_text)))
              !! Z.of_nat pn = Some (Z.of_nat kn)) as E'.
    { apply invert_map_ns_map; [apply ns_positions_NoDup|]. by exists kn, pn. }
    congruence.
Qed.

Lemma non_spaces_lookup (chars : list ascii) (k p : nat) :
  ns_positions 0 chars !! k = Some p ->
  exists c, chars !! p = Some c /\ non_spaces chars !! k = Some c /\ c <> " "%char.
Proof.
  rewrite ns_positions_lookup, Nat.sub_0_r. intros (_ & (c & Hc & Hns) & Hk).
  exists c. split; [done|]. split.
  - rewrite <- (take_drop p chars), non_spaces_app.
    rewrite lookup_app_r by lia. rewrite Hk, Nat.sub_diag.
    rewrite (drop_S _ _ _ Hc). simpl. by rewrite Hns.
  - intros ->. done.
Qed.

(** The characters that are not spaces between two such characters. *)
Lemma non_spaces_between (chars : list ascii) (k1 k2 a b : nat) :
  ns_positions 0 chars !! k1 = Some a ->
  ns_positions 0 chars !! k2 = Some b ->
  (a <= b)%nat ->
  non_spaces (take (b + 1 - a) (drop a chars))
  = take (k2 + 1 - k1) (drop k1 (non_spaces chars)).
Proof.
  intros Ha Hb Hle.
  pose proof (proj1 (proj1 (ns_positions_order chars k1 k2 a b Ha Hb)))
    as _.
  apply ns_positions_lookup in Ha as (_ & _ & Hk1).
  apply ns_positions_lookup in Hb as (_ & (c & Hc & Hns) & Hk2).
  rewrite Nat.sub_0_r in *.
  assert (chars = take a chars ++ take (b + 1 - a) (drop a chars)
                  ++ drop (b + 1) chars) as Hsplit.
  { rewrite app_assoc, take_take_drop.
    replace (a + (b + 1 - a))%nat with (b + 1)%nat by lia.
    by rewrite take_drop. }
  assert (length (non_spaces (take (b + 1) chars)) = S k2) as Hk2'.
  { replace (b + 1)%nat with (S b) by lia.
    rewrite (take_S_r _ _ _ Hc), non_spaces_app, length_app. simpl.
    rewrite Hns. simpl. lia. }
  assert (non_spaces (take (b + 1) chars)
          = non_spaces (take a chars)
            ++ non_spaces (take (b + 1 - a) (drop a chars))) as Hmid.
  { rewrite <- non_spaces_app, take_take_drop. do 2 f_equal. lia. }
  assert (length (non_spaces (take (b + 1 - a) (drop a chars)))
          = (k2 + 1 - k1)%nat) as Hlen.
  { rewrite Hmid, length_app in Hk2'. lia. }
  rewrite Hsplit at 2. rewrite !non_spaces_app.
  rewrite drop_app_length' by done.
  by rewrite take_app_length' by done.
Qed.

(** ** [get_final_text] and [nq_get_final_text]: the projected span *)

Section FinalTextSpan.
Variable basic_tokenize : bool -> string -> list string.
Variables pred_text orig_text : string.
Variables do_lower_case verbose_logging : bool.

Local Abbreviation tok_text := (retokenized basic_tokenize orig_text do_lower_case).
Local Abbreviation ochars := (list_ascii_of_string orig_text).
Local Abbreviation tchars := (list_ascii_of_string tok_text).

Lemma len_strip_spaces (text : string) :
  len (fst (_strip_spaces text))
  = Z.of_nat (length (non_spaces (list_ascii_of_string text))).
Proof.
  rewrite strip_spaces_eq. simpl. unfold len, without_spaces.
  by rewrite string_of_list_length.
Qed.

(** The path of both functions that does not fall back. *)
Lemma final_text_success (q1 q2 : Z) :
  find tok_text pred_text <> -1 ->
  len (fst (_strip_spaces orig_text)) = len (fst (_strip_spaces tok_text)) ->
  projected basic_tokenize
    (start_of basic_tokenize pred_text orig_text do_lower_case)
    orig_text do_lower_case = Some q1 ->
  projected basic_tokenize
    (end_of basic_tokenize pred_text orig_text do_lower_case)
    orig_text do_lower_case = Some q2 ->
  get_final_text basic_tokenize pred_text orig_text do_lower_case verbose_logging
    = (q1, q2 + 1) /\
  nq_get_final_text basic_tokenize pred_text orig_text do_lower_case verbose_logging
    = str_slice orig_text q1 (q2 + 1).
Proof.
  unfold projected, end_of, start_of, retokenized, get_final_text,
    nq_get_final_text.
  intros Hfind Hlen H1 H2.
  destruct (Z.eqb_spec (find (join " " (basic_tokenize do_lower_case orig_text))
                          pred_text) (-1)); [done|].
  destruct (_strip_spaces orig_text) as [ons om].
  destruct (_strip_spaces (join " " _)) as [tns tm]. simpl in *.
  rewrite Hlen, Z.eqb_refl. simpl. by rewrite H1, H2.
Qed.

Lemma final_text_cases :
  falls_back basic_tokenize pred_text orig_text do_lower_case verbose_logging \/
  exists (pre post : string) (kn1 kn2 qn1 qn2 : nat),
    tok_text = (pre ++ pred_text ++ post)%string /\
    find tok_text pred_text = Z.of_nat (String.length pre) /\
    (0 < String.length pred_text)%nat /\
    length (non_spaces ochars) = length (non_spaces tchars) /\
    ns_positions 0 tchars !! kn1 = Some (String.length pre) /\
    ns_positions 0 tchars !! kn2
      = Some (String.length pre + String.length pred_text - 1)%nat /\
    ns_positions 0 ochars !! kn1 = Some qn1 /\
    ns_positions 0 ochars !! kn2 = Some qn2 /\
    get_final_text basic_tokenize pred_text orig_text do_lower_case verbose_logging
      = (Z.of_nat qn1, Z.of_nat qn2 + 1) /\
    nq_get_final_text basic_tokenize pred_text orig_text do_lower_case
      verbose_logging
      = str_slice orig_text (Z.of_nat qn1) (Z.of_nat qn2 + 1).
Proof.
  destruct (find_cases tok_text pred_text) as [Hnf|(pre & post & Htok & Hfind)].
  { left. by apply fallback_not_found. }
  destruct (decide (len (fst (_strip_spaces orig_text))
                    = len (fst (_strip_spaces tok_text)))) as [Hlen|Hlen];
    [|left; by apply fallback_length].
  destruct (projected basic_tokenize
              (start_of basic_tokenize pred_text orig_text do_lower_case)
              orig_text do_lower_case) as [q1|] eqn:E1;
    [|left; by apply fallback_start].
  destruct (projected basic_tokenize
              (end_of basic_tokenize pred_text orig_text do_lower_case)
              orig_text do_lower_case) as [q2|] eqn:E2;
    [|left; by apply fallback_end].
  right.
  destruct (final_text_success q1 q2) as [Hg Hn]; [lia|done..|].
  unfold projected, end_of, start_of in E1, E2. rewrite Hfind in E1, E2.
  apply project_position_eq in E1 as (kn1 & pn1 & qn1 & Hz1 & -> & Hp1 & Hq1).
  apply project_position_eq in E2 as (kn2 & pn2 & qn2 & Hz2 & -> & Hp2 & Hq2).
  apply Nat2Z.inj in Hz1 as <-.
  assert (0 < String.length pred_text)%nat as Hpos.
  { destruct (String.length pred_text) eqn:E; [|lia].
    assert (pred_text = EmptyString) as Hempty by (by destruct pred_text).
    rewrite Hempty, find_empty in Hfind. unfold len in Hz2. rewrite E in Hz2.
    lia. }
  assert (pn2 = (String.length pre + String.length pred_text - 1)%nat) as ->
    by (unfold len in Hz2; lia).
  exists pre, post, kn1, kn2, qn1, qn2.
  rewrite !len_strip_spaces in Hlen. apply Nat2Z.inj in Hlen.
  repeat split; done.
Qed.
End FinalTextSpan.

(** X13: [_strip_spaces] returns the text without its spaces and, for every
    character of it, the position of that character in the text: the
    positions are in range, they increase, and the character at the
    [k]-th position is the [k]-th character of the stripped text. *)
Theorem strip_spaces_spec (text : string) :
  let '(ns_text, ns_to_s_map) := _strip_spaces text in
  ns_text = without_spaces text /\
  (forall k, is_Some (od_get ns_to_s_map k) <-> 0 <= k < len ns_text) /\
  (forall k i, od_get ns_to_s_map k = Some i ->
     0 <= i < len text /\
     exists c, String.get (Z.to_nat i) text = Some c /\
               String.get (Z.to_nat k) ns_text = Some c /\ c <> " "%char) /\
  (forall k k' i i',
     od_get ns_to_s_map k = Some i -> od_get ns_to_s_map k' = Some i' ->
     k < k' -> i < i').
Proof.
  rewrite strip_spaces_eq.
  set (chars := list_ascii_of_string text).
  split; [done|]. split; [|split].
  - intros k. unfold len, without_spaces. fold chars.
    rewrite string_of_list_length, <- (ns_positions_length chars 0). split.
    + intros [i Hi]. apply od_get_ns_map in Hi as (kn & qn & -> & Hk & _).
      apply lookup_lt_Some in Hk. lia.
    + intros Hk.
      destruct (lookup_lt_is_Some_2 (ns_positions 0 chars) (Z.to_nat k))
        as [p Hp]; [lia|].
      exists (Z.of_nat p). apply od_get_ns_map. exists (Z.to_nat k), p.
      split; [lia|done].
  - intros k i Hi. apply od_get_ns_map in Hi as (kn & qn & -> & Hk & ->).
    pose proof (ns_positions_bound _ _ _ Hk) as Hb.
    destruct (non_spaces_lookup _ _ _ Hk) as (c & Hc & Hn & Hns).
    split.
    + unfold len. rewrite <- list_ascii_length. fold chars. lia.
    + exists c. rewrite !Nat2Z.id, !string_get_lookup. fold chars.
      unfold without_spaces. fold chars.
      by rewrite list_ascii_of_string_of_list_ascii.
  - intros k k' i i' Hi Hi' Hlt.
    apply od_get_ns_map in Hi as (kn & qn & -> & Hk & ->).
    apply od_get_ns_map in Hi' as (kn' & qn' & -> & Hk' & ->).
    pose proof (ns_positions_order chars kn kn' qn qn' Hk Hk') as [_ H]. lia.
Qed.

Lemma final_text_range (basic_tokenize : bool -> string -> list string)
    (pred_text orig_text : string) (do_lower_case verbose_logging : bool) :
  let '(start_position, end_position) :=
    get_final_text basic_tokenize pred_text orig_text do_lower_case
      verbose_logging in
  0 <= start_position /\ start_position <= end_position /\
  end_position <= len orig_text.
Proof.
  destruct (final_text_cases basic_tokenize pred_text orig_text do_lower_case
              verbose_logging)
    as [[-> _]|(pre & post & kn1 & kn2 & qn1 & qn2 & _ & _ & Hpos & _ & Hp1 & Hp2
                & Hq1 & Hq2 & -> & _)].
  - unfold len. lia.
  - pose proof (ns_positions_order _ _ _ _ _ Hp1 Hp2) as [Hk _].
    pose proof (ns_positions_order _ _ _ _ _ Hq1 Hq2) as [Hq _].
    pose proof (ns_positions_bound _ _ _ Hq2) as Hb.
    rewrite list_ascii_length in Hb. unfold len. lia.
Qed.

(** X14: the pair that [get_final_text] returns is a range of [orig_text]:
    [0 <= start <= end <= len(orig_text)], whatever the tokenizer does. *)
Theorem get_final_text_range (basic_tokenize : bool -> string -> list string)
    (pred_text orig_text : string) (do_lower_case verbose_logging : bool) :
  let '(start_position, end_position) :=
    get_final_text basic_tokenize pred_text orig_text do_lower_case
      verbose_logging in
  0 <= start_position /\ start_position <= end_position /\
  end_position <= len orig_text.
Proof. apply final_text_range. Qed.

(** X15: [nq_get_final_text] returns the slice of [orig_text] between the
    two positions that [get_final_text] returns, on every path. *)
Theorem nq_get_final_text_slice (basic_tokenize : bool -> string -> list string)
    (pred_text orig_text : string) (do_lower_case verbose_logging : bool) :
  nq_get_final_text basic_tokenize pred_text orig_text do_lower_case
    verbose_logging
  = let '(start_position, end_position) :=
      get_final_text basic_tokenize pred_text orig_text do_lower_case
        verbose_logging in
    str_slice orig_text start_position end_position.
Proof.
  destruct (final_text_cases basic_tokenize pred_text orig_text do_lower_case
              verbose_logging)
    as [[-> ->]|(pre & post & kn1 & kn2 & qn1 & qn2 & _ & _ & _ & _ & _ & _
                 & _ & _ & -> & ->)].
  - by rewrite str_slice_all.
  - done.
Qed.

Lemma str_slice_inner (s : string) (a b : nat) :
  (a <= b <= String.length s)%nat ->
  str_slice s (Z.of_nat a) (Z.of_nat b)
  = string_of_list_ascii (take (b - a) (drop a (list_ascii_of_string s))).
Proof.
  intros H. unfold str_slice. rewrite py_slice_inner; [done|].
  by rewrite list_ascii_length.
Qed.

Lemma list_ascii_middle (pre sub post : string) :
  take (String.length sub)
    (drop (String.length pre) (list_ascii_of_string (pre ++ sub ++ post)))
  = list_ascii_of_string sub.
Proof.
  rewrite !list_ascii_app.
  rewrite drop_app_length' by (by rewrite list_ascii_length).
  by rewrite take_app_length' by (by rewrite list_ascii_length).
Qed.

Lemma without_spaces_inj (s t : string) :
  without_spaces s = without_spaces t ->
  non_spaces (list_ascii_of_string s) = non_spaces (list_ascii_of_string t).
Proof.
  unfold without_spaces. intros H.
  apply (f_equal list_ascii_of_string) in H.
  by rewrite !list_ascii_of_string_of_list_ascii in H.
Qed.

(** X16: when [nq_get_final_text] does not fall back, the text it returns
    has, without its spaces, the characters of [orig_text] at the places
    where the tokenized text has the characters of [pred_text]; so if
    tokenizing [orig_text] changes nothing but spaces, the text returned
    is [pred_text] up to spaces. *)
Theorem nq_get_final_text_aligned (basic_tokenize : bool -> string -> list string)
    (pred_text orig_text : string) (do_lower_case verbose_logging : bool) :
  let tok_text := retokenized basic_tokenize orig_text do_lower_case in
  let final_text :=
    nq_get_final_text basic_tokenize pred_text orig_text do_lower_case
      verbose_logging in
  (falls_back basic_tokenize pred_text orig_text do_lower_case verbose_logging \/
   exists k1 k2 : nat,
     (k1 <= k2)%nat /\
     without_spaces pred_text
     = str_slice (without_spaces tok_text) (Z.of_nat k1) (Z.of_nat k2 + 1) /\
     without_spaces final_text
     = str_slice (without_spaces orig_text) (Z.of_nat k1) (Z.of_nat k2 + 1)) /\
  (without_spaces orig_text = without_spaces tok_text ->
   final_text = orig_text \/
   without_spaces final_text = without_spaces pred_text).
Proof.
  intros tok_text final_text. subst tok_text final_text.
  assert (falls_back basic_tokenize pred_text orig_text do_lower_case
            verbose_logging \/
          exists k1 k2 : nat,
            (k1 <= k2)%nat /\
            without_spaces pred_text
            = str_slice (without_spaces (retokenized basic_tokenize orig_text do_lower_case)) (Z.of_nat k1) (Z.of_nat k2 + 1) /\
            without_spaces
              (nq_get_final_text basic_tokenize pred_text orig_text do_lower_case
                 verbose_logging)
            = str_slice (without_spaces orig_text) (Z.of_nat k1)
                (Z.of_nat k2 + 1)) as Hgen.
  { destruct (final_text_cases basic_tokenize pred_text orig_text do_lower_case
                verbose_logging)
      as [?|(pre & post & kn1 & kn2 & qn1 & qn2 & Htok & _ & Hpos & Hlen & Hp1
             & Hp2 & Hq1 & Hq2 & _ & Hn)]; [by left|].
    right. exists kn1, kn2.
    pose proof (ns_positions_order _ _ _ _ _ Hp1 Hp2) as [Hk _].
    pose proof (ns_positions_order _ _ _ _ _ Hq1 Hq2) as [Hq _].
    assert (kn1 <= kn2)%nat as Hle by lia.
    pose proof (lookup_lt_Some _ _ _ Hp2) as Hb2.
    pose proof (lookup_lt_Some _ _ _ Hq2) as Hb2'.
    pose proof (ns_positions_bound _ _ _ Hq2) as Hbq.
    rewrite ns_positions_length in Hb2, Hb2'.
    split; [done|].
    replace (Z.of_nat kn2 + 1) with (Z.of_nat (kn2 + 1)) by lia.
    rewrite !str_slice_inner
      by (unfold without_spaces; rewrite string_of_list_length; lia).
    unfold without_spaces at 2 4.
    rewrite !list_ascii_of_string_of_list_ascii.
    split; unfold without_spaces; f_equal.
    - rewrite <- (non_spaces_between _ kn1 kn2 _ _ Hp1 Hp2) by lia.
      replace (String.length pre + String.length pred_text - 1 + 1
               - String.length pre)%nat
        with (String.length pred_text) by lia.
      rewrite Htok. by rewrite list_ascii_middle.
    - rewrite Hn.
      replace (Z.of_nat qn2 + 1) with (Z.of_nat (qn2 + 1)) by lia.
      rewrite str_slice_inner by (rewrite <- list_ascii_length; lia).
      rewrite list_ascii_of_string_of_list_ascii.
      apply non_spaces_between; [done..|lia]. }
  split; [exact Hgen|].
  intros Hsame. destruct Hgen as [[_ Hfb]|(k1 & k2 & _ & Hp & Hf)]; [by left|].
  right. rewrite Hf, Hp. by rewrite Hsame.
Qed.

Lemma nq_get_final_text_aligned_witness :
  nq_get_final_text punctuation_tokenize "smith ' s" "Steve Smith's" false false
    = "Steve Smith's" \/
  without_spaces
    (nq_get_final_text punctuation_tokenize "smith ' s" "steve smith's" false false)
  = without_spaces "smith ' s".
Proof.
  right.
  destruct (proj2 (nq_get_final_text_aligned punctuation_tokenize "smith ' s"
                     "steve smith's" false false)) as [H|H];
    [by vm_compute|by vm_compute in H|exact H].
Defined.

(** X17: when tokenizing [orig_text] gives [orig_text] back, and [pred_text]
    occurs in it and neither starts nor ends with a space,
    [get_final_text] returns the range of the first occurrence of
    [pred_text] and [nq_get_final_text] returns [pred_text]. *)
Theorem final_text_of_plain_text (basic_tokenize : bool -> string -> list string)
    (pred_text orig_text : string) (do_lower_case verbose_logging : bool) :
  retokenized basic_tokenize orig_text do_lower_case = orig_text ->
  occurs_in pred_text orig_text ->
  (exists c, String.get 0 pred_text = Some c /\ c <> " "%char) ->
  (exists c, String.get (String.length pred_text - 1) pred_text = Some c /\
             c <> " "%char) ->
  get_final_text basic_tokenize pred_text orig_text do_lower_case verbose_logging
    = (find orig_text pred_text, find orig_text pred_text + len pred_text) /\
  nq_get_final_text basic_tokenize pred_text orig_text do_lower_case
    verbose_logging = pred_text.
Proof.
  intros Htok Hocc (c1 & Hc1 & Hn1) (c2 & Hc2 & Hn2).
  destruct (find_cases orig_text pred_text) as [Hnf|(pre & post & Ho & Hfind)];
    [by apply find_not_found in Hnf|].
  set (chars := list_ascii_of_string orig_text).
  assert (0 < String.length pred_text)%nat as Hpos.
  { destruct pred_text; [done|simpl; lia]. }
  assert (forall (i : nat) (c : ascii),
            (i < String.length pred_text)%nat ->
            String.get i pred_text = Some c -> c <> " "%char ->
            exists k, ns_positions 0 chars !! k = Some (String.length pre + i)%nat)
    as Hmapped.
  { intros i c Hi Hc Hns. eexists. apply ns_positions_lookup.
    split; [lia|]. split; [|done]. exists c. rewrite Nat.sub_0_r. split.
    - unfold chars. rewrite Ho, !list_ascii_app.
      rewrite lookup_app_r by (rewrite list_ascii_length; lia).
      rewrite list_ascii_length.
      replace (String.length pre + i - String.length pre)%nat with i by lia.
      rewrite lookup_app_l by (by rewrite list_ascii_length).
      by rewrite <- string_get_lookup.
    - destruct (Ascii.eqb_spec c " "); done. }
  destruct (Hmapped 0%nat c1 Hpos Hc1 Hn1) as [k1 Hk1].
  destruct (Hmapped (String.length pred_text - 1)%nat c2 ltac:(lia) Hc2 Hn2)
    as [k2 Hk2].
  rewrite Nat.add_0_r in Hk1.
  destruct (final_text_success basic_tokenize pred_text orig_text do_lower_case
              verbose_logging (Z.of_nat (String.length pre))
              (Z.of_nat (String.length pre + (String.length pred_text - 1))))
    as [Hg Hn].
  - rewrite Htok, Hfind. lia.
  - by rewrite Htok.
  - unfold projected, start_of. rewrite Htok, Hfind.
    apply project_position_eq. by exists k1, (String.length pre), (String.length pre).
  - unfold projected, end_of, start_of. rewrite Htok, Hfind.
    apply project_position_eq.
    exists k2, (String.length pre + (String.length pred_text - 1))%nat,
      (String.length pre + (String.length pred_text - 1))%nat.
    split; [unfold len; lia|done].
  - rewrite Hg, Hn, Hfind. split.
    + f_equal. unfold len. lia.
    + replace (Z.of_nat (String.length pre + (String.length pred_text - 1)) + 1)
        with (Z.of_nat (String.length pre + String.length pred_text)) by lia.
      rewrite str_slice_inner.
      * replace (String.length pre + String.length pred_text
                 - String.length pre)%nat
          with (String.length pred_text) by lia.
        rewrite Ho at 1. rewrite list_ascii_middle.
        apply string_of_list_ascii_of_string.
      * rewrite Ho, <- !list_ascii_length, !list_ascii_app, !length_app. lia.
Qed.

Lemma final_text_of_plain_text_witness :
  get_final_text punctuation_tokenize "smith" "steve smith slept" true false
    = (find "steve smith slept" "smith", find "steve smith slept" "smith" + len "smith") /\
  nq_get_final_text punctuation_tokenize "smith" "steve smith slept" true false
    = "smith".
Proof.
  apply (final_text_of_plain_text punctuation_tokenize "smith"
           "steve smith slept" true false).
  - by vm_compute.
  - by exists "steve ", " slept".
  - by exists "s"%char.
  - by exists "h"%char.
Defined.

(** ** Loops that return *)

Lemma foldM_Ok_inv {A St} (I : St -> Prop) (body : St -> A -> res St)
    (l : list A) (st st' : St) :
  (forall st x st', x ∈ l -> body st x = Ok st' -> I st -> I st') ->
  I st -> foldM body st l = Ok st' -> I st'.
Proof.
  revert st. induction l as [|x l IH]; intros st Hstep H0; simpl.
  - by intros [= <-].
  - intros H. apply bind_Ok in H as (st1 & H1 & H).
    apply (IH st1); [|by eapply Hstep; [left|..]|done].
    intros st2 y st3 Hy. apply Hstep. by right.
Qed.

Lemma mapM_res_ext {A B} (f : A -> res B) (g : A -> B) (l : list A) :
  (forall x, x ∈ l -> f x = Ok (g x)) -> mapM_res f l = Ok (map g l).
Proof.
  induction l as [|x l IH]; intros H; simpl; [done|].
  rewrite H by (by left). simpl. rewrite IH; [done|].
  intros y Hy. apply H. by right.
Qed.

(** ** [get_nbest_json] *)

Section NbestJsonProofs.
Variable basic_tokenize : bool -> string -> list string.
Variable math_exp : Q -> Q.
Hypothesis math_exp_pos : forall x, (0 < math_exp x)%Q.
Variables (features : list Feature) (n_best_size : Z) (no_answer_logit : Q).
Variables (do_lower_case verbose_logging : bool).

Local Abbreviation final_text :=
  (fun pred => nbest_final_text basic_tokenize features pred do_lower_case
                 verbose_logging).

(** The loop takes the first [n_best_size] predictions, each with its
    text; it drops none of them. *)
Lemma nbest_collect_eq (prelim_predictions : list PrelimPrediction)
    (nbest : list NbestPrediction) :
  let taken :=
    take (Z.to_nat (n_best_size - Z.of_nat (length nbest))) prelim_predictions in
  nbest_collect basic_tokenize features n_best_size no_answer_logit do_lower_case
    verbose_logging ∅ prelim_predictions nbest
  = texts ← mapM_res final_text taken;
    Ok (nbest ++ zip_with (nbest_entry no_answer_logit) taken texts).
Proof.
  revert nbest. induction prelim_predictions as [|pred rest IH]; intros nbest;
    cbn zeta.
  - rewrite take_nil. simpl. by rewrite app_nil_r.
  - cbn [nbest_collect].
    destruct (Z.leb_spec n_best_size (Z.of_nat (length nbest))) as [Hle|Hgt].
    + replace (Z.to_nat (n_best_size - Z.of_nat (length nbest))) with 0%nat by lia.
      simpl. by rewrite app_nil_r.
    + replace (Z.to_nat (n_best_size - Z.of_nat (length nbest)))
        with (S (Z.to_nat (n_best_size - Z.of_nat (length nbest) - 1))) by lia.
      cbn [take mapM_res].
      destruct (nbest_final_text basic_tokenize features pred do_lower_case
                  verbose_logging) as [text|e]; [|done].
      cbn [mbind res_bind]. rewrite lookup_empty.
      rewrite bool_decide_eq_false_2 by (by intros [? ?]).
      specialize (IH (nbest ++ [ {| nb_text := text; nb_logit := pp_logit pred;
                                   nb_no_answer_logit := no_answer_logit |} ])).
      cbn zeta in IH. rewrite IH. rewrite length_app. simpl.
      replace (Z.to_nat (n_best_size - Z.of_nat (length nbest + 1)))
        with (Z.to_nat (n_best_size - Z.of_nat (length nbest) - 1)) by lia.
      clear IH. destruct (mapM_res _ _) as [texts|e]; simpl; [|done].
      by rewrite <- app_assoc.
Qed.

(** The entries of [nbest_json] for a non-empty [nbest]. *)
Lemma nbest_json_of (nbest : list NbestPrediction) :
  nbest <> [] ->
  exists probs,
    _compute_softmax math_exp (map nb_logit nbest) = Ok probs /\
    length probs = length nbest /\
    (probs ← _compute_softmax math_exp (map nb_logit nbest);
     nbest_json ← mapM_res (fun it : nat * NbestPrediction =>
                              let '(i, entry) := it in
                              probability ← or_raise IndexError (probs !! i);
                              Ok {| nj_text := nb_text entry;
                                    nj_probability := probability;
                                    nj_logit := nb_logit entry;
                                    nj_no_answer_logit := nb_no_answer_logit entry |})
                           (enumerate nbest);
     match nbest_json with
     | [] => Raise AssertionError
     | _ => Ok nbest_json
     end) = Ok (zip_with nbest_json_entry nbest probs).
Proof.
  intros Hne.
  destruct (compute_softmax_eq math_exp math_exp_pos (map nb_logit nbest))
    as (m & _ & _ & Heq); [by destruct nbest|].
  eexists. split; [exact Heq|].
  split; [by rewrite !length_map|].
  rewrite Heq. cbn [mbind res_bind].
  set (probs := map _ (map nb_logit nbest)).
  assert (length probs = length nbest) as Hlen
    by (unfold probs; by rewrite !length_map).
  assert (mapM_res (fun it : nat * NbestPrediction =>
                      let '(i, entry) := it in
                      probability ← or_raise IndexError (probs !! i);
                      Ok {| nj_text := nb_text entry;
                            nj_probability := probability;
                            nj_logit := nb_logit entry;
                            nj_no_answer_logit := nb_no_answer_logit entry |})
                   (enumerate nbest)
          = Ok (zip_with nbest_json_entry nbest probs)) as ->.
  { unfold enumerate. clearbody probs. clear Heq Hne.
    assert (forall n (l : list NbestPrediction) (ps : list Q),
              length ps = length l ->
              (forall i, (i < length l)%nat -> probs !! (n + i)%nat = ps !! i) ->
              mapM_res (fun it : nat * NbestPrediction =>
                          let '(i, entry) := it in
                          probability ← or_raise IndexError (probs !! i);
                          Ok {| nj_text := nb_text entry;
                                nj_probability := probability;
                                nj_logit := nb_logit entry;
                                nj_no_answer_logit := nb_no_answer_logit entry |})
                       (enumerate_from n l)
              = Ok (zip_with nbest_json_entry l ps)) as Hgen.
    { intros n l. revert n. induction l as [|x l IH]; intros n [|p ps] Hl Hp;
        simpl in *; try done.
      pose proof (Hp 0%nat ltac:(lia)) as H0. rewrite Nat.add_0_r in H0.
      simpl in H0. rewrite H0. simpl.
      rewrite (IH (S n) ps); [done|lia|].
      intros i Hi. specialize (Hp (S i) ltac:(lia)). simpl in Hp.
      by replace (S n + i)%nat with (n + S i)%nat by lia. }
    by apply Hgen. }
  cbn [mbind res_bind].
  destruct nbest as [|x nbest]; [done|]. destruct probs; [done|]. done.
Qed.

(** [get_nbest_json] once the texts of the predictions it takes are known. *)
Lemma get_nbest_json_eq (prelim_predictions : list PrelimPrediction)
    (texts : list string) :
  let taken := take (Z.to_nat n_best_size) prelim_predictions in
  mapM_res final_text taken = Ok texts ->
  exists nbest probs,
    nbest = match zip_with (nbest_entry no_answer_logit) taken texts with
            | [] => [nbest_nonce no_answer_logit]
            | entries => entries
            end /\
    _compute_softmax math_exp (map nb_logit nbest) = Ok probs /\
    length probs = length nbest /\
    get_nbest_json basic_tokenize math_exp features n_best_size no_answer_logit
      do_lower_case verbose_logging prelim_predictions
    = Ok (zip_with nbest_json_entry nbest probs).
Proof.
  intros taken Htexts. unfold get_nbest_json.
  pose proof (nbest_collect_eq prelim_predictions []) as Hc. cbn zeta in Hc.
  simpl length in Hc. rewrite Z.sub_0_r in Hc. fold taken in Hc.
  rewrite Hc, Htexts. cbn [mbind res_bind]. rewrite app_nil_l.
  set (entries := zip_with (nbest_entry no_answer_logit) taken texts).
  set (nbest := match entries with
                | [] => [nbest_nonce no_answer_logit]
                | x :: l => x :: l
                end).
  assert (nbest <> []) as Hne by (unfold nbest; by destruct entries).
  destruct (nbest_json_of nbest Hne) as (probs & Hp & Hlen & Heq).
  exists nbest, probs. split; [done|]. split; [done|]. split; [done|].
  rewrite <- Heq. unfold nbest, nbest_nonce. by destruct entries.
Qed.
End NbestJsonProofs.

(** X18: without predictions, or with an [n_best_size] that is not positive,
    [get_nbest_json] returns the single entry "empty" with the logit 0 and
    the probability 1. *)
Theorem get_nbest_json_nonce (basic_tokenize : bool -> string -> list string)
    (math_exp : Q -> Q) (features : list Feature) (n_best_size : Z)
    (no_answer_logit : Q) (do_lower_case verbose_logging : bool)
    (prelim_predictions : list PrelimPrediction) :
  (forall x, (0 < math_exp x)%Q) ->
  prelim_predictions = [] \/ n_best_size <= 0 ->
  exists probability,
    get_nbest_json basic_tokenize math_exp features n_best_size no_answer_logit
      do_lower_case verbose_logging prelim_predictions
    = Ok [ {| nj_text := "empty"; nj_probability := probability;
              nj_logit := 0; nj_no_answer_logit := no_answer_logit |} ] /\
    (probability == 1)%Q.
Proof.
  intros Hpos Hcase.
  assert (take (Z.to_nat n_best_size) prelim_predictions = []) as Htake.
  { destruct Hcase as [->|Hn]; [apply take_nil|].
    by replace (Z.to_nat n_best_size) with 0%nat by lia. }
  destruct (get_nbest_json_eq basic_tokenize math_exp Hpos features n_best_size
              no_answer_logit do_lower_case verbose_logging prelim_predictions [])
    as (nbest & probs & -> & Hp & Hlen & ->); [by rewrite Htake|].
  rewrite Htake in *. simpl in *.
  destruct probs as [|p [|? ?]]; try done.
  exists p. split; [done|].
  unfold _compute_softmax in Hp. simpl in Hp.
  destruct (Qeq_bool _ _) eqn:E; [done|]. injection Hp as <-.
  pose proof (Hpos (0 - 0)%Q). field. lra.
Qed.

Lemma get_nbest_json_nonce_witness :
  exists probability,
    get_nbest_json punctuation_tokenize sample_exp [sample_feature] 3 (1 # 2)
      true false []
    = Ok [ {| nj_text := "empty"; nj_probability := probability;
              nj_logit := 0; nj_no_answer_logit := 1 # 2 |} ] /\
    (probability == 1)%Q.
Proof.
  apply (get_nbest_json_nonce punctuation_tokenize sample_exp [sample_feature] 3
           (1 # 2) true false [] sample_exp_pos).
  by left.
Defined.

(** X19: [get_nbest_json] makes an entry for each of the first [n_best_size]
    predictions, in their order and with their logits, also when the text
    of a prediction repeats that of an earlier one: nothing is ever left
    out as already seen. *)
Theorem get_nbest_json_keeps_all (basic_tokenize : bool -> string -> list string)
    (math_exp : Q -> Q) (features : list Feature) (n_best_size : Z)
    (no_answer_logit : Q) (do_lower_case verbose_logging : bool)
    (prelim_predictions : list PrelimPrediction) (texts : list string) :
  (forall x, (0 < math_exp x)%Q) ->
  let taken := take (Z.to_nat n_best_size) prelim_predictions in
  mapM_res (fun pred => nbest_final_text basic_tokenize features pred
                          do_lower_case verbose_logging) taken = Ok texts ->
  taken <> [] ->
  exists nbest_json,
    get_nbest_json basic_tokenize math_exp features n_best_size no_answer_logit
      do_lower_case verbose_logging prelim_predictions = Ok nbest_json /\
    map nj_text nbest_json = texts /\
    map nj_logit nbest_json = map pp_logit taken /\
    Forall (fun entry => nj_no_answer_logit entry = no_answer_logit) nbest_json.
Proof.
  intros Hpos taken Htexts Hne.
  destruct (get_nbest_json_eq basic_tokenize math_exp Hpos features n_best_size
              no_answer_logit do_lower_case verbose_logging prelim_predictions
              texts Htexts)
    as (nbest & probs & Hnbest & Hp & Hlen & ->).
  fold taken in Hnbest.
  apply mapM_res_Ok in Htexts as [Hlt _].
  assert (nbest = zip_with (nbest_entry no_answer_logit) taken texts) as ->.
  { rewrite Hnbest. destruct taken as [|p t]; [done|].
    by destruct texts. }
  eexists. split; [done|].
  rewrite length_zip_with in Hlen.
  assert (length probs = length taken) as Hlp by lia.
  clear Hnbest Hp Hlen Hne. clearbody taken.
  revert texts probs Hlt Hlp.
  induction taken as [|pred taken IH]; intros [|t texts] [|p probs] Hlt Hlp;
    simpl in *; try done.
  destruct (IH texts probs) as (H1 & H2 & H3); [lia..|].
  split; [by rewrite H1|]. split; [by rewrite H2|]. by constructor.
Qed.

Lemma get_nbest_json_keeps_all_witness :
  exists nbest_json,
    get_nbest_json punctuation_tokenize sample_exp [sample_feature] 3 (1 # 2)
      true false sample_repeated_predictions = Ok nbest_json /\
    map nj_text nbest_json = ["Steve Smith"; "Steve Smith"] /\
    map nj_logit nbest_json = [1; 0]%Q /\
    Forall (fun entry => nj_no_answer_logit entry = 1 # 2) nbest_json.
Proof.
  destruct (get_nbest_json_keeps_all punctuation_tokenize sample_exp
              [sample_feature] 3 (1 # 2) true false sample_repeated_predictions
              ["Steve Smith"; "Steve Smith"] sample_exp_pos)
    as (nbest_json & H1 & H2 & H3 & H4); [by vm_compute..|].
  exists nbest_json. split; [exact H1|]. split; [exact H2|]. split; [exact H3|].
  exact H4.
Defined.

(** ** [write_predictions_nq] *)

Lemma foldM_app {A St} (body : St -> A -> res St) (l1 l2 : list A) (st : St) :
  foldM body st (l1 ++ l2) = st' ← foldM body st l1; foldM body st' l2.
Proof.
  revert st. induction l1 as [|x l1 IH]; intros st; simpl; [done|].
  destruct (body st x) as [st1|e]; simpl; [apply IH|done].
Qed.

Section UniformProofs.
Variable math_exp : Q -> Q.
Hypothesis math_exp_pos : forall x, (0 < math_exp x)%Q.

Lemma exp_sum_constant (m c : Q) (scores : list Q) (total : Q) :
  (forall s, In s scores -> s = c) ->
  (exp_sum math_exp m scores total
   == total + inject_Z (Z.of_nat (length scores)) * math_exp (c - m))%Q.
Proof.
  revert total. induction scores as [|s scores IH]; intros total Hall.
  - simpl. change (inject_Z (Z.of_nat 0)) with 0%Q. ring.
  - unfold exp_sum in *. cbn [fold_left length].
    rewrite IH by (intros; apply Hall; by right).
    rewrite (Hall s) by (by left).
    rewrite Nat2Z.inj_succ, <- Z.add_1_r, inject_Z_plus.
    change (inject_Z 1) with 1%Q. ring.
Qed.

(** The probabilities of equal logits are equal. *)
Lemma compute_softmax_constant (c : Q) (scores probs : list Q) :
  (forall s, In s scores -> s = c) ->
  _compute_softmax math_exp scores = Ok probs ->
  length probs = length scores /\
  forall p, In p probs ->
    (p * inject_Z (Z.of_nat (length scores)) == 1)%Q.
Proof.
  intros Hall Heq. destruct scores as [|s0 scores].
  { injection Heq as <-. split; [done|]. intros p []. }
  destruct (compute_softmax_eq math_exp math_exp_pos (s0 :: scores) ltac:(done))
    as (m & _ & _ & Heq').
  rewrite Heq' in Heq.
  assert (probs = map (fun score =>
                         (math_exp (score - m)
                          / exp_sum math_exp m (s0 :: scores) 0)%Q)
                    (s0 :: scores)) as -> by congruence.
  clear Heq. split; [by rewrite length_map|].
  intros p Hp. apply in_map_iff in Hp as (s & <- & Hs).
  rewrite (Hall s Hs).
  pose proof (exp_sum_constant m c (s0 :: scores) 0 Hall) as Hsum.
  pose proof (math_exp_pos (c - m)) as He.
  assert (0 < inject_Z (Z.of_nat (length (s0 :: scores))))%Q as Hk.
  { change 0%Q with (inject_Z 0). rewrite <- Zlt_Qlt. simpl. lia. }
  rewrite Hsum. field. split; nra.
Qed.
End UniformProofs.

Section NqProofs.
Variable basic_tokenize : bool -> string -> list string.
Variable math_exp : Q -> Q.
Hypothesis math_exp_pos : forall x, (0 < math_exp x)%Q.

(** What [get_nbest_json] returns, from a run that returns. *)
Lemma get_nbest_json_Ok (features : list Feature) (n_best_size : Z)
    (no_answer_logit : Q) (do_lower_case verbose_logging : bool)
    (prelim_predictions : list PrelimPrediction) (nbest_json : list NbestJson) :
  get_nbest_json basic_tokenize math_exp features n_best_size no_answer_logit
    do_lower_case verbose_logging prelim_predictions = Ok nbest_json ->
  exists texts nbest probs,
    let taken := take (Z.to_nat n_best_size) prelim_predictions in
    length texts = length taken /\
    nbest = match zip_with (nbest_entry no_answer_logit) taken texts with
            | [] => [nbest_nonce no_answer_logit]
            | entries => entries
            end /\
    _compute_softmax math_exp (map nb_logit nbest) = Ok probs /\
    length probs = length nbest /\
    nbest_json = zip_with nbest_json_entry nbest probs.
Proof.
  intros H.
  destruct (mapM_res (fun pred => nbest_final_text basic_tokenize features pred
                                    do_lower_case verbose_logging)
              (take (Z.to_nat n_best_size) prelim_predictions))
    as [texts|e] eqn:Htexts.
  - destruct (get_nbest_json_eq basic_tokenize math_exp math_exp_pos features
                n_best_size no_answer_logit do_lower_case verbose_logging
                prelim_predictions texts Htexts)
      as (nbest & probs & Hnbest & Hp & Hlen & Heq).
    exists texts, nbest, probs. cbn zeta.
    apply mapM_res_Ok in Htexts as [Hlt _].
    split; [done|]. split; [done|]. split; [done|]. split; [done|]. congruence.
  - unfold get_nbest_json in H.
    pose proof (nbest_collect_eq basic_tokenize features n_best_size
                  no_answer_logit do_lower_case verbose_logging
                  prelim_predictions []) as Hc.
    cbn zeta in Hc. simpl length in Hc. rewrite Z.sub_0_r in Hc.
    rewrite Hc, Htexts in H. done.
Qed.

(** Predictions of one logit get one probability. *)
Lemma get_nbest_json_uniform (features : list Feature) (n_best_size : Z)
    (no_answer_logit : Q) (do_lower_case verbose_logging : bool)
    (prelim_predictions : list PrelimPrediction) (nbest_json : list NbestJson)
    (c : Q) :
  (forall pred, pred ∈ prelim_predictions -> pp_logit pred = c) ->
  get_nbest_json basic_tokenize math_exp features n_best_size no_answer_logit
    do_lower_case verbose_logging prelim_predictions = Ok nbest_json ->
  uniform nbest_json.
Proof.
  intros Hall H.
  apply get_nbest_json_Ok in H as (texts & nbest & probs & Hlt & Hnbest & Hp
                                   & Hlen & ->).
  cbn zeta in *.
  set (taken := take (Z.to_nat n_best_size) prelim_predictions) in *.
  assert (exists c', forall s, In s (map nb_logit nbest) -> s = c') as [c' Hc'].
  { destruct (zip_with (nbest_entry no_answer_logit) taken texts) as [|x l] eqn:Ez.
    - exists 0%Q. subst nbest. intros s [<-|[]]. done.
    - exists c. subst nbest. rewrite <- Ez. intros s Hs.
      apply in_map_iff in Hs as (entry & <- & Hin).
      apply list_elem_of_In, elem_of_lookup_zip_with in Hin
        as (i & pred & text & -> & Hpred & _).
      simpl. apply Hall. unfold taken in Hpred.
      apply lookup_take_Some in Hpred as [Hpred _].
      apply list_elem_of_lookup. eauto. }
  destruct (compute_softmax_constant math_exp math_exp_pos c' _ _ Hc' Hp)
    as [_ Hprob].
  rewrite length_map in Hprob.
  intros entry Hin.
  rewrite length_zip_with, Hlen, Nat.min_id.
  apply elem_of_lookup_zip_with in Hin as (i & e & p & -> & _ & Hpi).
  simpl. apply Hprob. apply list_elem_of_In, list_elem_of_lookup. eauto.
Qed.

(** The predictions that the loop over the sorted scores adds carry the
    logit of its result and the index of its feature. *)
Lemma nq_collect_logit (feature : Feature) (result : Result) (feature_index : nat)
    (n_best_size : Z) (n_paragraphs : option (list Z))
    (scores : list ((Z * Z) * Q)) (prelim out : list PrelimPrediction) :
  nq_collect feature result feature_index n_best_size n_paragraphs scores prelim
    = Ok out ->
  forall pred, pred ∈ out ->
    pred ∈ prelim \/
    exists sw, getitem (r_switch result) 3 = Ok sw /\ pp_logit pred = (- sw)%Q.
Proof.
  revert prelim. induction scores as [|[[s e] sc] scores IH]; intros prelim; simpl.
  - intros [= <-] pred Hin. by left.
  - destruct (nq_guard_of feature s e); try (by apply IH).
    intros H. apply bind_Ok in H as (logit & Hlogit & H).
    apply bind_Ok in H as (sw & Hsw & H).
    rewrite Hsw in Hlogit. injection Hlogit as <-.
    assert (forall out' : list PrelimPrediction,
              (forall pred, pred ∈ out' ->
                 pred ∈ prelim ++
                   [ {| pp_paragraph_index := f_paragraph_index feature;
                        pp_feature_index := feature_index;
                        pp_start_index := s; pp_end_index := e;
                        pp_logit := (- sw)%Q; pp_no_answer_logit := sw |} ] \/
                 exists sw, getitem (r_switch result) 3 = Ok sw /\
                            pp_logit pred = (- sw)%Q) ->
              forall pred, pred ∈ out' ->
                pred ∈ prelim \/
                exists sw, getitem (r_switch result) 3 = Ok sw /\
                           pp_logit pred = (- sw)%Q) as Hweak.
    { intros out' Hout pred Hin.
      destruct (Hout pred Hin) as [Hp|Hp]; [|by right].
      apply elem_of_app in Hp as [Hp|Hp]; [by left|].
      apply list_elem_of_singleton in Hp as ->. right. by exists sw. }
    destruct n_paragraphs.
    + apply Hweak. by apply IH.
    + destruct (n_best_size <=? _).
      * injection H as <-. apply Hweak. intros pred Hin. by left.
      * apply Hweak. by apply IH.
Qed.

(** Without paragraph cut-offs all predictions of an example have one
    logit: they are those of one feature. *)
Lemma nq_prelim_one_logit (unique_id_to_result : gmap Z Result)
    (features : list Feature) (n_best_size : Z) (last_result last_result' : option Result)
    (prelims : list PrelimPrediction) :
  nq_prelim_predictions unique_id_to_result features n_best_size None last_result
    = Ok (prelims, last_result') ->
  exists c, forall pred, pred ∈ prelims -> pp_logit pred = c.
Proof.
  unfold nq_prelim_predictions. intros H.
  apply bind_Ok in H as (results & Hres & H).
  apply bind_Ok in H as ([prelim lr] & Hloop & H).
  injection H as <- <-.
  assert (length results <= 1)%nat as Hlen.
  { unfold nq_results in Hres. apply bind_Ok in Hres as (keyed & _ & Hres).
    injection Hres as <-. rewrite py_slice_length by lia. lia. }
  destruct results as [|[fi f] [|? ?]]; simpl in Hlen; [| |lia].
  - simpl in Hloop. injection Hloop as <- <-. exists 0%Q.
    intros pred Hin. apply elem_of_sorted_by in Hin. by apply elem_of_nil in Hin.
  - simpl in Hloop.
    apply bind_Ok in Hloop as ([acc lr'] & Hstep & Hloop).
    injection Hloop as <- <-.
    apply bind_Ok in Hstep as (result & Hresult & Hstep).
    apply bind_Ok in Hstep as (out & Hout & Hstep).
    injection Hstep as <- <-.
    destruct (getitem (r_switch result) 3) as [sw|e] eqn:Hsw.
    + exists (- sw)%Q. intros pred Hin. apply elem_of_sorted_by in Hin.
      destruct (nq_collect_logit _ _ _ _ _ _ _ _ Hout pred Hin)
        as [Hnil|(sw' & Hsw' & ->)]; [by apply elem_of_nil in Hnil|].
      congruence.
    + exists 0%Q. intros pred Hin. apply elem_of_sorted_by in Hin.
      destruct (nq_collect_logit _ _ _ _ _ _ _ _ Hout pred Hin)
        as [Hnil|(sw' & Hsw' & _)]; [by apply elem_of_nil in Hnil|].
      congruence.
Qed.

Variables (all_features : list Feature) (unique_id_to_result : gmap Z Result).
Variables (n_best_size : Z) (do_lower_case verbose_logging : bool).

Local Abbreviation body n_paragraphs :=
  (nq_example basic_tokenize math_exp all_features unique_id_to_result n_best_size
     do_lower_case verbose_logging n_paragraphs).

(** One example sets the two entries of its question and no other. *)
Lemma nq_example_sets (n_paragraphs : option (list Z))
    (all_predictions all_predictions' : gmap string nq_prediction)
    (all_nbest_json all_nbest_json' : gmap string nq_nbest)
    (last_result last_result' : option Result) (example_index : nat)
    (example : Example) :
  body n_paragraphs (all_predictions, all_nbest_json, last_result)
    (example_index, example)
  = Ok (all_predictions', all_nbest_json', last_result') ->
  exists prediction nbest,
    all_predictions' = <[ex_qas_id example := prediction]> all_predictions /\
    all_nbest_json' = <[ex_qas_id example := nbest]> all_nbest_json /\
    (List.filter (fun feature => (f_example_index feature =? example_index)%nat)
       all_features = [] -> n_paragraphs = None ->
     prediction = Pred_with_answers "empty" (ex_all_answers example) /\
     nbest = Nbest_placeholder nbest_no_features).
Proof.
  unfold nq_example.
  destruct (List.filter _ all_features) as [|f0 fs] eqn:Hfeat.
  - destruct n_paragraphs as [cutoffs|].
    + simpl. intros H.
      repeat (apply bind_Ok in H; destruct H as (? & _ & H)).
      injection H as <- <- <-.
      eexists _, _. split; [done|]. split; [done|]. done.
    + simpl. intros [= <- <- <-]. eexists _, _. split; [done|]. split; [done|].
      done.
  - assert ((Z.of_nat (length (f0 :: fs)) =? 0) = false) as ->
      by (apply Z.eqb_neq; simpl; lia).
    cbn [andb]. intros H.
    apply bind_Ok in H as ([prelim lr] & Hprelim & H).
    apply bind_Ok in H as (result & _ & H).
    apply bind_Ok in H as (nal & _ & H).
    destruct n_paragraphs as [cutoffs|].
    + apply bind_Ok in H as (texts & _ & H). injection H as <- <- <-.
      eexists _, _. split; [done|]. split; [done|]. done.
    + apply bind_Ok in H as (nbest_json & Hjson & H).
      apply bind_Ok in H as (first & _ & H). injection H as <- <- <-.
      eexists _, _. split; [done|]. split; [done|]. done.
Qed.

(** Without paragraph cut-offs the entries that one example stores have
    uniform probabilities, if those stored before have. *)
Lemma nq_example_uniform
    (st st' : gmap string nq_prediction * gmap string nq_nbest * option Result)
    (it : nat * Example) :
  body None st it = Ok st' ->
  (forall q nbest_json,
     st.1.2 !! q = Some (Nbest_entries nbest_json) -> uniform nbest_json) ->
  forall q nbest_json,
    st'.1.2 !! q = Some (Nbest_entries nbest_json) -> uniform nbest_json.
Proof.
  destruct st as [[ap an] lr], st' as [[ap' an'] lr'], it as [i example].
  unfold nq_example. simpl fst. simpl snd.
  destruct ((Z.of_nat (length _) =? 0) && _).
  - intros [= <- <- <-] H0 q nbest_json.
    destruct (decide (ex_qas_id example = q)) as [<-|Hne].
    + by rewrite lookup_insert_eq.
    + rewrite lookup_insert_ne by done. apply H0.
  - intros H. apply bind_Ok in H as ([prelim lr1] & Hprelim & H).
    apply bind_Ok in H as (result & _ & H).
    apply bind_Ok in H as (nal & _ & H).
    apply bind_Ok in H as (nbest_json & Hjson & H).
    apply bind_Ok in H as (first & _ & H). injection H as <- <- <-.
    intros H0 q nbest_json'.
    destruct (decide (ex_qas_id example = q)) as [<-|Hne].
    + rewrite lookup_insert_eq. intros [= <-].
      apply nq_prelim_one_logit in Hprelim as [c Hc].
      by eapply get_nbest_json_uniform.
    + rewrite lookup_insert_ne by done. apply H0.
Qed.

(** The loop over the examples. *)
Lemma nq_examples_sets (n_paragraphs : option (list Z)) (examples : list Example)
    (n : nat) (all_predictions all_predictions' : gmap string nq_prediction)
    (all_nbest_json all_nbest_json' : gmap string nq_nbest)
    (last_result last_result' : option Result) :
  foldM (body n_paragraphs) (all_predictions, all_nbest_json, last_result)
    (enumerate_from n examples)
  = Ok (all_predictions', all_nbest_json', last_result') ->
  (forall q,
     (is_Some (all_predictions' !! q) <->
      is_Some (all_predictions !! q) \/
      exists example, example ∈ examples /\ ex_qas_id example = q) /\
     (is_Some (all_nbest_json' !! q) <->
      is_Some (all_nbest_json !! q) \/
      exists example, example ∈ examples /\ ex_qas_id example = q)) /\
  (forall q,
     (forall example, example ∈ examples -> ex_qas_id example <> q) ->
     all_predictions' !! q = all_predictions !! q /\
     all_nbest_json' !! q = all_nbest_json !! q).
Proof.
  revert n all_predictions all_nbest_json last_result.
  induction examples as [|example examples IH]; intros n ap an lr; simpl.
  - intros [= <- <- <-]. split; [|done].
    intros q. split; (split; [by left|]);
      (intros [?|(ex & Hin & _)]; [done|by apply elem_of_nil in Hin]).
  - intros H. apply bind_Ok in H as ([[ap1 an1] lr1] & Hstep & Hrest).
    apply nq_example_sets in Hstep as (pr & nb & -> & -> & _).
    apply IH in Hrest as (Hkeys & Hframe). split.
    + intros q. destruct (Hkeys q) as [Hp Hn]. rewrite Hp, Hn.
      destruct (decide (ex_qas_id example = q)) as [<-|Hne].
      * rewrite !lookup_insert_eq.
        split; (split; [intros _|intros _; left; by eexists]);
          right; exists example; (split; [by left|done]).
      * rewrite !lookup_insert_ne by done.
        split; (split; (intros [?|(ex & Hin & Hq)]; [by left|right; exists ex])).
        all: try (split; [by right|done]).
        all: apply elem_of_cons in Hin as [->|Hin]; [done|by split].
    + intros q Hq.
      destruct (Hframe q) as [Hp Hn]; [intros ex Hin; apply Hq; by right|].
      rewrite Hp, Hn.
      rewrite !lookup_insert_ne by (apply Hq; by left). done.
Qed.
End NqProofs.

(** X20: when [write_predictions_nq] returns, its two dictionaries have an
    entry for the question of every example and for nothing else. *)
Theorem write_predictions_nq_questions
    (basic_tokenize : bool -> string -> list string) (math_exp : Q -> Q)
    (all_examples : list Example) (all_features : list Feature)
    (all_results : list Result) (n_best_size : Z)
    (do_lower_case verbose_logging : bool) (n_paragraphs : option (list Z))
    (all_predictions : gmap string nq_prediction)
    (all_nbest_json : gmap string nq_nbest) (q : string) :
  write_predictions_nq basic_tokenize math_exp all_examples all_features
    all_results n_best_size do_lower_case verbose_logging n_paragraphs
  = Ok (all_predictions, all_nbest_json) ->
  (is_Some (all_predictions !! q) <->
   exists example, example ∈ all_examples /\ ex_qas_id example = q) /\
  (is_Some (all_nbest_json !! q) <->
   exists example, example ∈ all_examples /\ ex_qas_id example = q).
Proof.
  unfold write_predictions_nq. intros H.
  apply bind_Ok in H as ([[ap an] lr] & Hfold & H). injection H as <- <-.
  apply nq_examples_sets in Hfold as (Hkeys & _).
  destruct (Hkeys q) as [Hp Hn]. rewrite Hp, Hn, !lookup_empty.
  split; (split; [intros [[? ?]|?]; done|by right]).
Qed.

(** X21: without paragraph cut-offs, the probabilities that
    [write_predictions_nq] gives the entries of a question are all the
    same, one over their number: every prediction of the question carries
    one logit, that of its feature. *)
Theorem write_predictions_nq_uniform
    (basic_tokenize : bool -> string -> list string) (math_exp : Q -> Q)
    (all_examples : list Example) (all_features : list Feature)
    (all_results : list Result) (n_best_size : Z)
    (do_lower_case verbose_logging : bool)
    (all_predictions : gmap string nq_prediction)
    (all_nbest_json : gmap string nq_nbest) (q : string)
    (nbest_json : list NbestJson) :
  (forall x, (0 < math_exp x)%Q) ->
  write_predictions_nq basic_tokenize math_exp all_examples all_features
    all_results n_best_size do_lower_case verbose_logging None
  = Ok (all_predictions, all_nbest_json) ->
  all_nbest_json !! q = Some (Nbest_entries nbest_json) ->
  forall entry, entry ∈ nbest_json ->
    (nj_probability entry * inject_Z (Z.of_nat (length nbest_json)) == 1)%Q.
Proof.
  unfold write_predictions_nq. intros Hpos H Hq.
  apply bind_Ok in H as ([[ap an] lr] & Hfold & H). injection H as <- <-.
  assert (forall q nbest_json,
            an !! q = Some (Nbest_entries nbest_json) -> uniform nbest_json)
    as HI; [|by apply (HI q)].
  refine (foldM_Ok_inv
            (fun st : gmap string nq_prediction * gmap string nq_nbest
                      * option Result =>
               forall q nbest_json,
                 st.1.2 !! q = Some (Nbest_entries nbest_json) ->
                 uniform nbest_json)
            _ _ _ (ap, an, lr) _ _ Hfold).
  - intros st x st' _ Hb H0. by eapply nq_example_uniform.
  - intros q' nb. simpl. by rewrite lookup_empty.
Qed.

(** X22: without paragraph cut-offs, an example that no feature belongs to,
    and whose question no other example has, gets the prediction "empty"
    with its own answers, and the entry "empty" with the logits -1000 and
    1000. *)
Theorem write_predictions_nq_no_features
    (basic_tokenize : bool -> string -> list string) (math_exp : Q -> Q)
    (all_examples : list Example) (all_features : list Feature)
    (all_results : list Result) (n_best_size : Z)
    (do_lower_case verbose_logging : bool)
    (all_predictions : gmap string nq_prediction)
    (all_nbest_json : gmap string nq_nbest)
    (example_index : nat) (example : Example) :
  write_predictions_nq basic_tokenize math_exp all_examples all_features
    all_results n_best_size do_lower_case verbose_logging None
  = Ok (all_predictions, all_nbest_json) ->
  all_examples !! example_index = Some example ->
  (forall feature, feature ∈ all_features ->
     f_example_index feature <> example_index) ->
  (forall i other, all_examples !! i = Some other -> i <> example_index ->
     ex_qas_id other <> ex_qas_id example) ->
  all_predictions !! ex_qas_id example
    = Some (Pred_with_answers "empty" (ex_all_answers example)) /\
  all_nbest_json !! ex_qas_id example
    = Some (Nbest_placeholder
              {| nb_text := "empty"; nb_logit := -1000;
                 nb_no_answer_logit := 1000 |}).
Proof.
  unfold write_predictions_nq. intros H Hex Hnone Hother.
  apply bind_Ok in H as ([[ap an] lr] & Hfold & H). injection H as <- <-.
  unfold enumerate in Hfold.
  rewrite <- (take_drop_middle _ _ _ Hex) in Hfold.
  rewrite enumerate_from_app, foldM_app in Hfold.
  apply bind_Ok in Hfold as ([[ap1 an1] lr1] & _ & Hfold).
  cbn [enumerate_from foldM] in Hfold.
  apply bind_Ok in Hfold as ([[ap2 an2] lr2] & Hstep & Hrest).
  rewrite length_take_le in Hstep by (apply lookup_lt_Some in Hex; lia).
  apply nq_example_sets in Hstep as (pr & nb & -> & -> & Hempty).
  destruct Hempty as [-> ->]; [|done|].
  { simpl. clear -Hnone. induction all_features as [|f l IH]; [done|]. simpl.
    destruct (Nat.eqb_spec (f_example_index f) example_index) as [Heq|_].
    - exfalso. apply (Hnone f); [by left|done].
    - apply IH. intros f' Hin. apply Hnone. by right. }
  apply nq_examples_sets in Hrest as (_ & Hframe).
  destruct (Hframe (ex_qas_id example)) as [-> ->];
    [|by rewrite !lookup_insert_eq].
  intros other Hin. apply list_elem_of_lookup in Hin as [j Hj].
  rewrite lookup_drop in Hj. apply (Hother _ _ Hj). lia.
Qed.

Lemma write_predictions_nq_questions_witness :
  exists all_predictions all_nbest_json,
    write_predictions_nq punctuation_tokenize sample_exp
      [sample_example; sample_example_2] [sample_feature] [sample_result] 3
      true false None = Ok (all_predictions, all_nbest_json) /\
    (is_Some (all_predictions !! "q2") <->
     exists example,
       example ∈ [sample_example; sample_example_2] /\ ex_qas_id example = "q2") /\
    (is_Some (all_nbest_json !! "q2") <->
     exists example,
       example ∈ [sample_example; sample_example_2] /\ ex_qas_id example = "q2").
Proof.
  destruct (write_predictions_nq punctuation_tokenize sample_exp
              [sample_example; sample_example_2] [sample_feature] [sample_result]
              3 true false None) as [[ap an]|e] eqn:E; [|by vm_compute in E].
  exists ap, an. split; [done|].
  exact (write_predictions_nq_questions _ _ _ _ _ _ _ _ _ _ _ "q2" E).
Defined.

Lemma write_predictions_nq_uniform_witness :
  exists all_predictions all_nbest_json nbest_json,
    write_predictions_nq punctuation_tokenize sample_exp
      [sample_example; sample_example_2] [sample_feature] [sample_result] 3
      true false None = Ok (all_predictions, all_nbest_json) /\
    all_nbest_json !! "q1" = Some (Nbest_entries nbest_json) /\
    length nbest_json = 3%nat /\
    forall entry, entry ∈ nbest_json ->
      (nj_probability entry * inject_Z (Z.of_nat (length nbest_json)) == 1)%Q.
Proof.
  destruct (write_predictions_nq punctuation_tokenize sample_exp
              [sample_example; sample_example_2] [sample_feature] [sample_result]
              3 true false None) as [[ap an]|e] eqn:E; [|by vm_compute in E].
  pose proof E as E'. vm_compute in E'. injection E' as <- <-.
  eexists _, _, _. split; [exact E|].
  split; [vm_compute; reflexivity|]. split; [reflexivity|].
  apply (write_predictions_nq_uniform _ _ _ _ _ _ _ _ _ _ "q1" _
           sample_exp_pos E).
  vm_compute. reflexivity.
Defined.

Lemma write_predictions_nq_no_features_witness :
  exists all_predictions all_nbest_json,
    write_predictions_nq punctuation_tokenize sample_exp
      [sample_example; sample_example_2] [sample_feature] [sample_result] 3
      true false None = Ok (all_predictions, all_nbest_json) /\
    all_predictions !! "q2" = Some (Pred_with_answers "empty" ["nothing"]) /\
    all_nbest_json !! "q2"
      = Some (Nbest_placeholder
                {| nb_text := "empty"; nb_logit := -1000;
                   nb_no_answer_logit := 1000 |}).
Proof.
  destruct (write_predictions_nq punctuation_tokenize sample_exp
              [sample_example; sample_example_2] [sample_feature] [sample_result]
              3 true false None) as [[ap an]|e] eqn:E; [|by vm_compute in E].
  exists ap, an. split; [done|].
  apply (write_predictions_nq_no_features _ _ _ _ _ _ _ _ _ _ 1 sample_example_2 E).
  - done.
  - intros feature Hin. apply list_elem_of_singleton in Hin as ->. done.
  - intros [|[|i]] other Hi Hne; simpl in Hi; try done.
    by injection Hi as <-.
Defined.

(** ** [get_final_text_]: the span in the text of the document *)

Lemma append_assoc (s t u : string) : ((s ++ t) ++ u = s ++ (t ++ u))%string.
Proof.
  induction s as [|c s IH]; [done|]. rewrite !append_String. by rewrite IH.
Qed.

Lemma append_Empty_r (s : string) : (s ++ EmptyString)%string = s.
Proof. induction s as [|c s IH]; [done|]. rewrite append_String. by rewrite IH. Qed.

Lemma len_append (s t : string) : len (s ++ t) = len s + len t.
Proof.
  unfold len. rewrite <- !list_ascii_length, list_ascii_app, length_app. lia.
Qed.

Lemma fold_left_add (l : list Z) (a : Z) :
  fold_left Z.add l a = a + fold_left Z.add l 0.
Proof.
  revert a. induction l as [|x l IH]; intros a; simpl; [lia|].
  rewrite (IH (a + x)), (IH (0 + x)). lia.
Qed.

(** The text before the words [l2] in the joined words [l1 ++ l2]. *)
Lemma join_prefix (l1 l2 : list string) :
  l2 <> [] ->
  exists before,
    join " " (l1 ++ l2) = (before ++ join " " l2)%string /\
    len before = fold_left Z.add (map (fun word => len word + 1) l1) 0.
Proof.
  intros Hne. induction l1 as [|w l1 (before & Heq & Hlen)].
  - exists EmptyString. by split.
  - exists (w ++ " " ++ before)%string. split.
    + cbn [app join]. rewrite Heq.
      destruct (l1 ++ l2) eqn:E.
      { apply app_eq_nil in E as [_ ->]. done. }
      by rewrite !append_assoc.
    + cbn [map fold_left]. rewrite fold_left_add, <- Hlen, !len_append.
      change (len " ") with 1. lia.
Qed.

(** The text after the words [l1] in the joined words [l1 ++ l2]. *)
Lemma join_suffix (l1 l2 : list string) :
  l1 <> [] ->
  exists after, join " " (l1 ++ l2) = (join " " l1 ++ after)%string.
Proof.
  intros Hne. induction l1 as [|w l1 IH]; [done|].
  destruct l1 as [|w' l1].
  - destruct l2 as [|x l2].
    + exists EmptyString. by rewrite append_Empty_r.
    + by exists (" " ++ join " " (x :: l2))%string.
  - destruct IH as [after Heq]; [done|]. exists after.
    change (join " " ((w :: w' :: l1) ++ l2))
      with (w ++ " " ++ join " " ((w' :: l1) ++ l2))%string.
    rewrite Heq.
    change (join " " (w :: w' :: l1))
      with (w ++ " " ++ join " " (w' :: l1))%string.
    by rewrite !append_assoc.
Qed.

(** A slice of the middle of a text. *)
Lemma str_slice_middle (before middle after : string) (s e : Z) :
  0 <= s -> s <= e -> e <= len middle ->
  str_slice (before ++ middle ++ after) (len before + s) (len before + e)
  = str_slice middle s e.
Proof.
  intros Hs Hse He. unfold len in *.
  replace (Z.of_nat (String.length before) + s)
    with (Z.of_nat (String.length before + Z.to_nat s)) by lia.
  replace (Z.of_nat (String.length before) + e)
    with (Z.of_nat (String.length before + Z.to_nat e)) by lia.
  rewrite <- (Z2Nat.id s) at 2 by lia. rewrite <- (Z2Nat.id e) at 2 by lia.
  rewrite !str_slice_inner.
  - f_equal. rewrite !list_ascii_app.
    rewrite <- list_ascii_length.
    rewrite drop_app_add.
    replace (length (list_ascii_of_string before) + Z.to_nat e
             - (length (list_ascii_of_string before) + Z.to_nat s))%nat
      with (Z.to_nat e - Z.to_nat s)%nat by lia.
    rewrite drop_app_le by (rewrite list_ascii_length; lia).
    rewrite take_app_le; [done|].
    rewrite length_drop, list_ascii_length. lia.
  - lia.
  - rewrite <- !list_ascii_length, !list_ascii_app, !length_app,
      !list_ascii_length. lia.
Qed.

Section FinalTextOfSpanProofs.
Variable basic_tokenize : bool -> string -> list string.
Variables (example : Example) (feature : Feature).
Variables (start_index end_index : Z) (do_lower_case verbose_logging : bool).

Local Abbreviation run :=
  (get_final_text_ basic_tokenize example feature start_index end_index
     do_lower_case verbose_logging).

Lemma get_final_text__raises (e : exn) :
  run = Raise e <->
  e = KeyError /\
  (f_token_to_word_map feature !! start_index = None \/
   f_token_to_word_map feature !! end_index = None).
Proof.
  unfold get_final_text_.
  destruct (f_token_to_word_map feature !! start_index) as [ws|]; simpl.
  - destruct (f_token_to_word_map feature !! end_index) as [we|]; simpl.
    + destruct (get_final_text _ _ _ _ _). split; [done|]. by intros [_ [?|?]].
    + split; [intros [= <-]; split; [done|by right]|by intros [-> _]].
  - split; [intros [= <-]; split; [done|by left]|by intros [-> _]].
Qed.

Lemma get_final_text__returns (orig_doc_start orig_doc_end : Z) :
  f_token_to_word_map feature !! start_index = Some orig_doc_start ->
  f_token_to_word_map feature !! end_index = Some orig_doc_end ->
  0 <= orig_doc_start -> orig_doc_start <= orig_doc_end ->
  orig_doc_end < Z.of_nat (length (ex_doc_words example)) ->
  let full_text := join " " (ex_doc_words example) in
  let orig_text :=
    join " " (py_slice (ex_doc_words example) orig_doc_start (orig_doc_end + 1)) in
  exists start_pos end_pos,
    run = Ok (full_text, start_pos, end_pos) /\
    0 <= start_pos /\ start_pos <= end_pos /\ end_pos <= len full_text /\
    exists before after,
      orig_text = (before ++ str_slice full_text start_pos end_pos ++ after)%string.
Proof.
  intros Hs He H0 Hle Hlt full_text orig_text.
  unfold get_final_text_. rewrite Hs, He. simpl.
  fold orig_text. fold full_text.
  match goal with
  | |- context [get_final_text basic_tokenize ?t orig_text _ _] =>
      pose proof (final_text_range basic_tokenize t orig_text do_lower_case
                    verbose_logging) as Hrange;
      destruct (get_final_text basic_tokenize t orig_text do_lower_case
                  verbose_logging) as [s e]
  end.
  destruct Hrange as (Hs0 & Hse & Hel).
  set (words := ex_doc_words example) in *.
  set (a := Z.to_nat orig_doc_start). set (b := Z.to_nat (orig_doc_end + 1)).
  assert (py_slice words 0 orig_doc_start = take a words) as Hpre.
  { change 0 with (Z.of_nat 0). rewrite <- (Z2Nat.id orig_doc_start) by lia.
    rewrite py_slice_inner by (fold a; lia). by rewrite drop_0, Nat.sub_0_r. }
  assert (py_slice words orig_doc_start (orig_doc_end + 1)
          = take (b - a) (drop a words)) as Hmid.
  { rewrite <- (Z2Nat.id orig_doc_start), <- (Z2Nat.id (orig_doc_end + 1)) by lia.
    by rewrite py_slice_inner by (fold a b; lia). }
  assert (words = take a words ++ take (b - a) (drop a words) ++ drop b words)
    as Hsplit.
  { rewrite app_assoc, take_take_drop.
    replace (a + (b - a))%nat with b by lia. by rewrite take_drop. }
  assert (take (b - a) (drop a words) <> []) as Hne.
  { intros Hnil. apply (f_equal length) in Hnil.
    rewrite length_take, length_drop in Hnil. simpl in Hnil. lia. }
  destruct (join_prefix (take a words)
              (take (b - a) (drop a words) ++ drop b words))
    as (before & Hfull & Hlen); [by destruct (take (b - a) (drop a words))|].
  destruct (join_suffix (take (b - a) (drop a words)) (drop b words) Hne)
    as (after & Hrest).
  rewrite Hrest, <- Hsplit, <- Hmid in Hfull. fold orig_text full_text in Hfull.
  rewrite Hpre, <- Hlen.
  eexists _, _. split; [done|].
  assert (len full_text = len before + len orig_text + len after) as Hlenf
    by (rewrite Hfull, !len_append; lia).
  assert (0 <= len before) by (unfold len; lia).
  assert (0 <= len after) by (unfold len; lia).
  split; [lia|]. split; [lia|]. split; [lia|].
  rewrite Hfull, str_slice_middle by done.
  unfold str_slice.
  destruct (py_slice_sublist (list_ascii_of_string orig_text) s e)
    as (pre & post & Hsub).
  exists (string_of_list_ascii pre), (string_of_list_ascii post).
  rewrite <- (string_of_list_ascii_of_string orig_text) at 1.
  rewrite Hsub at 1.
  apply (f_equal string_of_list_ascii) in Hsub.
  clear. generalize (py_slice (list_ascii_of_string orig_text) s e). intros mid.
  induction pre as [|c pre IH]; simpl.
  - induction mid as [|c mid IH]; simpl; [done|]. by rewrite IH.
  - by rewrite IH.
Qed.
End FinalTextOfSpanProofs.

(** X23: [get_final_text_] raises only [KeyError], and only when one of the
    two token positions is not in [token_to_word_map]; when they are mapped
    to words [w1 <= w2] of the document, it returns the text of the
    document and a range of it whose characters lie within the words
    [w1..w2]. *)
Theorem get_final_text__span_in_words
    (basic_tokenize : bool -> string -> list string)
    (example : Example) (feature : Feature) (start_index end_index : Z)
    (do_lower_case verbose_logging : bool) :
  (forall e,
     get_final_text_ basic_tokenize example feature start_index end_index
       do_lower_case verbose_logging = Raise e <->
     e = KeyError /\
     (f_token_to_word_map feature !! start_index = None \/
      f_token_to_word_map feature !! end_index = None)) /\
  (forall orig_doc_start orig_doc_end,
     f_token_to_word_map feature !! start_index = Some orig_doc_start ->
     f_token_to_word_map feature !! end_index = Some orig_doc_end ->
     0 <= orig_doc_start -> orig_doc_start <= orig_doc_end ->
     orig_doc_end < Z.of_nat (length (ex_doc_words example)) ->
     let full_text := join " " (ex_doc_words example) in
     let orig_text :=
       join " " (py_slice (ex_doc_words example) orig_doc_start
                   (orig_doc_end + 1)) in
     exists start_pos end_pos,
       get_final_text_ basic_tokenize example feature start_index end_index
         do_lower_case verbose_logging = Ok (full_text, start_pos, end_pos) /\
       0 <= start_pos /\ start_pos <= end_pos /\ end_pos <= len full_text /\
       exists before after,
         orig_text
         = (before ++ str_slice full_text start_pos end_pos ++ after)%string).
Proof.
  split.
  - apply get_final_text__raises.
  - apply get_final_text__returns.
Qed.

Lemma get_final_text__span_in_words_witness :
  exists start_pos end_pos,
    get_final_text_ punctuation_tokenize sample_example sample_feature 2 3
      true false = Ok ("Steve Smith slept", start_pos, end_pos) /\
    0 <= start_pos /\ start_pos <= end_pos /\
    end_pos <= len "Steve Smith slept" /\
    exists before after,
      "Smith slept"
      = (before ++ str_slice "Steve Smith slept" start_pos end_pos ++ after)%string.
Proof.
  apply (proj2 (get_final_text__span_in_words punctuation_tokenize sample_example
                  sample_feature 2 3 true false) 1 2); by vm_compute.
Defined.

(** ** [filter_metadata]: the rows that are kept *)

Lemma where_from_increasing (th : Q) (a : list Q) : forall (n i j p q : nat),
  let idxs :=
    map fst (List.filter (fun it : nat * Q => Qgtb (snd it) th) (enumerate_from n a)) in
  idxs !! i = Some p -> idxs !! j = Some q -> (i < j)%nat -> (p < q)%nat.
Proof.
  induction a as [|x a IH]; intros n i j p q; simpl; [by rewrite lookup_nil|].
  destruct (Qgtb x th); simpl; [|apply IH].
  destruct i as [|i], j as [|j]; simpl; try lia.
  - intros [= <-] Hq _. apply where_from_lookup in Hq as [Hle _]. lia.
  - intros Hp Hq Hlt. apply (IH (S n) i j); [done|done|lia].
Qed.

Lemma np_where_gt_increasing (a : list Q) (th : Q) (i j p q : nat) :
  np_where_gt a th !! i = Some p -> np_where_gt a th !! j = Some q ->
  (i < j)%nat -> (p < q)%nat.
Proof. apply where_from_increasing. Qed.

Lemma np_where_gt_elem (a : list Q) (th : Q) (p : nat) :
  p ∈ np_where_gt a th <-> exists x, a !! p = Some x /\ (th < x)%Q.
Proof.
  split.
  - intros Hin. apply list_elem_of_lookup in Hin as [k Hk].
    by apply np_where_gt_lookup in Hk.
  - intros (x & Hx & Hlt). apply list_elem_of_lookup.
    eexists. by eapply np_where_gt_position.
Qed.

Lemma take_rows_lookup {A} (a : list A) (idxs : list nat) (rows : list A)
    (i o : nat) :
  take_rows a idxs = Ok rows -> idxs !! i = Some o -> rows !! i = a !! o.
Proof.
  intros H Ho. apply take_rows_Ok in H as [Hlen Hrows].
  assert (i < length rows)%nat as Hi
    by (rewrite Hlen; by eapply lookup_lt_Some).
  apply lookup_lt_is_Some in Hi as [row Hrow].
  destruct (Hrows _ _ Hrow) as (o' & Ho' & Hget).
  assert (o' = o) as -> by congruence. by rewrite Hrow, Hget.
Qed.

Lemma take_rows_opt_lookup {A} (a : option (list A)) (idxs : list nat)
    (rows : option (list A)) (i o : nat) :
  take_rows_opt a idxs = Ok rows -> idxs !! i = Some o ->
  (rows ≫= (.!! i)) = (a ≫= (.!! o)).
Proof.
  destruct a as [a|]; simpl.
  - destruct (take_rows a idxs) as [r|] eqn:E; simpl; [|done].
    intros [= <-] Ho. simpl. by eapply take_rows_lookup.
  - by intros [= <-].
Qed.

(** X24: after [filter_metadata], [f2o_start] lists in increasing order
    exactly the positions whose [filter_start] logit is above the
    threshold, and row [i] of [start], of [span_logits] and of each sparse
    map is the row of the original array at position [f2o_start[i]];
    likewise [f2o_end] and [end] for [filter_end]. *)
Theorem filter_metadata_rows (metadata metadata' : Metadata) (threshold : Q) :
  filter_metadata metadata threshold = Ok metadata' ->
  exists f2o_start f2o_end,
    md_f2o_start metadata' = Some f2o_start /\
    md_f2o_end metadata' = Some f2o_end /\
    (forall i j p q, f2o_start !! i = Some p -> f2o_start !! j = Some q ->
       (i < j)%nat -> (p < q)%nat) /\
    (forall i j p q, f2o_end !! i = Some p -> f2o_end !! j = Some q ->
       (i < j)%nat -> (p < q)%nat) /\
    (forall p, p ∈ f2o_start <->
       exists x, md_filter_start metadata !! p = Some x /\ (threshold < x)%Q) /\
    (forall p, p ∈ f2o_end <->
       exists x, md_filter_end metadata !! p = Some x /\ (threshold < x)%Q) /\
    length (md_start metadata') = length f2o_start /\
    length (md_span_logits metadata') = length f2o_start /\
    length (md_end metadata') = length f2o_end /\
    (forall i o, f2o_start !! i = Some o ->
       md_start metadata' !! i = md_start metadata !! o /\
       md_span_logits metadata' !! i = md_span_logits metadata !! o /\
       (md_sparse metadata' ≫= (.!! i)) = (md_sparse metadata ≫= (.!! o)) /\
       (md_sparse_bi metadata' ≫= (.!! i)) = (md_sparse_bi metadata ≫= (.!! o)) /\
       (md_sparse_tri metadata' ≫= (.!! i))
       = (md_sparse_tri metadata ≫= (.!! o))) /\
    (forall i o, f2o_end !! i = Some o ->
       md_end metadata' !! i = md_end metadata !! o).
Proof.
  intros H.
  apply filter_metadata_Ok in H
    as (start & end_ & sr & sp & sbi & stri & span & s2e
        & H1 & H2 & H3 & H4 & H5 & H6 & H7 & H8 & ->).
  simpl. eexists _, _. split; [done|]. split; [done|].
  split; [apply np_where_gt_increasing|].
  split; [apply np_where_gt_increasing|].
  split; [apply np_where_gt_elem|].
  split; [apply np_where_gt_elem|].
  split; [by apply take_rows_Ok in H1 as [? _]|].
  split; [by apply take_rows_Ok in H7 as [? _]|].
  split; [by apply take_rows_Ok in H2 as [? _]|].
  split.
  - intros i o Ho. rewrite H3. simpl.
    split; [by eapply take_rows_lookup|].
    split; [by eapply take_rows_lookup|].
    split; [by eapply take_rows_lookup|].
    split; by eapply take_rows_opt_lookup.
  - intros i o Ho. by eapply take_rows_lookup.
Qed.

Lemma filter_metadata_rows_witness :
  exists f2o_start f2o_end,
    md_f2o_start sample_filtered = Some f2o_start /\
    md_f2o_end sample_filtered = Some f2o_end /\
    (forall i o, f2o_start !! i = Some o ->
       md_start sample_filtered !! i = md_start sample_metadata !! o) /\
    (forall i o, f2o_end !! i = Some o ->
       md_end sample_filtered !! i = md_end sample_metadata !! o).
Proof.
  destruct (filter_metadata_rows sample_metadata sample_filtered 0)
    as (s & e & Hs & He & _ & _ & _ & _ & _ & _ & _ & Hrows & Hend);
    [by vm_compute|].
  exists s, e. split; [done|]. split; [done|]. split; [|done].
  intros i o Ho. by destruct (Hrows i o Ho) as [? _].
Defined.

(** ** [get_metadata]: the span tables *)

Lemma setitem_Ok {A} (a : list A) (i : Z) (v : A) (a' : list A) :
  setitem a i v = Ok a' ->
  0 <= i < Z.of_nat (length a) /\ a' = <[Z.to_nat i := v]> a.
Proof.
  unfold setitem. destruct (Z.ltb_spec i 0); simpl; [done|].
  destruct (Z.leb_spec (Z.of_nat (length a)) i); simpl; [done|].
  intros [= <-]. split; [lia|done].
Qed.

Lemma getitem_Ok {A} (a : list A) (i : Z) (x : A) :
  getitem a i = Ok x -> 0 <= i /\ a !! Z.to_nat i = Some x.
Proof.
  unfold getitem. destruct (Z.ltb_spec i 0); [done|].
  destruct (a !! Z.to_nat i); simpl; [|done]. intros [= <-]. split; [lia|done].
Qed.

Lemma setitem2_Ok {A} (a : list (list A)) (i j : Z) (v : A) (a' : list (list A)) :
  setitem2 a i j v = Ok a' ->
  exists row,
    0 <= i /\ a !! Z.to_nat i = Some row /\ 0 <= j < Z.of_nat (length row) /\
    a' = <[Z.to_nat i := <[Z.to_nat j := v]> row]> a.
Proof.
  unfold setitem2. intros H.
  apply bind_Ok in H as (row & Hrow & H).
  apply bind_Ok in H as (row' & Hrow' & H).
  apply getitem_Ok in Hrow as [Hi Hrow].
  apply setitem_Ok in Hrow' as [Hj ->].
  apply setitem_Ok in H as [_ ->]. by exists row.
Qed.

Lemma table_shape_replicate {A} (n m : nat) (x : A) :
  table_shape n m (replicate n (replicate m x)).
Proof.
  split; [by rewrite length_replicate|].
  intros r row Hr. apply lookup_replicate in Hr as [-> _].
  by rewrite length_replicate.
Qed.

Lemma table_shape_setitem2 {A} (n m : nat) (a a' : list (list A)) (i j : Z) (v : A) :
  setitem2 a i j v = Ok a' -> table_shape n m a -> table_shape n m a'.
Proof.
  intros H [Hn Hm]. apply setitem2_Ok in H as (row & Hi & Hrow & Hj & ->).
  split; [by rewrite length_insert|].
  intros r row' Hr.
  destruct (decide (r = Z.to_nat i)) as [->|Hne].
  - rewrite list_lookup_insert_eq in Hr by (by eapply lookup_lt_Some).
    injection Hr as <-. rewrite length_insert. by eapply Hm.
  - rewrite list_lookup_insert_ne in Hr by done. by eapply Hm.
Qed.

Lemma start2end_cells_setitem2 (a a' : list (list Z)) (i j : Z) :
  setitem2 a i j (i + j) = Ok a' -> start2end_cells a -> start2end_cells a'.
Proof.
  intros H Hcells. apply setitem2_Ok in H as (row & Hi & Hrow & Hj & ->).
  intros r c row' v Hr Hc.
  destruct (decide (r = Z.to_nat i)) as [->|Hne].
  - rewrite list_lookup_insert_eq in Hr by (by eapply lookup_lt_Some).
    injection Hr as <-.
    destruct (decide (c = Z.to_nat j)) as [->|Hnc].
    + rewrite list_lookup_insert_eq in Hc by lia. injection Hc as <-. right. lia.
    + rewrite list_lookup_insert_ne in Hc by done. by eapply Hcells.
  - rewrite list_lookup_insert_ne in Hr by done. by eapply Hcells.
Qed.

Lemma span_tables_Ok (pairs : list (Feature * Result)) (max_answer_length : Z)
    (n m : nat) (span_logits span_logits' : list (list Q))
    (start2end start2end' : list (list Z)) (idx : Z) :
  span_tables pairs max_answer_length span_logits start2end
  = Ok (span_logits', start2end', idx) ->
  table_shape n m span_logits -> table_shape n m start2end ->
  start2end_cells start2end ->
  table_shape n m span_logits' /\ table_shape n m start2end' /\
  start2end_cells start2end'.
Proof.
  intros H Hsl Hse Hcells. unfold span_tables in H.
  refine (foldM_Ok_inv
            (fun st : list (list Q) * list (list Z) * Z =>
               table_shape n m st.1.1 /\ table_shape n m st.1.2 /\
               start2end_cells st.1.2) _ _ _ (span_logits', start2end', idx) _ _ H);
    [|done].
  clear. intros st [feature result] st' _ H Hinv.
  refine (foldM_Ok_inv
            (fun st : list (list Q) * list (list Z) * Z =>
               table_shape n m st.1.1 /\ table_shape n m st.1.2 /\
               start2end_cells st.1.2) _ _ _ st' _ Hinv H).
  clear. intros st i st' _ H Hinv.
  apply bind_Ok in H as ([[sl s2e] idx] & H & Hret). injection Hret as <-.
  simpl.
  refine (foldM_Ok_inv
            (fun st : list (list Q) * list (list Z) * Z =>
               table_shape n m st.1.1 /\ table_shape n m st.1.2 /\
               start2end_cells st.1.2) _ _ _ (sl, s2e, idx) _ Hinv H).
  clear. intros [[sl s2e] idx] j [[sl' s2e'] idx'] _ H (Hsl & Hse & Hcells).
  simpl in *.
  apply bind_Ok in H as (v & _ & H).
  apply bind_Ok in H as (sl1 & Hset1 & H).
  apply bind_Ok in H as (s2e1 & Hset2 & H). injection H as <- <- <-.
  split; [by eapply table_shape_setitem2|].
  split; [by eapply table_shape_setitem2|].
  apply (start2end_cells_setitem2 s2e s2e1 idx (j - i)); [|done].
  by replace (idx + (j - i)) with (idx + j - i) by lia.
Qed.

Section GetMetadataProofs.
Variable basic_tokenize : bool -> string -> list string.

Lemma word_offsets_length (id2example : gmap Z Example) (features : list Feature)
    (do_lower_case verbose_logging : bool) (n : nat)
    (word2char_start word2char_end word2char_start' word2char_end' : list Z)
    (full_text : string) (prev_example : option Example) (word_pos : Z) :
  word_offsets basic_tokenize id2example features do_lower_case verbose_logging
    word2char_start word2char_end
  = Ok (full_text, prev_example, word_pos, word2char_start', word2char_end') ->
  length word2char_start = n -> length word2char_end = n ->
  length word2char_start' = n /\ length word2char_end' = n.
Proof.
  intros H Hs He. unfold word_offsets in H.
  refine (foldM_Ok_inv
            (fun st : string * option Example * Z * list Z * list Z =>
               length st.1.2 = n /\ length st.2 = n) _ _ _
            (full_text, prev_example, word_pos, word2char_start', word2char_end')
            _ _ H); [|done].
  clear. intros [[[[ft prev] wp] ws] we] feature st' _ H [Hs He]. simpl in *.
  apply bind_Ok in H as (example & _ & H).
  apply bind_Ok in H as ([[wp1 ws1] we1] & H & Hret). injection Hret as <-.
  simpl.
  refine (foldM_Ok_inv
            (fun st : Z * list Z * list Z =>
               length st.1.2 = n /\ length st.2 = n) _ _ _
            (wp1, ws1, we1) _ _ H); [|done].
  clear. intros [[wp ws] we] i [[wp' ws'] we'] _ H [Hs He]. simpl in *.
  apply bind_Ok in H as ([[t1 sp] e1] & _ & H).
  apply bind_Ok in H as ([[t2 s2] ep] & _ & H).
  apply bind_Ok in H as (ws1 & Hset1 & H).
  apply bind_Ok in H as (we1 & Hset2 & H). injection H as <- <- <-.
  apply setitem_Ok in Hset1 as [_ ->]. apply setitem_Ok in Hset2 as [_ ->].
  by rewrite !length_insert.
Qed.

Lemma np_concatenate_Ok {A} (arrays : list (list A)) (a : list A) :
  np_concatenate arrays = Ok a -> arrays <> [] /\ a = concat arrays.
Proof. destruct arrays; [done|]. by intros [= <-]. Qed.

Lemma get_metadata_Ok (id2example : gmap Z Example) (features : list Feature)
    (results : list Result) (max_answer_length : Z)
    (do_lower_case verbose_logging : bool) (metadata : Metadata) :
  get_metadata basic_tokenize id2example features results max_answer_length
    do_lower_case verbose_logging = Ok metadata ->
  let n := length (md_start metadata) in
  let m := Z.to_nat max_answer_length in
  features <> [] /\ results <> [] /\ 0 <= max_answer_length /\
  table_shape n m (md_span_logits metadata) /\
  table_shape n m (md_start2end metadata) /\
  start2end_cells (md_start2end metadata) /\
  length (md_word2char_start metadata) = n /\
  length (md_word2char_end metadata) = n /\
  md_f2o_start metadata = None /\ md_f2o_end metadata = None.
Proof.
  unfold get_metadata. intros H.
  apply bind_Ok in H as (start & Hstart & H).
  apply bind_Ok in H as (end_ & _ & H).
  apply bind_Ok in H as ([[[[ids sm] sbm] stm] lpp] & _ & H).
  apply bind_Ok in H as (fs & _ & H).
  apply bind_Ok in H as (fe & _ & H).
  destruct (Z.ltb_spec max_answer_length 0) as [|Hm]; [done|].
  apply bind_Ok in H as ([[sl s2e] idx] & Htab & H).
  apply bind_Ok in H as ([[[[ft prev] wp] ws] we] & Hoff & H).
  apply bind_Ok in H as (prev_example & _ & H). injection H as <-. simpl.
  apply np_concatenate_Ok in Hstart as [Hne _].
  apply (span_tables_Ok _ _ (length start) (Z.to_nat max_answer_length))
    in Htab as (Hsl & Hs2e & Hcells);
    [|apply table_shape_replicate|apply table_shape_replicate|].
  - apply (word_offsets_length _ _ _ _ (length start)) in Hoff as [Hws Hwe];
      [|by rewrite length_replicate..].
    split; [intros ->; by apply Hne|].
    split; [intros ->; apply Hne; by destruct features|].
    done.
  - intros r c row v Hr Hc. apply lookup_replicate in Hr as [-> _].
    apply lookup_replicate in Hc as [-> _]. by left.
Qed.
End GetMetadataProofs.

(** X25: when [get_metadata] returns, there was at least one feature and one
    result, [span_logits] and [start2end] have one row for each row of
    [start] and [max_answer_length] columns, the two arrays of character
    offsets have one entry for each row of [start], and every cell of
    [start2end] holds -1 or the sum of its row and its column. *)
Theorem get_metadata_tables (basic_tokenize : bool -> string -> list string)
    (id2example : gmap Z Example) (features : list Feature)
    (results : list Result) (max_answer_length : Z)
    (do_lower_case verbose_logging : bool) (metadata : Metadata) :
  get_metadata basic_tokenize id2example features results max_answer_length
    do_lower_case verbose_logging = Ok metadata ->
  features <> [] /\ results <> [] /\
  length (md_span_logits metadata) = length (md_start metadata) /\
  length (md_start2end metadata) = length (md_start metadata) /\
  length (md_word2char_start metadata) = length (md_start metadata) /\
  length (md_word2char_end metadata) = length (md_start metadata) /\
  (forall r row, md_span_logits metadata !! r = Some row ->
     Z.of_nat (length row) = max_answer_length) /\
  (forall r c row v,
     md_start2end metadata !! r = Some row -> row !! c = Some v ->
     Z.of_nat (length row) = max_answer_length /\
     (v = -1 \/ v = Z.of_nat r + Z.of_nat c)).
Proof.
  intros H.
  apply get_metadata_Ok
    in H as (Hf & Hr & Hm & [Hsl Hslr] & [Hse Hser] & Hcells & Hws & Hwe & _).
  repeat split; try done.
  - intros r row Hrow. rewrite (Hslr _ _ Hrow). lia.
  - rewrite (Hser _ _ H). lia.
  - by eapply Hcells.
Qed.

Lemma get_metadata_tables_witness :
  length (md_start2end sample_metadata) = length (md_start sample_metadata) /\
  forall r c row v,
    md_start2end sample_metadata !! r = Some row -> row !! c = Some v ->
    Z.of_nat (length row) = 2 /\ (v = -1 \/ v = Z.of_nat r + Z.of_nat c).
Proof.
  destruct (get_metadata_tables punctuation_tokenize sample_id2example
              [sample_feature] [sample_result_sparse] 2 true false sample_metadata)
    as (_ & _ & _ & Hrows & _ & _ & _ & Hcells); [by vm_compute|].
  split; [exact Hrows|exact Hcells].
Defined.

(** ** [write_hdf5]: the items put on the input queue *)

Lemma id2example_of_lookup (all_examples : list Example) (id2feature : gmap Z Feature)
    (id2example : gmap Z Example) (u : Z) (feature : Feature) :
  id2example_of all_examples id2feature = Ok id2example ->
  id2feature !! u = Some feature ->
  id2example !! u = all_examples !! f_example_index feature.
Proof.
  unfold id2example_of. destruct (bool_decide _); [|done].
  intros [= <-] Hu. by rewrite lookup_omap, Hu.
Qed.

Section Hdf5Proofs.
Variables (all_examples : list Example) (all_features : list Feature).
Variable id2example : gmap Z Example.
Hypothesis id2example_eq :
  id2example_of all_examples (id2feature_of all_features) = Ok id2example.

Lemma hdf5_step_inv st result st' :
  hdf5_step (id2feature_of all_features) id2example st result = Ok st' ->
  hdf5_inv all_examples all_features st ->
  hdf5_inv all_examples all_features st'.
Proof.
  destruct st as [[items features] results]. unfold hdf5_step.
  intros H [Hall Hne].
  apply bind_Ok in H as (example & Hex & H).
  apply bind_Ok in H as (feature & Hf & H).
  destruct (id2example !! r_unique_id result) as [ex|] eqn:Eex; [|done].
  destruct (id2feature_of all_features !! r_unique_id result) as [f|] eqn:Ef;
    [|done].
  simpl in Hex, Hf. injection Hex as ->. injection Hf as ->.
  rewrite (id2example_of_lookup _ _ _ _ _ id2example_eq Ef) in Eex.
  destruct (Hall (length items) features results) as (Hfs & Hlater & Hfirst);
    [by rewrite lookup_app_r, Nat.sub_diag by lia|].
  assert (length features = length results) as Hlen
    by (by eapply Forall2_length).
  destruct ((0 <? Z.of_nat (length features)) && (ex_par_idx example =? 0)
            && (f_doc_span_index feature =? 0)) eqn:Hcond.
  - injection H as <-.
    apply andb_true_iff in Hcond as [Hcond Hspan].
    apply andb_true_iff in Hcond as [Hpos Hpar].
    apply Z.ltb_lt in Hpos. apply Z.eqb_eq in Hpar, Hspan.
    split.
    + intros k fs rs Hk.
      destruct (decide (k < length (items ++ [(features, results)]))%nat)
        as [Hlt|Hge].
      * rewrite lookup_app_l in Hk by done. by apply Hall.
      * rewrite lookup_app_r in Hk by lia.
        destruct (k - length (items ++ [(features, results)]))%nat eqn:E;
          [|done].
        injection Hk as <- <-. split; [by repeat constructor|].
        split; [by intros i r Hr|].
        intros _. exists result. split; [done|]. by exists feature, example.
    + intros k fs rs Hk.
      apply lookup_app_Some in Hk as [Hk|[_ Hk]]; [by eapply Hne|].
      destruct (k - length items)%nat; [|done]. injection Hk as <- <-.
      intros ->. simpl in Hlen. lia.
  - injection H as <-. split; [|done].
    intros k fs rs Hk.
    apply lookup_app_Some in Hk as [Hk|[Hge Hk]].
    + apply Hall. by rewrite lookup_app_l by (by eapply lookup_lt_Some).
    + destruct (k - length items)%nat eqn:E; [|done]. injection Hk as <- <-.
      assert (k = length items) as -> by lia.
      split; [apply Forall2_app; [done|by repeat constructor]|]. split.
      * intros i r Hr.
        apply lookup_app_Some in Hr as [Hr|[Hge' Hr]]; [by eapply Hlater|].
        destruct (S i - length results)%nat eqn:E'; [|done]. injection Hr as <-.
        intros (f' & ex' & Hf' & Hex' & Hpar & Hspan).
        assert (f' = feature) as -> by congruence.
        assert (ex' = example) as -> by congruence.
        apply andb_false_iff in Hcond as [Hcond|Hcond];
          [apply andb_false_iff in Hcond as [Hcond|Hcond]|].
        -- apply Z.ltb_ge in Hcond. lia.
        -- apply Z.eqb_neq in Hcond. lia.
        -- apply Z.eqb_neq in Hcond. lia.
      * intros Hpos. destruct (Hfirst Hpos) as (r & Hr & Hstart).
        exists r. split; [|done]. by apply lookup_app_l_Some.
Qed.

Lemma hdf5_step_results st result items features results :
  hdf5_step (id2feature_of all_features) id2example st result
  = Ok (items, features, results) ->
  concat (map snd items) ++ results
  = (concat (map snd st.1.1) ++ st.2) ++ [result].
Proof.
  destruct st as [[items0 features0] results0]. unfold hdf5_step. intros H.
  apply bind_Ok in H as (example & _ & H).
  apply bind_Ok in H as (feature & _ & H). simpl.
  destruct (_ && _); injection H as <- <- <-.
  - by rewrite map_app, concat_app; simpl; rewrite app_nil_r.
  - by rewrite app_assoc.
Qed.

Lemma hdf5_loop_results (l : list Result) st items features results :
  foldM (hdf5_step (id2feature_of all_features) id2example) st l
  = Ok (items, features, results) ->
  concat (map snd items) ++ results = (concat (map snd st.1.1) ++ st.2) ++ l.
Proof.
  revert st. induction l as [|result l IH]; intros st; simpl.
  - intros [= ->]. by rewrite app_nil_r.
  - intros H. apply bind_Ok in H as ([[items1 features1] results1] & H1 & H).
    apply IH in H. apply hdf5_step_results in H1. simpl in H.
    by rewrite H, H1, <- app_assoc.
Qed.
End Hdf5Proofs.

(** X26: when the loop of [write_hdf5] runs to its end, the results of the
    items it has put on the queue, one after the other, are [all_results];
    the features of an item are the features of its results; every item
    but the first starts with the first feature of a document and no item
    has such a feature further on; an item is empty only when there are
    no results at all. *)
Theorem write_hdf5_items (all_examples : list Example) (all_features : list Feature)
    (all_results : list Result) (items : list (list Feature * list Result)) :
  hdf5_items all_examples all_features all_results = Ok items ->
  concat (map snd items) = all_results /\
  forall k features results, items !! k = Some (features, results) ->
    features_of all_features features results /\
    (all_results <> [] -> results <> []) /\
    (forall i result, results !! S i = Some result ->
       ~ starts_document all_examples all_features result) /\
    ((0 < k)%nat ->
     exists result, results !! 0%nat = Some result /\
                    starts_document all_examples all_features result).
Proof.
  unfold hdf5_items. intros H.
  destruct (negb _); [done|].
  apply bind_Ok in H as (id2example & Hid & H).
  apply bind_Ok in H as ([[its features] results] & Hfold & H).
  injection H as <-.
  pose proof (hdf5_loop_results all_features id2example _ _ _ _ _ Hfold) as Hres.
  simpl in Hres.
  assert (hdf5_inv all_examples all_features (its, features, results))
    as [Hall Hne].
  { refine (foldM_Ok_inv (hdf5_inv all_examples all_features) _ _ _ _ _ _ Hfold).
    - intros st x st' _ Hstep. by eapply hdf5_step_inv.
    - split; [|by intros k fs rs; rewrite lookup_nil].
      intros [|k] fs rs Hk; [|done]. injection Hk as <- <-.
      split; [constructor|]. split; [by intros i r; rewrite lookup_nil|intros ?; lia]. }
  split; [by rewrite map_app, concat_app; simpl; rewrite app_nil_r|].
  intros k fs rs Hk.
  destruct (Hall k fs rs Hk) as (Hfs & Hlater & Hfirst).
  split; [done|]. split; [|done].
  intros Hnonempty.
  apply lookup_app_Some in Hk as [Hk|[Hge Hk]]; [by eapply Hne|].
  destruct (k - length its)%nat eqn:E; [|done]. injection Hk as <- <-.
  intros ->. rewrite app_nil_r in Hres.
  destruct (decide (length its = 0)%nat) as [Hz|Hnz].
  - destruct its; [|done]. simpl in Hres. by subst all_results.
  - assert (k = length its) as -> by lia.
    destruct Hfirst as (r & Hr & _); [lia|done].
Qed.

Lemma write_hdf5_items_witness :
  concat (map snd [([sample_feature; sample_feature_2],
                    [sample_result; sample_result_2]);
                   ([sample_feature], [sample_result])])
  = [sample_result; sample_result_2; sample_result].
Proof.
  destruct (write_hdf5_items [sample_example] [sample_feature; sample_feature_2]
              [sample_result; sample_result_2; sample_result]
              [([sample_feature; sample_feature_2], [sample_result; sample_result_2]);
               ([sample_feature], [sample_result])])
    as [H _]; [by vm_compute|exact H].
Defined.
